(** * Duck Machine DM2018: bit fields, CPU step and assembler pass 1

    A shallow embedding of [bitfield.py], [cpu.py] and [assembler_pass1.py].
    Python integers are unbounded, so they are [Z]; Python's [&], [|], [~],
    [<<] and [>>] on integers are [Z.land], [Z.lor], [Z.lnot], [Z.shiftl] and
    [Z.shiftr] (two's complement with infinitely many sign bits on both
    sides).  Code that can raise returns a [Result]. *)

From Stdlib Require Import ZArith Lia String Ascii Bool DecimalString DecimalPos DecimalFacts.
From stdpp Require Import gmap strings list.

Local Open Scope Z_scope.

(** ** Exceptions *)

(** The exception classes the three modules raise or catch.  [SyntaxError] is
    the class declared in [assembler_pass1.py]; the others are Python's. *)
Inductive Exception : Type :=
| SyntaxError (msg : string)
| KeyError (key : string)
| AssertionError
| ValueError (msg : string)
| AttributeError (msg : string)
| IndexError (msg : string).

Inductive Result (A : Type) : Type :=
| Ok (a : A)
| Raise (e : Exception).

Arguments Ok {A} a.
Arguments Raise {A} e.

#[global] Instance Result_ret : MRet Result := fun A a => Ok a.

#[global] Instance Result_bind : MBind Result := fun A B k r =>
  match r with
  | Ok a => k a
  | Raise e => Raise e
  end.

(** ** bitfield.py *)

Module BitFieldPy.

Definition WORD_SIZE : Z := 32.

Record BitField : Type := MkBitField {
  from_bit : Z;
  to_bit : Z;
  width : Z;
  mask : Z;
  shifted_mask : Z;
  mask_inverse : Z
}.

(** One round of the constructor's loop: [mask = mask << 1; mask += 1]. *)
Definition mask_round (m : Z) : Z := Z.shiftl m 1 + 1.

(** [BitField.__init__].  The loop runs over [range(from_bit, to_bit + 1)],
    that is [to_bit + 1 - from_bit] times, and not at all when that is not
    positive.  [mask << from_bit] raises ValueError on a negative count. *)
Definition init (from_bit to_bit : Z) : Result BitField :=
  let width := to_bit - from_bit + 1 in
  let mask := Z.iter (to_bit + 1 - from_bit) mask_round 0 in
  if from_bit <? 0 then Raise (ValueError "negative shift count")
  else
    let shifted_mask := Z.shiftl mask from_bit in
    Ok (MkBitField from_bit to_bit width mask shifted_mask (Z.lnot shifted_mask)).

(** [(self.shifted_mask & (field_val << self.from_bit)) | word & self.mask_inverse];
    [&] binds tighter than [|]. *)
Definition insert (bf : BitField) (field_val word : Z) : Z :=
  Z.lor (Z.land (shifted_mask bf) (Z.shiftl field_val (from_bit bf)))
        (Z.land word (mask_inverse bf)).

(** [(self.shifted_mask & word) >> self.from_bit] *)
Definition extract (bf : BitField) (word : Z) : Z :=
  Z.shiftr (Z.land (shifted_mask bf) word) (from_bit bf).

(** [sign_extend]: the two assertions, then the sign test.  Both shifts are
    reached only with [width > 1], so their counts are not negative. *)
Definition sign_extend (field width : Z) : Result Z :=
  if negb (width >? 1) then Raise AssertionError
  else if negb ((field >=? 0) && (field <? Z.shiftl 1 (width + 1)))
  then Raise AssertionError
  else
    let sign_bit := Z.shiftl 1 (width - 1) in
    let mask := sign_bit - 1 in
    if negb (Z.land field sign_bit =? 0)
    then Ok (Z.land field mask - sign_bit)
    else Ok field.

Definition extract_signed (bf : BitField) (word : Z) : Result Z :=
  sign_extend (extract bf word) (width bf).

(** A word is a 32-bit unsigned quantity. *)
Definition is_word (w : Z) : Prop := 0 <= w < 2 ^ WORD_SIZE.

End BitFieldPy.

(** ** cpu.py *)

Module CPUPy.

(** Modelled from the spec: the [OpCode] enumeration of the module
    [instr_format], whose source is not available.  The spec names ADD and
    "other ALU ops" besides the three control opcodes LOAD, STORE and HALT;
    [CPU.step] only tells LOAD, STORE and HALT from the rest, so the other
    ALU operations are kept by code. *)
Inductive OpCode : Type :=
| HALT
| LOAD
| STORE
| ADD
| OtherALU (code : Z).

#[global] Instance OpCode_eq_dec : EqDecision OpCode.
Proof. solve_decision. Defined.

(** Modelled from the spec: the [Instruction] record of [instr_format]
    (source not available), with the attribute names [CPU.step] reads.
    [cond] is the condition mask, a [CondFlag] bit mask kept as its integer
    value. *)
Record Instruction : Type := MkInstruction {
  op : OpCode;
  cond : Z;
  reg_target : Z;
  reg_src1 : Z;
  reg_src2 : Z;
  offset : Z
}.

(** Modelled from the spec: [CondFlag.ALWAYS] of [instr_format] (source not
    available), the bit mask with every condition bit set (negative, zero,
    positive, overflow). *)
Definition CondFlag_ALWAYS : Z := 15.

(** Modelled from the spec: [Register] and [ZeroRegister] of the module
    [register] (source not available).  A register holds one word; the zero
    register always reads 0 and ignores writes. *)
Inductive Register : Type :=
| Reg (val : Z)
| ZeroRegister.

Definition Register_get (r : Register) : Z :=
  match r with
  | Reg v => v
  | ZeroRegister => 0
  end.

Definition Register_put (r : Register) (v : Z) : Register :=
  match r with
  | Reg _ => Reg v
  | ZeroRegister => ZeroRegister
  end.

(** Python's [l[i]] on a list: a negative index counts from the end, an index
    outside [-len, len) raises IndexError. *)
Definition py_pos {A : Type} (l : list A) (i : Z) : Result nat :=
  let n := Z.of_nat (length l) in
  if (0 <=? i) && (i <? n) then Ok (Z.to_nat i)
  else if (- n <=? i) && (i <? 0) then Ok (Z.to_nat (n + i))
  else Raise (IndexError "list index out of range").

Definition py_index {A : Type} (l : list A) (i : Z) : Result A :=
  n ← py_pos l i;
  match l !! n with
  | Some a => Ok a
  | None => Raise (IndexError "list index out of range")
  end.

(** [registers[i].get()] and [registers[i].put(v)]: the register objects are
    mutated in place, the list itself never changes length. *)
Definition regs_get (regs : list Register) (i : Z) : Result Z :=
  r ← py_index regs i; Ok (Register_get r).

Definition regs_put (regs : list Register) (i : Z) (v : Z) : Result (list Register) :=
  n ← py_pos regs i;
  Ok (alter (fun r => Register_put r v) n regs).

(** The event [CPUStep] handed to the listeners; its [subject] is the CPU
    itself and is left out. *)
Record CPUStep : Type := MkCPUStep {
  pc_addr : Z;
  instr_word : Z;
  instr : Instruction
}.

(** The register file [CPU.__init__] builds, whatever the registers hold:
    the zero register followed by fifteen ordinary ones. *)
Definition is_ordinary (r : Register) : bool :=
  match r with
  | Reg _ => true
  | ZeroRegister => false
  end.

Definition regs_wf (regs : list Register) : bool :=
  match regs with
  | ZeroRegister :: rest => Nat.eqb (length rest) 15 && forallb is_ordinary rest
  | _ => false
  end.

Section Machine.

(** Modelled from the spec: the sources of [Memory] ([memory]), [decode]
    ([instr_format]) and [ALU.exec] ([alu]) are not available; [CPU.step] is
    stated over any memory with [get] and [put], any decoder and any ALU.
    Each may raise.  Reading a cell leaves the memory as it is. *)
Context {Memory : Type}.
Variable Memory_get : Memory -> Z -> Result Z.
Variable Memory_put : Memory -> Z -> Z -> Result Memory.
Variable decode : Z -> Result Instruction.
Variable ALU_exec : OpCode -> Z -> Z -> Result (Z * Z).

(** The attributes of a [CPU] object.  [self.pc] is the object
    [self.registers[15]], so it needs no field of its own; [self.alu] is
    never used by [step]. *)
Record CPU : Type := MkCPU {
  memory : Memory;
  registers : list Register;
  condition : Z;
  halted : bool
}.

(** [CPU.__init__] *)
Definition CPU_init (m : Memory) : CPU :=
  MkCPU m (ZeroRegister :: replicate 15 (Reg 0)) CondFlag_ALWAYS false.

Definition pc_get (c : CPU) : Result Z := regs_get (registers c) 15.

Definition set_registers (c : CPU) (regs : list Register) : CPU :=
  MkCPU (memory c) regs (condition c) (halted c).

Definition set_memory (c : CPU) (m : Memory) : CPU :=
  MkCPU m (registers c) (condition c) (halted c).

Definition set_condition (c : CPU) (cc : Z) : CPU :=
  MkCPU (memory c) (registers c) cc (halted c).

Definition set_halted (c : CPU) (h : bool) : CPU :=
  MkCPU (memory c) (registers c) (condition c) h.

Definition pc_put (c : CPU) (v : Z) : Result CPU :=
  regs ← regs_put (registers c) 15 v; Ok (set_registers c regs).

(** [self.pc.put(self.pc.get() + 1)] *)
Definition pc_advance (c : CPU) : Result CPU :=
  pc ← pc_get c; pc_put c (pc + 1).

(** Lines 54 to 56 of [step]: the two operands handed to the ALU, read
    from the register file as it is when the instruction is fetched. *)
Definition alu_operands (c : CPU) (i : Instruction) : Result (Z * Z) :=
  regsrc1 ← regs_get (registers c) (reg_src1 i);
  regsrc2 ← regs_get (registers c) (reg_src2 i);
  Ok (regsrc1, regsrc2 + offset i).

(** Lines 63 to 70 of [step]: what is done with the ALU's result. *)
Definition writeback (c : CPU) (i : Instruction) (result : Z) : Result CPU :=
  match op i with
  | LOAD =>
      _ ← py_pos (registers c) (reg_target i);
      v ← Memory_get (memory c) result;
      regs ← regs_put (registers c) (reg_target i) v;
      Ok (set_registers c regs)
  | STORE =>
      v ← regs_get (registers c) (reg_target i);
      m ← Memory_put (memory c) result v;
      Ok (set_memory c m)
  | HALT => Ok (set_halted c true)
  | _ =>
      regs ← regs_put (registers c) (reg_target i) result;
      Ok (set_registers c regs)
  end.

(** [CPU.step].  The result pairs the event sent to the listeners with the
    CPU after the step. *)
Definition step (c : CPU) : Result (CPUStep * CPU) :=
  pc ← pc_get c;
  word ← Memory_get (memory c) pc;
  i ← decode word;
  let event := MkCPUStep pc word i in
  if negb (Z.land (condition c) (cond i) =? 0) then
    '(regsrc1, regsrc2) ← alu_operands c i;
    c1 ← pc_advance c;
    '(result, cc) ← ALU_exec (op i) regsrc1 regsrc2;
    c2 ← writeback (set_condition c1 cc) i result;
    Ok (event, c2)
  else
    c1 ← pc_advance c;
    Ok (event, c1).

(** [CPU.run] without the single-step prompt: [self.pc.put(from_addr)],
    then steps while not halted.  The loop need not end, so it is cut off
    after [fuel] steps; [None] means the fuel ran out. *)
Fixpoint run_loop (fuel : nat) (c : CPU) : option (Result CPU) :=
  if halted c then Some (Ok c)
  else
    match fuel with
    | O => None
    | S fuel' =>
        match step c with
        | Ok (_, c') => run_loop fuel' c'
        | Raise e => Some (Raise e)
        end
    end.

Definition run (fuel : nat) (c : CPU) (from_addr : Z) : option (Result CPU) :=
  match pc_put c from_addr with
  | Ok c0 => run_loop fuel c0
  | Raise e => Some (Raise e)
  end.

(** The CPU between the advance of the program counter and the write-back
    of a step that fetched at [pc] and got the flags [cc] from the ALU. *)
Definition advanced (c : CPU) (pc cc : Z) : CPU :=
  set_condition (set_registers c (<[15%nat := Reg (pc + 1)]> (registers c))) cc.

End Machine.

Arguments CPU : clear implicits.

End CPUPy.

(** ** The regular expressions of assembler_pass1.py *)

Module Re.

(** One item of a character set.  A line is the string of its characters,
    each with a code below 256.  On these, [\w] is a letter, a digit or [_]
    as Python's str patterns have it (the ASCII ones and the letters and
    digits of Latin-1), [\s] is Python's white space (tab to carriage
    return, the separators 28 to 31, the blank, and 133 and 160) and [.] is
    any character but the newline. *)
Inductive cset : Type :=
| Single (c : ascii)
| Range (lo hi : ascii)
| WordChar
| SpaceChar
| AnyChar
| Union (a b : cset).

Definition in_range (lo hi c : ascii) : bool :=
  (N_of_ascii lo <=? N_of_ascii c)%N && (N_of_ascii c <=? N_of_ascii hi)%N.

Definition newline : ascii := "010"%char.

Fixpoint cset_mem (cs : cset) (c : ascii) : bool :=
  match cs with
  | Single c' => Ascii.eqb c' c
  | Range lo hi => in_range lo hi c
  | WordChar =>
      in_range "0" "9" c || in_range "A" "Z" c || Ascii.eqb "_" c
      || in_range "a" "z" c || Ascii.eqb "170" c || in_range "178" "179" c
      || Ascii.eqb "181" c || in_range "185" "186" c || in_range "188" "190" c
      || in_range "192" "214" c || in_range "216" "246" c
      || in_range "248" "255" c
  | SpaceChar =>
      in_range "009" "013" c || in_range "028" "032" c || Ascii.eqb "133" c
      || Ascii.eqb "160" c
  | AnyChar => negb (Ascii.eqb newline c)
  | Union a b => cset_mem a c || cset_mem b c
  end.

(** The constructs the four patterns use.  A group is capturing; it is named
    or not.  [Eos] is [$] without MULTILINE: the end of the string, or just
    before a newline that ends the string. *)
Inductive regex : Type :=
| Eps
| Chr (cs : cset)
| Seq (a b : regex)
| Alt (a b : regex)
| Star (a : regex)
| Group (name : option string) (a : regex)
| Eos.

(** [a?] and [a+], both greedy. *)
Definition Opt (a : regex) : regex := Alt a Eps.
Definition Plus (a : regex) : regex := Seq a (Star a).

Fixpoint Lit (s : string) : regex :=
  match s with
  | EmptyString => Eps
  | String c EmptyString => Chr (Single c)
  | String c s' => Seq (Chr (Single c)) (Lit s')
  end.

Fixpoint Seqs (rs : list regex) : regex :=
  match rs with
  | [] => Eps
  | [r] => r
  | r :: rs' => Seq r (Seqs rs')
  end.

(** The text a group has matched: what [s] has in front of its suffix [s']. *)
Definition consumed (s s' : string) : string :=
  String.substring 0 (String.length s - String.length s') s.

(** A backtracking matcher in continuation-passing style: the alternatives
    are tried in the order Python's engine tries them (left branch of [|]
    first, one more round of [*] before leaving it), [k] is the rest of the
    pattern, and the first way to make [k] succeed is the match.  A round of
    [*] has to consume a character, so [length s] rounds are enough. *)
Fixpoint exec (r : regex) (s : string) (caps : gmap string string)
    (k : string -> gmap string string -> option (gmap string string))
    {struct r} : option (gmap string string) :=
  match r with
  | Eps => k s caps
  | Chr cs =>
      match s with
      | String c s' => if cset_mem cs c then k s' caps else None
      | EmptyString => None
      end
  | Seq a b => exec a s caps (fun s' caps' => exec b s' caps' k)
  | Alt a b =>
      match exec a s caps k with
      | Some m => Some m
      | None => exec b s caps k
      end
  | Star a =>
      (fix rounds (n : nat) (s : string) (caps : gmap string string)
         : option (gmap string string) :=
         match n with
         | O => k s caps
         | S n' =>
             match exec a s caps (fun s' caps' =>
                     if (String.length s' <? String.length s)%nat
                     then rounds n' s' caps' else None) with
             | Some m => Some m
             | None => k s caps
             end
         end) (String.length s) s caps
  | Group name a =>
      exec a s caps (fun s' caps' =>
        k s' match name with
             | Some n => <[n := consumed s s']> caps'
             | None => caps'
             end)
  | Eos =>
      match s with
      | EmptyString => k s caps
      | String c EmptyString => if Ascii.eqb c newline then k s caps else None
      | _ => None
      end
  end.

(** The names of the named groups, in the order they open. *)
Fixpoint group_names (r : regex) : list string :=
  match r with
  | Eps | Chr _ | Eos => []
  | Seq a b | Alt a b => group_names a ++ group_names b
  | Star a => group_names a
  | Group (Some n) a => n :: group_names a
  | Group None a => group_names a
  end.

(** [pattern.fullmatch(line)] followed by [match.groupdict()]: [None] when
    the pattern does not match the whole line, else every named group of the
    pattern with what it matched, or Python's [None] for a group that took no
    part in the match. *)
Definition fullmatch (r : regex) (line : string)
    : option (gmap string (option string)) :=
  match exec r line ∅ (fun s' caps =>
          match s' with EmptyString => Some caps | _ => None end) with
  | Some caps =>
      Some (list_to_map ((fun n => (n, caps !! n)) <$> group_names r))
  | None => None
  end.

(** The words a pattern stands for, read off its syntax; the matcher is
    compared with it below.  [Eos] takes no character. *)
Inductive matches : regex -> string -> Prop :=
| M_Eps : matches Eps EmptyString
| M_Chr cs c : cset_mem cs c = true -> matches (Chr cs) (String c EmptyString)
| M_Seq a b u v : matches a u -> matches b v -> matches (Seq a b) (u +:+ v)
| M_AltL a b u : matches a u -> matches (Alt a b) u
| M_AltR a b u : matches b u -> matches (Alt a b) u
| M_Star0 a : matches (Star a) EmptyString
| M_StarS a u v :
    matches a u -> matches (Star a) v -> matches (Star a) (u +:+ v)
| M_Group n a u : matches a u -> matches (Group n a) u
| M_Eos : matches Eos EmptyString.

(** [P name text] holds of whatever a named group of [r] can capture. *)
Fixpoint groups_sound (P : string -> string -> Prop) (r : regex) : Prop :=
  match r with
  | Eps | Chr _ | Eos => True
  | Seq a b | Alt a b => groups_sound P a /\ groups_sound P b
  | Star a => groups_sound P a
  | Group (Some n) a => (forall w, matches a w -> P n w) /\ groups_sound P a
  | Group None a => groups_sound P a
  end.

Definition caps_sound (P : string -> string -> Prop)
    (caps : gmap string string) : Prop :=
  forall n v, caps !! n = Some v -> P n v.

(** The named groups that take part in every match of [r]. *)
Fixpoint must_capture (r : regex) : list string :=
  match r with
  | Eps | Chr _ | Eos | Star _ => []
  | Seq a b => must_capture a ++ must_capture b
  | Alt a b =>
      List.filter (fun n => bool_decide (n ∈ must_capture b)) (must_capture a)
  | Group (Some n) a => n :: must_capture a
  | Group None a => must_capture a
  end.

(** [caps'] keeps every capture of [caps] defined and defines [names]. *)
Definition grows (caps caps' : gmap string string) (names : list string) : Prop :=
  forall n, is_Some (caps !! n) \/ n ∈ names -> is_Some (caps' !! n).

Fixpoint all_chars (p : ascii -> bool) (s : string) : bool :=
  match s with
  | EmptyString => true
  | String c s' => p c && all_chars p s'
  end.

End Re.

(** ** assembler_pass1.py *)

Module Asm.

Import Re.

Inductive AsmSrcKind : Type :=
| COMMENT
| FULL
| DATA
| SYMBOL.

#[global] Instance AsmSrcKind_eq_dec : EqDecision AsmSrcKind.
Proof. solve_decision. Defined.

Definition letter : cset := Union (Range "a" "z") (Range "A" "Z").
Definition digit : cset := Range "0" "9".
Definition hexdigit : cset :=
  Union (Range "a" "f") (Union (Range "A" "F") (Range "0" "9")).

Definition Named (n : string) (a : regex) : regex := Group (Some n) a.
Definition Paren (a : regex) : regex := Group None a.

(** The optional label that opens each of the four patterns: a group
    [label] of a letter and word characters, then a colon. *)
Definition label_part : regex :=
  Opt (Paren (Seq (Named "label" (Seq (Chr letter) (Star (Chr WordChar))))
                  (Chr (Single ":")))).

(** The optional comment: white space, then a group [comment] that starts
    with [#] or [;] and runs to the end of the line. *)
Definition comment_part : regex :=
  Opt (Paren (Seq (Star (Chr SpaceChar))
                  (Named "comment"
                     (Seq (Chr (Union (Single "#") (Single ";")))
                          (Star (Chr AnyChar)))))).

Definition register_name : regex := Seq (Chr (Single "r")) (Plus (Chr digit)).

Definition predicate_part : regex :=
  Opt (Paren (Seq (Chr (Single "/")) (Named "predicate" (Plus (Chr letter))))).

Definition ASM_SYMBOL_PAT : regex :=
  Seqs [ label_part;
         Star (Chr SpaceChar);
         Named "opcode" (Alt (Lit "LOAD") (Alt (Lit "STORE") (Lit "JUMP")));
         predicate_part;
         Plus (Chr SpaceChar);
         Opt (Paren (Seq (Named "target" register_name) (Chr (Single ","))));
         Named "symbol" (Plus (Chr WordChar));
         comment_part;
         Star (Chr SpaceChar);
         Eos ].

Definition ASM_COMMENT_PAT : regex :=
  Seqs [ label_part;
         Star (Chr SpaceChar);
         Opt (Paren (Named "comment"
                       (Seq (Chr (Union (Single "#") (Single ";")))
                            (Star (Chr AnyChar)))));
         Star (Chr SpaceChar);
         Eos ].

Definition ASM_FULL_PAT : regex :=
  Seqs [ label_part;
         Star (Chr SpaceChar);
         Named "opcode" (Plus (Chr letter));
         predicate_part;
         Plus (Chr SpaceChar);
         Named "target" register_name; Chr (Single ",");
         Named "src1" register_name; Chr (Single ",");
         Named "src2" register_name;
         Opt (Paren (Seqs [ Chr (Single "[");
                            Named "offset" (Seq (Opt (Chr (Single "-")))
                                                (Plus (Chr digit)));
                            Chr (Single "]") ]));
         comment_part;
         Star (Chr SpaceChar);
         Eos ].

Definition ASM_DATA_PAT : regex :=
  Seqs [ label_part;
         Star (Chr SpaceChar);
         Named "opcode" (Lit "DATA");
         Star (Chr SpaceChar);
         Opt (Named "value"
                (Alt (Paren (Seq (Lit "0x") (Plus (Chr hexdigit))))
                     (Paren (Plus (Chr digit)))));
         comment_part;
         Star (Chr SpaceChar);
         Eos ].

Definition PATTERNS : list (regex * AsmSrcKind) :=
  [ (ASM_FULL_PAT, FULL);
    (ASM_DATA_PAT, DATA);
    (ASM_COMMENT_PAT, COMMENT);
    (ASM_SYMBOL_PAT, SYMBOL) ].

(** The dict [parse_line] returns: the groups of the pattern that matched
    (a group that took no part holds Python's [None]) and the entry
    ["kind"], whose value is not a string and is kept apart. *)
Record Fields : Type := MkFields {
  kind : AsmSrcKind;
  groups : gmap string (option string)
}.

(** [fields[key]] *)
Definition getitem (f : Fields) (key : string) : Result (option string) :=
  match groups f !! key with
  | Some v => Ok v
  | None => Raise (KeyError key)
  end.

(** [fields[key] = value] *)
Definition setitem (f : Fields) (key : string) (v : option string) : Fields :=
  MkFields (kind f) (<[key := v]> (groups f)).

Fixpoint first_match (pats : list (regex * AsmSrcKind)) (line : string)
    : option Fields :=
  match pats with
  | [] => None
  | (pattern, k) :: rest =>
      match fullmatch pattern line with
      | Some g => Some (MkFields k g)
      | None => first_match rest line
      end
  end.

Definition parse_line (line : string) : Result Fields :=
  match first_match PATTERNS line with
  | Some f => Ok f
  | None => Raise (SyntaxError ("Assembler syntax error in " +:+ line))
  end.

(** ['{}'.format(n)] for an integer: decimal digits, [-] in front of a
    negative one. *)
Definition str_of_Z (n : Z) : string :=
  DecimalString.NilZero.string_of_int (Z.to_int n).

(** ['{}'.format(x)] for a value that is a string or [None]. *)
Definition str_of_opt (x : option string) : string :=
  match x with
  | Some s => s
  | None => "None"
  end.

(** [bool(x)] for a value that is a string or [None]. *)
Definition truthy (x : option string) : bool :=
  match x with
  | Some EmptyString | None => false
  | Some _ => true
  end.

Definition digit_value (c : ascii) : option Z :=
  let n := Z.of_N (N_of_ascii c) in
  if in_range "0" "9" c then Some (n - 48)
  else if in_range "a" "f" c then Some (n - 87)
  else if in_range "A" "F" c then Some (n - 55)
  else None.

Fixpoint digits_value (base : Z) (s : string) (acc : Z) : option Z :=
  match s with
  | EmptyString => Some acc
  | String c s' =>
      match digit_value c with
      | Some d => if d <? base then digits_value base s' (acc * base + d) else None
      | None => None
      end
  end.

(** The interpreter's limit on the decimal digits of an integer that is read
    from a text or written as one: [sys.get_int_max_str_digits()], 4300
    unless the user changes it, which this program does not. *)
Definition int_max_str_digits : Z := 4300.

(** The number of digits of the base a text starts with. *)
Fixpoint leading_digits (base : Z) (s : string) : nat :=
  match s with
  | EmptyString => 0
  | String c s' =>
      match digit_value c with
      | Some d => if d <? base then S (leading_digits base s') else 0
      | None => 0
      end
  end.

(** Python's [int(s, base)] for base 10 and 16, on the literals the DATA
    pattern lets through: digits of the base, after [0x] when the base is 16.
    In base 10 a text of more digits than the limit is refused before it is
    converted; base 16 has no limit.  Anything else is answered with
    ValueError here; Python's [int] also takes signs, blanks and
    underscores, which no [value] group can hold. *)
Definition py_int (s : string) (base : Z) : Result Z :=
  let body :=
    if (base =? 16) && String.prefix "0x" s
    then String.substring 2 (String.length s - 2) s else s in
  if (base =? 10) && (int_max_str_digits <? Z.of_nat (leading_digits base body))
  then Raise (ValueError
                ("Exceeds the limit (4300 digits) for integer string conversion: value has "
                   +:+ str_of_Z (Z.of_nat (leading_digits base body))
                   +:+ " digits; use sys.set_int_max_str_digits() to increase the limit"))
  else
    match body with
    | EmptyString =>
        Raise (ValueError ("invalid literal for int() with base "
                             +:+ str_of_Z base +:+ ": '" +:+ s +:+ "'"))
    | _ =>
        match digits_value base body 0 with
        | Some v => Ok v
        | None =>
            Raise (ValueError ("invalid literal for int() with base "
                                 +:+ str_of_Z base +:+ ": '" +:+ s +:+ "'"))
        end
    end.

(** ['{}'.format(n)] for an integer that comes from a literal: the decimal
    text, unless it has more digits than the limit, which is a ValueError.
    Line numbers and addresses are counts of lines and stay below the limit;
    they are formatted with [str_of_Z]. *)
Definition format_int (n : Z) : Result string :=
  if int_max_str_digits <? Z.of_nat (String.length (str_of_Z (Z.abs n)))
  then Raise (ValueError
                "Exceeds the limit (4300 digits) for integer string conversion; use sys.set_int_max_str_digits() to increase the limit")
  else Ok (str_of_Z n).

(** [value_parse]; on [None] the call of [startswith] raises. *)
Definition value_parse (int_literal : option string) : Result Z :=
  match int_literal with
  | None =>
      Raise (AttributeError "'NoneType' object has no attribute 'startswith'")
  | Some s => if String.prefix "0x" s then py_int s 16 else py_int s 10
  end.

(** A decimal literal of more digits than the interpreter converts. *)
Definition too_long_decimal (v : string) : bool :=
  negb (String.prefix "0x" v)
  && (int_max_str_digits <? Z.of_nat (String.length v)).

Definition INSTR_DEFAULTS : list (string * string) :=
  [ ("predicate", "ALWAYS"); ("offset", "0") ]%string.

(** [fill_defaults]: a default replaces a field that is [None]. *)
Fixpoint fill_defaults_from (defaults : list (string * string)) (f : Fields)
    : Result Fields :=
  match defaults with
  | [] => Ok f
  | (key, value) :: rest =>
      v ← getitem f key;
      match v with
      | None => fill_defaults_from rest (setitem f key (Some value))
      | Some _ => fill_defaults_from rest f
      end
  end.

Definition fill_defaults : Fields -> Result Fields :=
  fill_defaults_from INSTR_DEFAULTS.

(** [str(e)] as the handlers print it: a KeyError shows its key quoted. *)
Definition Exception_str (e : Exception) : string :=
  match e with
  | SyntaxError msg | ValueError msg | AttributeError msg | IndexError msg => msg
  | KeyError key => "'" +:+ key +:+ "'"
  | AssertionError => ""
  end.

(** The three handlers shared by the loops of both passes. *)
Definition report (lnum : nat) (line : string) (e : Exception) : string :=
  let n := str_of_Z (Z.of_nat lnum) in
  match e with
  | SyntaxError _ => "Syntax error in line " +:+ n +:+ ": " +:+ line
  | KeyError _ => "Unknown word in line " +:+ n +:+ ": " +:+ Exception_str e
  | _ => "Exception encountered in line " +:+ n +:+ ": " +:+ Exception_str e
  end.

(** What a pass writes on standard output: a dict of fields or a text. *)
Inductive Printed : Type :=
| PrintFields (f : Fields)
| PrintStr (s : string).

(** *** Pass 1 *)

Record Pass1 : Type := MkPass1 {
  datadict : gmap string Z;
  address1 : Z;
  printed1 : list Printed
}.

(** The body of the [try] in [build_table]. *)
Definition build_table_try (line : string) (st : Pass1) : Result Pass1 :=
  fields ← parse_line line;
  label ← getitem fields "label";
  if truthy label then
    let d := <[str_of_opt label := address1 st]> (datadict st) in
    if negb (bool_decide (kind fields = COMMENT))
    then Ok (MkPass1 d (address1 st + 1) (printed1 st))
    else Ok (MkPass1 d (address1 st) (printed1 st))
  else if negb (bool_decide (kind fields = COMMENT))
  then Ok (MkPass1 (datadict st) (address1 st + 1) (printed1 st))
  else Ok st.

Definition build_table_line (lnum : nat) (line : string) (st : Pass1) : Pass1 :=
  match build_table_try line st with
  | Ok st' => st'
  | Raise e =>
      MkPass1 (datadict st) (address1 st)
              (printed1 st ++ [PrintStr (report lnum line e)])
  end.

Fixpoint build_table_from (lnum : nat) (lines : list string) (st : Pass1)
    : Pass1 :=
  match lines with
  | [] => st
  | line :: rest => build_table_from (S lnum) rest (build_table_line lnum line st)
  end.

Definition build_table_run (lines : list string) : Pass1 :=
  build_table_from 0 lines (MkPass1 ∅ 0 []).

Definition build_table (lines : list string) : gmap string Z :=
  datadict (build_table_run lines).

(** Pass 1 as the spec words it: a line occupies a machine word when it
    parses and is not comment-only, and the address of a line is the number
    of such lines before it. *)
Definition occupies_word (line : string) : bool :=
  match parse_line line with
  | Ok f => negb (bool_decide (kind f = COMMENT))
  | Raise _ => false
  end.

(** The line matches one of the patterns. *)
Definition parses (line : string) : bool :=
  match parse_line line with
  | Ok _ => true
  | Raise _ => false
  end.

Definition words_of (lines : list string) : Z :=
  Z.of_nat (length (List.filter occupies_word lines)).

(** The label a line carries, if it parses and has one. *)
Definition line_label (line : string) : option string :=
  match parse_line line with
  | Ok f =>
      match groups f !! "label"%string with
      | Some (Some l) => Some l
      | _ => None
      end
  | Raise _ => None
  end.

Definition has_label (l : string) (line : string) : bool :=
  bool_decide (line_label line = Some l).

(** The text holds no [/]. *)
Definition no_slash (s : string) : bool :=
  all_chars (fun c => negb (Ascii.eqb c "/")) s.

(** *** Pass 2 *)

(** [sym_table[key]] *)
Definition sym_lookup (sym_table : gmap string Z) (key : option string)
    : Result Z :=
  match key with
  | Some s =>
      match sym_table !! s with
      | Some a => Ok a
      | None => Raise (KeyError s)
      end
  | None => Raise (KeyError "None")
  end.

Definition resolve_line (current_address : Z) (fields : Fields)
    (sym_table : gmap string Z) : Result string :=
  symbol ← getitem fields "symbol";
  target_address ← sym_lookup sym_table symbol;
  let new_addr := target_address - current_address in
  opcode ← getitem fields "opcode";
  predicate ← getitem fields "predicate";
  if bool_decide (opcode = Some "JUMP"%string) then
    let opcode := "ADD"%string in
    if truthy predicate
    then Ok (opcode +:+ "/" +:+ str_of_opt predicate +:+ "  r15,r0,r15["
               +:+ str_of_Z new_addr +:+ "]")
    else Ok (opcode +:+ " r15,r0,r15[" +:+ str_of_Z new_addr +:+ "]")
  else
    target ← getitem fields "target";
    Ok (str_of_opt opcode +:+ "   " +:+ str_of_opt target +:+ ",r0,r15["
          +:+ str_of_Z new_addr +:+ "]").

Record Pass2 : Type := MkPass2 {
  instructions : list string;
  address2 : Z;
  printed2 : list Printed
}.

Section Pass2.

(** Modelled from the spec: [instruction_from_dict] and the text form of an
    [Instruction] come from [instr_format], whose source is not available; pass 2 is
    stated over any such pair.  [instruction_from_dict] may raise. *)
Context {Instr : Type}.
Variable instruction_from_dict : Fields -> Result Instr.
Variable Instruction_str : Instr -> string.

Variable symb_table : gmap string Z.

(** The body of the [try] in [transform_line]: what has been printed when
    the body ends or raises, and the state it ends in when it does. *)
Definition transform_try (line : string) (st : Pass2)
    : list Printed * Result Pass2 :=
  match parse_line line with
  | Raise e => ([], Raise e)
  | Ok fields =>
      match kind fields with
      | FULL =>
          ([PrintFields fields],
           filled ← fill_defaults fields;
           instr ← instruction_from_dict filled;
           Ok (MkPass2 (instructions st ++ [Instruction_str instr])
                       (address2 st + 1) (printed2 st)))
      | SYMBOL =>
          ([PrintFields fields],
           instr ← resolve_line (address2 st) fields symb_table;
           Ok (MkPass2 (instructions st ++ [instr])
                       (address2 st + 1) (printed2 st)))
      | DATA =>
          match (value ← getitem fields "value"; value_parse value) with
          | Raise e => ([PrintFields fields], Raise e)
          | Ok word =>
              match getitem fields "label" with
              | Raise e => ([PrintFields fields], Raise e)
              | Ok label =>
                  match format_int word with
                  | Raise e => ([PrintFields fields], Raise e)
                  | Ok text =>
                      let instr := (str_of_opt label +:+ ":  DATA " +:+ text) in
                      ([PrintFields fields; PrintStr instr],
                       Ok (MkPass2 (instructions st ++ [instr])
                                   (address2 st + 1) (printed2 st)))
                  end
              end
          end
      | COMMENT =>
          ([],
           label ← getitem fields "label";
           comment ← getitem fields "comment";
           let instr :=
             if truthy label && truthy comment
             then (str_of_opt label +:+ ":   " +:+ str_of_opt comment)
             else if truthy label then (str_of_opt label +:+ ":")
             else str_of_opt comment in
           Ok (MkPass2 (instructions st ++ [instr])
                       (address2 st) (printed2 st)))
      end
  end.

Definition transform_line_step (lnum : nat) (line : string) (st : Pass2)
    : Pass2 :=
  match transform_try line st with
  | (out, Ok st') =>
      MkPass2 (instructions st') (address2 st') (printed2 st ++ out)
  | (out, Raise e) =>
      MkPass2 (instructions st) (address2 st)
              (printed2 st ++ out ++ [PrintStr (report lnum line e)])
  end.

Fixpoint transform_line_from (lnum : nat) (lines : list string) (st : Pass2)
    : Pass2 :=
  match lines with
  | [] => st
  | line :: rest =>
      transform_line_from (S lnum) rest (transform_line_step lnum line st)
  end.

Definition transform_line_run (lines : list string) : Pass2 :=
  transform_line_from 0 lines (MkPass2 [] 0 []).

Definition transform_line (lines : list string) : list string :=
  instructions (transform_line_run lines).

(** A line that parses and then makes the body of the [try] of pass 2
    raise. *)
Definition fails_late (line : string) : bool :=
  match parse_line line with
  | Ok _ =>
      match snd (transform_try line (MkPass2 [] 0 [])) with
      | Ok _ => false
      | Raise _ => true
      end
  | Raise _ => false
  end.

End Pass2.

(** [main] without the files: the lines it prints to the object file for
    the lines it has read from the source file. *)
Definition main {Instr : Type} (instruction_from_dict : Fields -> Result Instr)
    (Instruction_str : Instr -> string) (lines : list string) : list string :=
  transform_line instruction_from_dict Instruction_str (build_table lines) lines.

(** The shapes of the texts a fully specified line is made of: letters, a
    register name, an integer with an optional minus sign. *)
Definition is_letters (s : string) : bool :=
  match s with
  | EmptyString => false
  | _ => all_chars (cset_mem letter) s
  end.

Definition is_digits (s : string) : bool :=
  match s with
  | EmptyString => false
  | _ => all_chars (cset_mem digit) s
  end.

Definition is_register (s : string) : bool :=
  match s with
  | String c d => Ascii.eqb c "r" && is_digits d
  | EmptyString => false
  end.

Definition is_integer (s : string) : bool :=
  match s with
  | String c d => if Ascii.eqb c "-" then is_digits d else is_digits s
  | EmptyString => false
  end.

(** The keys of the dict [parse_line] returns for a line of each kind,
    besides ["kind"]. *)
Definition keys_of (k : AsmSrcKind) : list string :=
  match k with
  | FULL => ["label"; "opcode"; "predicate"; "target"; "src1"; "src2";
             "offset"; "comment"]
  | DATA => ["label"; "opcode"; "value"; "comment"]
  | COMMENT => ["label"; "comment"]
  | SYMBOL => ["label"; "opcode"; "predicate"; "target"; "symbol"; "comment"]
  end%string.

End Asm.

(** ** An instance of the collaborators

    [cpu.py] and [assembler_pass1.py] import [instr_format], [memory] and
    [alu], whose sources are not available.  The theorems below hold for any
    collaborators; this module gives one set of them, so that [step] and
    [transform_line] can be run on concrete inputs. *)

Module Sample.

Import BitFieldPy CPUPy Asm.

(** Modelled from the spec: [Memory] is a flat sequence of words indexed by
    address.  An address outside the sequence raises. *)
Definition Memory_get (m : list Z) (a : Z) : Result Z :=
  if (0 <=? a) && (a <? Z.of_nat (length m))
  then match m !! Z.to_nat a with
       | Some w => Ok w
       | None => Raise (IndexError "address out of range")
       end
  else Raise (IndexError "address out of range").

Definition Memory_put (m : list Z) (a v : Z) : Result (list Z) :=
  if (0 <=? a) && (a <? Z.of_nat (length m))
  then Ok (<[Z.to_nat a := v]> m)
  else Raise (IndexError "address out of range").

(** Modelled from the spec: the instruction word packs opcode, condition
    mask, target, src1, src2 (4-bit register indices) and a signed offset
    into bit fields.  The spec leaves the bit ranges to the implementation;
    the ranges here are one layout that fills the 32 bits. *)
Definition op_from : Z := 26.
Definition op_to : Z := 31.
Definition cond_from : Z := 22.
Definition cond_to : Z := 25.
Definition target_from : Z := 18.
Definition target_to : Z := 21.
Definition src1_from : Z := 14.
Definition src1_to : Z := 17.
Definition src2_from : Z := 10.
Definition src2_to : Z := 13.
Definition offset_from : Z := 0.
Definition offset_to : Z := 9.

(** Modelled from the spec: the opcode lookup table of [decode]; a bit
    pattern that is no opcode is a decode error. *)
Definition opcode_of (code : Z) : Result OpCode :=
  if code =? 0 then Ok HALT
  else if code =? 1 then Ok LOAD
  else if code =? 2 then Ok STORE
  else if code =? 3 then Ok ADD
  else Raise (ValueError "not a valid OpCode").

Definition field (from_bit to_bit word : Z) : Result Z :=
  bf ← BitFieldPy.init from_bit to_bit; Ok (extract bf word).

Definition decode (word : Z) : Result Instruction :=
  code ← field op_from op_to word;
  o ← opcode_of code;
  c ← field cond_from cond_to word;
  t ← field target_from target_to word;
  s1 ← field src1_from src1_to word;
  s2 ← field src2_from src2_to word;
  bf ← BitFieldPy.init offset_from offset_to;
  off ← extract_signed bf word;
  Ok (MkInstruction o c t s1 s2 off).

Definition code_of (o : OpCode) : Z :=
  match o with
  | HALT => 0
  | LOAD => 1
  | STORE => 2
  | ADD => 3
  | OtherALU code => code
  end.

Definition encode (i : Instruction) : Result Z :=
  bo ← BitFieldPy.init op_from op_to;
  bc ← BitFieldPy.init cond_from cond_to;
  bt ← BitFieldPy.init target_from target_to;
  b1 ← BitFieldPy.init src1_from src1_to;
  b2 ← BitFieldPy.init src2_from src2_to;
  bf ← BitFieldPy.init offset_from offset_to;
  Ok (insert bf (offset i)
        (insert b2 (reg_src2 i)
           (insert b1 (reg_src1 i)
              (insert bt (reg_target i)
                 (insert bc (cond i) (insert bo (code_of (op i)) 0)))))).

(** Modelled from the spec: the condition bits negative, zero and positive
    of [CondFlag], and an ALU that adds its operands for ADD and for the
    effective address of LOAD and STORE, computes nothing for HALT, and sets
    the flags from the sign of the result.  Other opcodes are an error of
    this ALU. *)
Definition CondFlag_M : Z := 1.
Definition CondFlag_Z : Z := 2.
Definition CondFlag_P : Z := 4.

Definition flags_of (result : Z) : Z :=
  if result <? 0 then CondFlag_M
  else if result =? 0 then CondFlag_Z
  else CondFlag_P.

Definition ALU_exec (o : OpCode) (in1 in2 : Z) : Result (Z * Z) :=
  match o with
  | ADD | LOAD | STORE => Ok (in1 + in2, flags_of (in1 + in2))
  | HALT => Ok (0, flags_of 0)
  | OtherALU _ => Raise (ValueError "unsupported opcode")
  end.

Definition step : CPU (list Z) -> Result (CPUStep * CPU (list Z)) :=
  CPUPy.step Memory_get Memory_put decode ALU_exec.

(** Modelled from the spec: [instruction_from_dict] builds the instruction
    from the fields of the assembler; the opcode enumeration is closed, and
    a name outside it is the KeyError that the handler of [transform_line]
    reports as an unknown word.  The text of the instruction is kept as the
    opcode, the predicate, the three registers and the offset in the syntax
    of a fully specified line. *)
Definition known_opcode (name : string) : bool :=
  bool_decide (name ∈ ["HALT"; "LOAD"; "STORE"; "ADD"]%string).

Definition instruction_from_dict (f : Fields) : Result string :=
  o ← getitem f "opcode";
  p ← getitem f "predicate";
  t ← getitem f "target";
  s1 ← getitem f "src1";
  s2 ← getitem f "src2";
  off ← getitem f "offset";
  if known_opcode (str_of_opt o)
  then Ok (str_of_opt o +:+ "/" +:+ str_of_opt p +:+ "   " +:+ str_of_opt t
             +:+ "," +:+ str_of_opt s1 +:+ "," +:+ str_of_opt s2
             +:+ "[" +:+ str_of_opt off +:+ "]")
  else Raise (KeyError (str_of_opt o)).

Definition Instruction_str (i : string) : string := i.

Definition transform_line_run (symb_table : gmap string Z)
    (lines : list string) : Pass2 :=
  Asm.transform_line_run instruction_from_dict Instruction_str symb_table lines.

Definition transform_line (symb_table : gmap string Z)
    (lines : list string) : list string :=
  Asm.transform_line instruction_from_dict Instruction_str symb_table lines.

Definition transform_line_step (symb_table : gmap string Z) (lnum : nat)
    (line : string) (st : Pass2) : Pass2 :=
  Asm.transform_line_step instruction_from_dict Instruction_str symb_table
    lnum line st.

(** Lines and machine states the examples below are run on. *)
Definition load_line : string := "LOAD/Z r1,x".

Definition load_fields : Fields :=
  MkFields SYMBOL
    (list_to_map [("label", None); ("opcode", Some "LOAD");
                  ("predicate", Some "Z"); ("target", Some "r1");
                  ("symbol", Some "x"); ("comment", None)]%string).

Definition jump_line : string := "again: JUMP/P again".

Definition jump_fields : Fields :=
  MkFields SYMBOL
    (list_to_map [("label", Some "again"); ("opcode", Some "JUMP");
                  ("predicate", Some "P"); ("target", None);
                  ("symbol", Some "again"); ("comment", None)]%string).

Definition bogus_line : string := "BOGUS r1,r2,r3".

Definition bogus_fields : Fields :=
  MkFields FULL
    (list_to_map [("label", None); ("opcode", Some "BOGUS");
                  ("predicate", None); ("target", Some "r1");
                  ("src1", Some "r2"); ("src2", Some "r3");
                  ("offset", None); ("comment", None)]%string).


Definition data_line : string := "DATA 5".

Definition data_fields : Fields :=
  MkFields DATA
    (list_to_map [("label", None); ("opcode", Some "DATA");
                  ("value", Some "5"); ("comment", None)]%string).

(** A LOAD that names no target register, and a DATA line without a
    literal: both are lines the patterns accept. *)
Definition bare_load_line : string := "LOAD x".

Definition bare_load_fields : Fields :=
  MkFields SYMBOL
    (list_to_map [("label", None); ("opcode", Some "LOAD");
                  ("predicate", None); ("target", None);
                  ("symbol", Some "x"); ("comment", None)]%string).

Definition valueless_data_line : string := "x: DATA".

Definition valueless_data_fields : Fields :=
  MkFields DATA
    (list_to_map [("label", Some "x"); ("opcode", Some "DATA");
                  ("value", None); ("comment", None)]%string).

(** The register file with [pc] in r15 and 0 elsewhere. *)
Definition regs_with_pc (pc : Z) : list Register :=
  ZeroRegister :: replicate 14 (Reg 0) ++ [Reg pc].

(** [ADD/ALWAYS r15,r0,r15[0]], what [JUMP here] at [here] resolves to, and
    [ADD/P r1,r2,r3[0]], as instructions and as words of this layout. *)
Definition jump_self : Instruction := MkInstruction ADD 15 15 0 15 0.
Definition jump_self_word : Z := 268188672.
Definition add_if_positive : Instruction := MkInstruction ADD 4 1 2 3 0.
Definition add_if_positive_word : Z := 218401792.

(** A CPU about to fetch [word] at address 5, with flags [cc]. *)
Definition cpu_at_5 (word cc : Z) : CPU (list Z) :=
  MkCPU [0; 0; 0; 0; 0; word; 0] (regs_with_pc 5) cc false.

(** More words of this layout: [ADD/ALWAYS r3,r1,r2[4]], the same into r0,
    [STORE/ALWAYS r15,r0,r0[2]], [LOAD/ALWAYS r1,r0,r15[-1]] and
    [HALT/ALWAYS r0,r0,r0[0]]. *)
Definition add_instr : Instruction := MkInstruction ADD 15 3 1 2 4.
Definition add_word : Z := 265046020.
Definition add_r0_instr : Instruction := MkInstruction ADD 15 0 1 2 4.
Definition add_r0_word : Z := 264259588.
Definition store_pc_instr : Instruction := MkInstruction STORE 15 15 0 0 2.
Definition store_pc_word : Z := 201064450.
Definition load_back_instr : Instruction := MkInstruction LOAD 15 1 0 15 (-1).
Definition load_back_word : Z := 130301951.
Definition halt_instr : Instruction := MkInstruction HALT 15 0 0 0 0.
Definition halt_word : Z := 62914560.

(** A CPU with 10 in r1, 20 in r2 and the program counter at 0. *)
Definition cpu_with (mem : list Z) : CPU (list Z) :=
  MkCPU mem (ZeroRegister :: Reg 10 :: Reg 20 :: replicate 13 (Reg 0))
        CondFlag_ALWAYS false.

End Sample.

(** * Properties *)

(** ** Bit fields *)

Module BitFieldProps.

Import BitFieldPy.

Lemma mask_rounds_ones (n : nat) :
  Nat.iter n mask_round 0 = Z.ones (Z.of_nat n).
Proof.
  induction n as [|n IH].
  - reflexivity.
  - rewrite Nat.iter_succ, IH. unfold mask_round.
    rewrite Nat2Z.inj_succ, !Z.ones_equiv, Z.shiftl_mul_pow2 by lia.
    rewrite Z.pow_succ_r by lia. lia.
Qed.

Lemma mask_loop_ones (n : Z) : 0 <= n -> Z.iter n mask_round 0 = Z.ones n.
Proof.
  intros Hn. rewrite iter_nat_of_Z by assumption.
  change (Nat.iter (Z.abs_nat n) mask_round 0 = Z.ones n).
  rewrite mask_rounds_ones, Zabs2Nat.id_abs, Z.abs_eq; auto.
Qed.

Lemma init_ok (f t : Z) :
  0 <= f <= t ->
  init f t = Ok (MkBitField f t (t - f + 1) (Z.ones (t - f + 1))
                   (Z.shiftl (Z.ones (t - f + 1)) f)
                   (Z.lnot (Z.shiftl (Z.ones (t - f + 1)) f))).
Proof.
  intros H. unfold init.
  destruct (Z.ltb_spec f 0) as [?|_]; [lia|].
  replace (t + 1 - f) with (t - f + 1) by lia.
  rewrite mask_loop_ones by lia. reflexivity.
Qed.

Lemma shifted_ones_bit (w f i : Z) :
  0 <= w -> 0 <= f -> 0 <= i ->
  Z.testbit (Z.shiftl (Z.ones w) f) i = (f <=? i) && (i <? f + w).
Proof.
  intros Hw Hf Hi. rewrite Z.shiftl_spec by assumption.
  destruct (Z.leb_spec f i).
  - rewrite Z.testbit_ones_nonneg by lia. simpl.
    destruct (Z.ltb_spec (i - f) w), (Z.ltb_spec i (f + w)); auto; lia.
  - rewrite Z.testbit_neg_r by lia. reflexivity.
Qed.

Lemma small_bits_high (v n i : Z) :
  0 <= v < 2 ^ n -> 0 <= n -> n <= i -> Z.testbit v i = false.
Proof.
  intros Hv Hn Hi. rewrite <- (Z.mod_small v (2 ^ n)) by assumption.
  apply Z.mod_pow2_bits_high. lia.
Qed.

Lemma land_pow2_testbit (f n : Z) :
  0 <= n -> Z.land f (2 ^ n) = if Z.testbit f n then 2 ^ n else 0.
Proof.
  intros Hn. apply Z.bits_inj'. intros i Hi.
  rewrite Z.land_spec, Z.pow2_bits_eqb by assumption.
  destruct (Z.eqb_spec n i) as [->|Hne].
  - rewrite andb_true_r. destruct (Z.testbit f i) eqn:E.
    + rewrite Z.pow2_bits_true; auto.
    + rewrite Z.bits_0. reflexivity.
  - rewrite andb_false_r. destruct (Z.testbit f n).
    + rewrite Z.pow2_bits_false; auto.
    + rewrite Z.bits_0. reflexivity.
Qed.

Lemma top_bit_split (f n : Z) :
  0 <= n -> 0 <= f < 2 ^ (n + 1) ->
  (Z.testbit f n = false /\ 0 <= f < 2 ^ n) \/
  (Z.testbit f n = true /\ 2 ^ n <= f).
Proof.
  intros Hn Hf. rewrite Z.testbit_true by assumption.
  replace (n + 1) with (Z.succ n) in Hf by lia.
  rewrite Z.pow_succ_r in Hf by assumption.
  assert (H2 : 0 < 2 ^ n) by (apply Z.pow_pos_nonneg; lia).
  assert (Hq : 0 <= f / 2 ^ n < 2).
  { split; [apply Z.div_pos; lia|]. apply Z.div_lt_upper_bound; lia. }
  assert (Hd := Z.div_mod f (2 ^ n) ltac:(lia)).
  assert (Hm := Z.mod_pos_bound f (2 ^ n) H2).
  destruct (Z.eq_dec (f / 2 ^ n) 0) as [E|E].
  - left. rewrite Z.testbit_false by assumption. rewrite E in *.
    split; [reflexivity|lia].
  - right. assert (E1 : f / 2 ^ n = 1) by lia. rewrite E1 in *.
    split; [reflexivity|lia].
Qed.

(** C4: for a bit field with [0 <= from_bit <= to_bit <= 31], a 32-bit
    word [w] and a field value [v] with [0 <= v < 2^width]: extracting after
    inserting gives [v] back, and [insert v w] has the bits of [w] at every
    position outside [from_bit .. to_bit].  The constructor succeeds, the
    width is [to_bit - from_bit + 1], and the result is again a word. *)
Theorem insert_then_extract (f t w v : Z) :
  0 <= f -> f <= t -> t <= 31 ->
  is_word w ->
  0 <= v < 2 ^ (t - f + 1) ->
  exists bf,
    init f t = Ok bf /\
    width bf = t - f + 1 /\
    extract bf (insert bf v w) = v /\
    (forall i, i < f \/ t < i ->
       Z.testbit (insert bf v w) i = Z.testbit w i) /\
    is_word (insert bf v w).
Proof.
  intros Hf Hft Ht Hw Hv.
  eexists. split; [apply init_ok; lia|]. split; [reflexivity|].
  unfold extract, insert; cbn [shifted_mask from_bit mask_inverse].
  set (n := t - f + 1) in *.
  assert (Hn : n = t - f + 1) by reflexivity.
  set (r := Z.lor _ _).
  assert (Hbit : forall i, 0 <= i ->
            Z.testbit r i
            = if (f <=? i) && (i <? f + n) then Z.testbit v (i - f) else Z.testbit w i).
  { intros i Hi. unfold r.
    rewrite Z.lor_spec, !Z.land_spec, Z.lnot_spec by assumption.
    rewrite shifted_ones_bit by lia.
    rewrite Z.shiftl_spec by assumption.
    destruct ((f <=? i) && (i <? f + n)); simpl.
    - rewrite andb_false_r, orb_false_r. reflexivity.
    - rewrite andb_true_r. reflexivity. }
  clearbody r n.
  split; [|split].
  - apply Z.bits_inj'. intros i Hi.
    rewrite Z.shiftr_spec, Z.land_spec, shifted_ones_bit, Hbit by lia.
    replace (i + f - f) with i by lia.
    destruct (Z.leb_spec f (i + f)); [|lia]. simpl.
    destruct (Z.ltb_spec (i + f) (f + n)); [reflexivity|].
    symmetry. apply (small_bits_high v n); lia.
  - intros i Hi. destruct (Z.neg_nonneg_cases i) as [Hneg|Hnn].
    + rewrite !Z.testbit_neg_r by assumption. reflexivity.
    + rewrite Hbit by assumption.
      destruct (Z.leb_spec f i), (Z.ltb_spec i (f + n)); simpl; auto; lia.
  - unfold is_word, WORD_SIZE in *.
    assert (Hnn : 0 <= r).
    { apply Z.bits_iff_nonneg_ex. exists 32. intros m Hm.
      rewrite Hbit by lia.
      destruct (Z.leb_spec f m), (Z.ltb_spec m (f + n)); simpl;
        try (apply (small_bits_high w 32); lia).
      apply (small_bits_high v n); lia. }
    split; [exact Hnn|].
    destruct (Z.eq_dec r 0) as [->|Hne]; [lia|].
    apply Z.log2_lt_pow2; [lia|].
    apply Z.nle_gt. intros Hle.
    assert (Hpos : 0 < r) by lia.
    pose proof (Z.bit_log2 r Hpos) as Hb.
    rewrite Hbit in Hb by (apply Z.log2_nonneg).
    destruct (Z.leb_spec f (Z.log2 r)), (Z.ltb_spec (Z.log2 r) (f + n));
      simpl in Hb; try lia;
      rewrite (small_bits_high w 32) in Hb; try discriminate; lia.
Qed.

Lemma insert_then_extract_witness :
  exists bf,
    init 10 13 = Ok bf /\
    width bf = 13 - 10 + 1 /\
    extract bf (insert bf 5 4294967295) = 5 /\
    (forall i, i < 10 \/ 13 < i ->
       Z.testbit (insert bf 5 4294967295) i = Z.testbit 4294967295 i) /\
    is_word (insert bf 5 4294967295).
Proof.
  apply (insert_then_extract 10 13 4294967295 5);
    try lia; unfold is_word, WORD_SIZE; split; try lia; reflexivity.
Defined.

(** C7: for a width of at least 2 and a field value [f] with
    [0 <= f < 2^width], [sign_extend f width] returns [f], which is then not
    negative, when bit [width - 1] of [f] is 0, and returns [f - 2^width]
    when that bit is 1. *)
Theorem sign_extend_spec (f width : Z) :
  2 <= width -> 0 <= f < 2 ^ width ->
  (Z.testbit f (width - 1) = false -> sign_extend f width = Ok f /\ 0 <= f) /\
  (Z.testbit f (width - 1) = true -> sign_extend f width = Ok (f - 2 ^ width)).
Proof.
  intros Hw Hf. unfold sign_extend.
  destruct (Z.gtb_spec width 1) as [_|?]; [|lia]. cbn [negb].
  assert (Hlt : f < Z.shiftl 1 (width + 1)).
  { rewrite Z.shiftl_1_l. replace (width + 1) with (Z.succ width) by lia.
    rewrite Z.pow_succ_r by lia.
    assert (0 < 2 ^ width) by (apply Z.pow_pos_nonneg; lia). lia. }
  destruct (Z.geb_spec f 0) as [_|?]; [|lia].
  destruct (Z.ltb_spec f (Z.shiftl 1 (width + 1))) as [_|?]; [|lia].
  cbn [andb negb].
  rewrite Z.shiftl_1_l, land_pow2_testbit by lia.
  assert (Hp : 0 < 2 ^ (width - 1)) by (apply Z.pow_pos_nonneg; lia).
  assert (H2 : 2 ^ width = 2 * 2 ^ (width - 1)).
  { rewrite <- Z.pow_succ_r by lia. f_equal. lia. }
  split; intros Hb; rewrite Hb.
  - rewrite Z.eqb_refl. cbn [negb]. split; [reflexivity | lia].
  - destruct (Z.eqb_spec (2 ^ (width - 1)) 0) as [?|_]; [lia|]. cbn [negb].
    f_equal.
    replace (2 ^ (width - 1) - 1) with (Z.ones (width - 1))
      by (rewrite Z.ones_equiv; lia).
    rewrite Z.land_ones by lia.
    destruct (top_bit_split f (width - 1)) as [[Hc _]|[_ Hge]];
      [lia | replace (width - 1 + 1) with width by lia; lia | congruence |].
    assert (Hmod : f mod 2 ^ (width - 1) = f - 2 ^ (width - 1)).
    { symmetry. apply Z.mod_unique_pos with (q := 1); lia. }
    lia.
Qed.

Lemma sign_extend_spec_witness :
  (Z.testbit 13 (4 - 1) = false -> sign_extend 13 4 = Ok 13 /\ 0 <= 13) /\
  (Z.testbit 13 (4 - 1) = true -> sign_extend 13 4 = Ok (13 - 2 ^ 4)).
Proof.
  apply (sign_extend_spec 13 4); [lia | split; [lia | reflexivity]].
Defined.

End BitFieldProps.

(** ** The CPU step *)

Module CPUProps.

Import CPUPy.

Lemma regs_wf_length (regs : list Register) :
  regs_wf regs = true -> length regs = 16%nat.
Proof.
  destruct regs as [|[v|] rest]; simpl; try discriminate.
  intros [Hlen _]%andb_true_iff. apply Nat.eqb_eq in Hlen. lia.
Qed.

Lemma regs_wf_ordinary (regs : list Register) (n : nat) :
  regs_wf regs = true -> (1 <= n < 16)%nat ->
  exists v, regs !! n = Some (Reg v).
Proof.
  destruct regs as [|[v|] rest]; simpl; try discriminate.
  intros [Hlen Hall]%andb_true_iff Hn. apply Nat.eqb_eq in Hlen.
  destruct n as [|n]; [lia|]. simpl.
  destruct (lookup_lt_is_Some_2 rest n) as [r Hr]; [lia|].
  rewrite forallb_forall in Hall.
  assert (Hin : In r rest) by (apply list_elem_of_In; eapply list_elem_of_lookup_2; eauto).
  specialize (Hall r Hin). destruct r; [eauto | discriminate].
Qed.

Lemma regs_wf_alter (regs : list Register) (n : nat) (v : Z) :
  regs_wf regs = true ->
  regs_wf (alter (fun r => Register_put r v) n regs) = true.
Proof.
  destruct regs as [|[w|] rest]; simpl; try discriminate.
  intros [Hlen Hall]%andb_true_iff.
  destruct n as [|n].
  - simpl. rewrite Hlen, Hall. reflexivity.
  - change (alter (fun r => Register_put r v) (S n) (ZeroRegister :: rest))
      with (ZeroRegister :: alter (fun r => Register_put r v) n rest).
    cbn [regs_wf]. rewrite length_alter, Hlen. simpl.
    rewrite forallb_forall in *. intros r Hin.
    apply list_elem_of_In, list_elem_of_lookup in Hin as [j Hj].
    destruct (decide (j = n)) as [->|Hne].
    + rewrite list_lookup_alter_eq in Hj.
      destruct (rest !! n) as [r0|] eqn:E; [|discriminate].
      injection Hj as <-.
      assert (Hr0 : is_ordinary r0 = true).
      { apply Hall, list_elem_of_In. eapply list_elem_of_lookup_2; eauto. }
      destruct r0; [reflexivity|discriminate].
    + rewrite list_lookup_alter_ne in Hj by auto.
      apply Hall, list_elem_of_In. eapply list_elem_of_lookup_2; eauto.
Qed.

Lemma py_pos_in_range {A} (l : list A) (i : Z) :
  0 <= i < Z.of_nat (length l) -> py_pos l i = Ok (Z.to_nat i).
Proof.
  intros H. unfold py_pos.
  destruct (Z.leb_spec 0 i), (Z.ltb_spec i (Z.of_nat (length l))); try lia.
  reflexivity.
Qed.

Lemma regs_get_ordinary (regs : list Register) (n : nat) (v : Z) :
  regs !! n = Some (Reg v) -> regs_get regs (Z.of_nat n) = Ok v.
Proof.
  intros H. unfold regs_get, py_index.
  assert (Hlt := lookup_lt_Some _ _ _ H).
  rewrite py_pos_in_range by lia. simpl.
  rewrite Nat2Z.id, H. reflexivity.
Qed.

Lemma regs_put_ordinary (regs : list Register) (n : nat) (v : Z) :
  (n < length regs)%nat ->
  regs_put regs (Z.of_nat n) v = Ok (alter (fun r => Register_put r v) n regs).
Proof.
  intros H. unfold regs_put. rewrite py_pos_in_range by lia. simpl.
  rewrite Nat2Z.id. reflexivity.
Qed.

Lemma regs_put_wf (regs regs' : list Register) (i v : Z) :
  regs_wf regs = true -> regs_put regs i v = Ok regs' -> regs_wf regs' = true.
Proof.
  intros Hwf. unfold regs_put.
  destruct (py_pos regs i) as [n|e]; simpl; [|discriminate].
  intros [= <-]. apply regs_wf_alter, Hwf.
Qed.

Lemma CPU_init_wf {Memory : Type} (m : Memory) :
  regs_wf (registers (CPU_init m)) = true.
Proof. reflexivity. Qed.

Section MachineProps.

Context {Memory : Type}.
Variable Memory_get : Memory -> Z -> Result Z.
Variable Memory_put : Memory -> Z -> Z -> Result Memory.
Variable decode : Z -> Result Instruction.
Variable ALU_exec : OpCode -> Z -> Z -> Result (Z * Z).

Lemma pc_get_wf (c : CPU Memory) :
  regs_wf (registers c) = true ->
  exists pc, registers c !! 15%nat = Some (Reg pc) /\ pc_get c = Ok pc.
Proof.
  intros Hwf. destruct (regs_wf_ordinary _ 15 Hwf) as [pc Hpc]; [lia|].
  exists pc. split; [assumption|]. apply (regs_get_ordinary _ 15 pc Hpc).
Qed.

Lemma pc_advance_wf (c : CPU Memory) (pc : Z) :
  regs_wf (registers c) = true -> pc_get c = Ok pc ->
  pc_advance c = Ok (set_registers c (<[15%nat := Reg (pc + 1)]> (registers c))).
Proof.
  intros Hwf Hpc. unfold pc_advance. rewrite Hpc. simpl.
  unfold pc_put.
  rewrite (regs_put_ordinary _ 15) by (rewrite (regs_wf_length _ Hwf); lia).
  simpl. do 2 f_equal.
  destruct (pc_get_wf c Hwf) as (pc' & Hl & Hpc').
  apply list_eq. intros j. destruct (decide (j = 15%nat)) as [->|Hne].
  - rewrite list_lookup_alter_eq, Hl. simpl.
    rewrite list_lookup_insert_eq; [reflexivity|].
    rewrite (regs_wf_length _ Hwf). lia.
  - rewrite list_lookup_alter_ne, list_lookup_insert_ne by auto. reflexivity.
Qed.

Lemma pc_advance_inv (c c1 : CPU Memory) :
  regs_wf (registers c) = true -> pc_advance c = Ok c1 ->
  regs_wf (registers c1) = true.
Proof.
  intros Hwf. destruct (pc_get_wf c Hwf) as (pc & _ & Hpc).
  rewrite (pc_advance_wf c pc Hwf Hpc). intros [= <-]. simpl.
  destruct (regs_wf_ordinary _ 15 Hwf) as [v Hv]; [lia|].
  pose proof (regs_wf_alter (registers c) 15 (pc + 1) Hwf) as Ha.
  replace (<[15%nat := Reg (pc + 1)]> (registers c))
    with (alter (fun r => Register_put r (pc + 1)) 15%nat (registers c));
    [exact Ha|].
  apply list_eq. intros j. destruct (decide (j = 15%nat)) as [->|Hne].
  - rewrite list_lookup_alter_eq, Hv. simpl.
    rewrite list_lookup_insert_eq; [reflexivity|].
    rewrite (regs_wf_length _ Hwf). lia.
  - rewrite list_lookup_alter_ne, list_lookup_insert_ne by auto. reflexivity.
Qed.

Lemma writeback_wf (c c' : CPU Memory) (i : Instruction) (result : Z) :
  regs_wf (registers c) = true ->
  writeback Memory_get Memory_put c i result = Ok c' ->
  regs_wf (registers c') = true.
Proof.
  intros Hwf. unfold writeback.
  destruct (op i).
  - intros [= <-]. exact Hwf.
  - destruct (py_pos (registers c) (reg_target i)); simpl; [|discriminate].
    destruct (Memory_get (memory c) result) as [v|]; simpl; [|discriminate].
    destruct (regs_put (registers c) (reg_target i) v) eqn:E; simpl;
      [|discriminate].
    intros [= <-]. simpl. eapply regs_put_wf; eauto.
  - destruct (regs_get (registers c) (reg_target i)) as [v|]; simpl;
      [|discriminate].
    destruct (Memory_put (memory c) result v); simpl; [|discriminate].
    intros [= <-]. exact Hwf.
  - destruct (regs_put (registers c) (reg_target i) result) eqn:E; simpl;
      [|discriminate].
    intros [= <-]. simpl. eapply regs_put_wf; eauto.
  - destruct (regs_put (registers c) (reg_target i) result) eqn:E; simpl;
      [|discriminate].
    intros [= <-]. simpl. eapply regs_put_wf; eauto.
Qed.

(** The shape of the register file is an invariant of [step]. *)
Lemma step_wf (c c' : CPU Memory) (ev : CPUStep) :
  regs_wf (registers c) = true ->
  step Memory_get Memory_put decode ALU_exec c = Ok (ev, c') ->
  regs_wf (registers c') = true.
Proof.
  intros Hwf. unfold step.
  destruct (pc_get c) as [pc|]; simpl; [|discriminate].
  destruct (Memory_get (memory c) pc) as [word|]; simpl; [|discriminate].
  destruct (decode word) as [i|]; simpl; [|discriminate].
  destruct (negb (Z.land (condition c) (cond i) =? 0)).
  - destruct (alu_operands c i) as [[r1 r2]|]; simpl; [|discriminate].
    destruct (pc_advance c) as [c1|] eqn:E1; simpl; [|discriminate].
    destruct (ALU_exec (op i) r1 r2) as [[result cc]|]; simpl; [|discriminate].
    destruct (writeback Memory_get Memory_put (set_condition c1 cc) i result)
      as [c2|] eqn:E2; simpl; [|discriminate].
    intros [= _ <-]. eapply writeback_wf; [|exact E2]. simpl.
    eapply pc_advance_inv; eauto.
  - destruct (pc_advance c) as [c1|] eqn:E1; simpl; [|discriminate].
    intros [= _ <-]. eapply pc_advance_inv; eauto.
Qed.

(** C3: when the condition mask of the fetched instruction has no bit in
    common with the current condition flags, one [step] advances the
    program counter by exactly one and leaves every other register, the
    memory, the condition flags and the halted flag as they were. *)
Theorem step_predicate_false (c : CPU Memory) (pc word : Z) (i : Instruction) :
  regs_wf (registers c) = true ->
  pc_get c = Ok pc ->
  Memory_get (memory c) pc = Ok word ->
  decode word = Ok i ->
  Z.land (condition c) (cond i) = 0 ->
  exists c',
    step Memory_get Memory_put decode ALU_exec c = Ok (MkCPUStep pc word i, c') /\
    pc_get c' = Ok (pc + 1) /\
    length (registers c') = length (registers c) /\
    (forall n : nat, n <> 15%nat -> registers c' !! n = registers c !! n) /\
    memory c' = memory c /\
    condition c' = condition c /\
    halted c' = halted c.
Proof.
  intros Hwf Hpc Hget Hdec Hmask.
  exists (set_registers c (<[15%nat := Reg (pc + 1)]> (registers c))).
  split; [|split; [|split; [|split]]].
  - unfold step. rewrite Hpc. simpl. rewrite Hget. simpl.
    rewrite Hdec. simpl. rewrite Hmask. simpl.
    rewrite (pc_advance_wf c pc Hwf Hpc). reflexivity.
  - unfold pc_get. simpl. apply (regs_get_ordinary _ 15).
    apply list_lookup_insert_eq. rewrite (regs_wf_length _ Hwf). lia.
  - simpl. apply length_insert.
  - intros n Hn. simpl. apply list_lookup_insert_ne. auto.
  - simpl. auto.
Qed.

(** C1, amended: when the predicate check passes and src2 is r15, the
    second operand handed to the ALU is the program counter as it was at
    the fetch plus the offset.  The program counter is advanced by one
    after the operands have been read and before the ALU is invoked, so
    that the write-back works on a CPU whose program counter is already
    one past the fetch address. *)
Theorem step_operand_pc_at_fetch (c : CPU Memory) (pc word regsrc1 : Z)
    (i : Instruction) :
  regs_wf (registers c) = true ->
  pc_get c = Ok pc ->
  Memory_get (memory c) pc = Ok word ->
  decode word = Ok i ->
  Z.land (condition c) (cond i) <> 0 ->
  regs_get (registers c) (reg_src1 i) = Ok regsrc1 ->
  reg_src2 i = 15 ->
  alu_operands c i = Ok (regsrc1, pc + offset i) /\
  exists c1,
    pc_advance c = Ok c1 /\
    pc_get c1 = Ok (pc + 1) /\
    step Memory_get Memory_put decode ALU_exec c =
      ('(result, cc) ← ALU_exec (op i) regsrc1 (pc + offset i);
       c2 ← writeback Memory_get Memory_put (set_condition c1 cc) i result;
       Ok (MkCPUStep pc word i, c2)).
Proof.
  intros Hwf Hpc Hget Hdec Hmask Hsrc1 Hsrc2.
  assert (Hops : alu_operands c i = Ok (regsrc1, pc + offset i)).
  { unfold alu_operands. rewrite Hsrc1, Hsrc2. simpl.
    unfold pc_get in Hpc. rewrite Hpc. reflexivity. }
  split; [exact Hops|].
  exists (set_registers c (<[15%nat := Reg (pc + 1)]> (registers c))).
  split; [apply (pc_advance_wf c pc Hwf Hpc)|]. split.
  - unfold pc_get. simpl. apply (regs_get_ordinary _ 15).
    apply list_lookup_insert_eq. rewrite (regs_wf_length _ Hwf). lia.
  - unfold step. rewrite Hpc. simpl. rewrite Hget. simpl.
    rewrite Hdec. simpl.
    destruct (Z.eqb_spec (Z.land (condition c) (cond i)) 0) as [?|_];
      [contradiction|]. simpl.
    rewrite Hops. simpl. rewrite (pc_advance_wf c pc Hwf Hpc). reflexivity.
Qed.

(** What the assembler counts on: the ADD into r15 that [resolve_line] makes
    of a JUMP, with offset [target - addr] and placed at [addr], sends the
    program counter to [target] when the ALU adds. *)
Lemma resolved_jump_lands (c : CPU Memory) (addr target word cc : Z)
    (i : Instruction) :
  regs_wf (registers c) = true ->
  pc_get c = Ok addr ->
  Memory_get (memory c) addr = Ok word ->
  decode word = Ok i ->
  Z.land (condition c) (cond i) <> 0 ->
  op i = ADD -> reg_target i = 15 -> reg_src1 i = 0 -> reg_src2 i = 15 ->
  offset i = target - addr ->
  ALU_exec ADD 0 target = Ok (target, cc) ->
  exists c',
    step Memory_get Memory_put decode ALU_exec c = Ok (MkCPUStep addr word i, c') /\
    pc_get c' = Ok target.
Proof.
  intros Hwf Hpc Hget Hdec Hmask Hop Ht Hs1 Hs2 Hoff Halu.
  assert (Hlen := regs_wf_length _ Hwf).
  assert (Hzero : regs_get (registers c) 0 = Ok 0).
  { destruct (registers c) as [|[v|] rest]; try discriminate. reflexivity. }
  unfold step. rewrite Hpc. simpl. rewrite Hget. simpl. rewrite Hdec. simpl.
  destruct (Z.eqb_spec (Z.land (condition c) (cond i)) 0) as [?|_];
    [contradiction|]. simpl.
  unfold alu_operands. rewrite Hs1, Hs2, Hzero. simpl.
  unfold pc_get in Hpc. rewrite Hpc. simpl.
  fold (pc_get c) in Hpc. rewrite (pc_advance_wf c addr Hwf Hpc). simpl.
  rewrite Hop, Hoff. replace (addr + (target - addr)) with target by lia.
  rewrite Halu. simpl. unfold writeback. rewrite Hop, Ht. simpl.
  rewrite (regs_put_ordinary _ 15) by (rewrite length_insert; lia). simpl.
  eexists. split; [reflexivity|]. unfold pc_get. simpl.
  apply (regs_get_ordinary _ 15).
  rewrite list_lookup_alter_eq, list_lookup_insert_eq by lia. reflexivity.
Qed.

End MachineProps.

Lemma step_predicate_false_witness :
  exists c',
    Sample.step (Sample.cpu_at_5 Sample.add_if_positive_word Sample.CondFlag_Z)
      = Ok (MkCPUStep 5 Sample.add_if_positive_word Sample.add_if_positive, c') /\
    pc_get c' = Ok (5 + 1) /\
    length (registers c')
      = length (registers
                  (Sample.cpu_at_5 Sample.add_if_positive_word Sample.CondFlag_Z)) /\
    (forall n : nat, n <> 15%nat ->
       registers c' !! n
         = registers
             (Sample.cpu_at_5 Sample.add_if_positive_word Sample.CondFlag_Z) !! n) /\
    memory c'
      = memory (Sample.cpu_at_5 Sample.add_if_positive_word Sample.CondFlag_Z) /\
    condition c'
      = condition (Sample.cpu_at_5 Sample.add_if_positive_word Sample.CondFlag_Z) /\
    halted c'
      = halted (Sample.cpu_at_5 Sample.add_if_positive_word Sample.CondFlag_Z).
Proof.
  apply (step_predicate_false Sample.Memory_get Sample.Memory_put
           Sample.decode Sample.ALU_exec
           (Sample.cpu_at_5 Sample.add_if_positive_word Sample.CondFlag_Z)
           5 Sample.add_if_positive_word Sample.add_if_positive);
    vm_compute; reflexivity.
Defined.

Lemma step_operand_pc_at_fetch_witness :
  alu_operands (Sample.cpu_at_5 Sample.jump_self_word CondFlag_ALWAYS)
    Sample.jump_self = Ok (0, 5 + offset Sample.jump_self) /\
  exists c1,
    pc_advance (Sample.cpu_at_5 Sample.jump_self_word CondFlag_ALWAYS) = Ok c1 /\
    pc_get c1 = Ok (5 + 1) /\
    Sample.step (Sample.cpu_at_5 Sample.jump_self_word CondFlag_ALWAYS) =
      ('(result, cc) ← Sample.ALU_exec (op Sample.jump_self) 0
                         (5 + offset Sample.jump_self);
       c2 ← writeback Sample.Memory_get Sample.Memory_put
              (set_condition c1 cc) Sample.jump_self result;
       Ok (MkCPUStep 5 Sample.jump_self_word Sample.jump_self, c2)).
Proof.
  apply (step_operand_pc_at_fetch Sample.Memory_get Sample.Memory_put
           Sample.decode Sample.ALU_exec
           (Sample.cpu_at_5 Sample.jump_self_word CondFlag_ALWAYS)
           5 Sample.jump_self_word 0 Sample.jump_self);
    vm_compute; solve [reflexivity | discriminate].
Defined.

(** C1 as it stands fails: at address 5 an ADD with src2 r15 and offset 0
    passes the predicate check, and the second operand of the ALU is 5, the
    address of the instruction, not [(5 + 1) + 0].  With an ALU that adds,
    the step leaves the program counter at 5: the instruction, which is what
    [resolve_line] makes of a JUMP to its own line, jumps to itself. *)
Lemma pc_operand_is_not_next_address :
  pc_get (Sample.cpu_at_5 Sample.jump_self_word CondFlag_ALWAYS) = Ok 5 /\
  Sample.decode Sample.jump_self_word = Ok Sample.jump_self /\
  Z.land CondFlag_ALWAYS (cond Sample.jump_self) <> 0 /\
  reg_src2 Sample.jump_self = 15 /\
  alu_operands (Sample.cpu_at_5 Sample.jump_self_word CondFlag_ALWAYS)
    Sample.jump_self = Ok (0, 5) /\
  alu_operands (Sample.cpu_at_5 Sample.jump_self_word CondFlag_ALWAYS)
    Sample.jump_self <> Ok (0, (5 + 1) + offset Sample.jump_self) /\
  exists c',
    Sample.step (Sample.cpu_at_5 Sample.jump_self_word CondFlag_ALWAYS)
      = Ok (MkCPUStep 5 Sample.jump_self_word Sample.jump_self, c') /\
    pc_get c' = Ok 5.
Proof.
  repeat split; try (vm_compute; solve [reflexivity | discriminate]).
  eexists. split; vm_compute; reflexivity.
Qed.

(** The scenario [x: DATA 5], [LOAD r1,x], [HALT r0,r0,r0] run from address
    0: the data word at 0 decodes to an instruction that is never executed,
    the LOAD at address 1 carries the offset -1 that [resolve_line] gives it
    and reads address 0, and the machine halts with 5 in r1. *)
Example run_data_load_halt :
  exists w1 w2 c,
    Sample.encode (MkInstruction LOAD CondFlag_ALWAYS 1 0 15 (-1)) = Ok w1 /\
    Sample.encode (MkInstruction HALT CondFlag_ALWAYS 0 0 0 0) = Ok w2 /\
    run Sample.Memory_get Sample.Memory_put Sample.decode Sample.ALU_exec
      10 (CPU_init [5; w1; w2]) 0 = Some (Ok c) /\
    regs_get (registers c) 1 = Ok 5 /\
    pc_get c = Ok 3 /\
    halted c = true.
Proof.
  do 3 eexists. split; [vm_compute; reflexivity|].
  split; [vm_compute; reflexivity|].
  split; [vm_compute; reflexivity|].
  repeat split; vm_compute; reflexivity.
Qed.

End CPUProps.

(** ** The matcher *)

Module ReProps.

Import Re.

Lemma append_nil_l (v : string) : EmptyString +:+ v = v.
Proof. reflexivity. Qed.

Lemma append_cons (c : ascii) (u v : string) :
  String c u +:+ v = String c (u +:+ v).
Proof. reflexivity. Qed.

Lemma append_length (u v : string) :
  String.length (u +:+ v) = (String.length u + String.length v)%nat.
Proof.
  induction u as [|c u IH]; [reflexivity|].
  rewrite append_cons. simpl. rewrite IH. reflexivity.
Qed.

Lemma substring_append_prefix (u v : string) :
  String.substring 0 (String.length u) (u +:+ v) = u.
Proof.
  induction u as [|c u IH].
  - rewrite append_nil_l. destruct v; reflexivity.
  - rewrite append_cons. simpl. rewrite IH. reflexivity.
Qed.

Lemma consumed_append (u v : string) : consumed (u +:+ v) v = u.
Proof.
  unfold consumed. rewrite append_length.
  replace (String.length u + String.length v - String.length v)%nat
    with (String.length u) by lia.
  apply substring_append_prefix.
Qed.

Lemma append_assoc (u v w : string) : (u +:+ v) +:+ w = u +:+ (v +:+ w).
Proof.
  induction u as [|c u IH]; [reflexivity|].
  rewrite !append_cons, IH. reflexivity.
Qed.

Lemma append_nil_r (u : string) : u +:+ EmptyString = u.
Proof.
  induction u as [|c u IH]; [reflexivity|].
  rewrite append_cons, IH. reflexivity.
Qed.

Lemma grows_refl (caps : gmap string string) : grows caps caps [].
Proof. intros n [H|H]; [exact H | inversion H]. Qed.

Lemma grows_trans (c1 c2 c3 : gmap string string) (n1 n2 : list string) :
  grows c1 c2 n1 -> grows c2 c3 n2 -> grows c1 c3 (n1 ++ n2).
Proof.
  intros H12 H23 n [H|H].
  - apply H23. left. apply H12. auto.
  - apply elem_of_app in H as [H|H].
    + apply H23. left. apply H12. auto.
    + apply H23. auto.
Qed.

Lemma grows_weaken (c1 c2 : gmap string string) (n1 n2 : list string) :
  grows c1 c2 n1 -> (forall n, n ∈ n2 -> n ∈ n1) -> grows c1 c2 n2.
Proof. intros H Hsub n [Hn|Hn]; apply H; auto. Qed.

Lemma grows_insert (c1 c2 : gmap string string) (names : list string)
    (n v : string) :
  grows c1 c2 names -> grows c1 (<[n := v]> c2) (n :: names).
Proof.
  intros H n' Hn'. destruct (decide (n = n')) as [<-|Hne].
  - rewrite lookup_insert_eq. eauto.
  - rewrite lookup_insert_ne by exact Hne. apply H.
    destruct Hn' as [Hn'|Hn']; [auto|].
    apply elem_of_cons in Hn' as [->|Hn']; [congruence | auto].
Qed.

(** Soundness of the matcher: when [exec] finds a match, the text splits
    into a word of the pattern and a rest on which the continuation has
    succeeded; the captures handed on are words of their groups, and every
    group that no match can do without has one. *)
Lemma exec_sound (P : string -> string -> Prop) (r : regex) :
  groups_sound P r ->
  forall s caps k m,
    caps_sound P caps -> exec r s caps k = Some m ->
    exists w s' caps',
      s = w +:+ s' /\ matches r w /\ caps_sound P caps' /\
      grows caps caps' (must_capture r) /\ k s' caps' = Some m.
Proof.
  induction r as [|cs|a IHa b IHb|a IHa b IHb|a IHa|name a IHa|];
    intros HP s caps k m Hc H.
  - exists EmptyString, s, caps. simpl in *.
    repeat split; auto using matches, grows_refl.
  - simpl in H. destruct s as [|c s']; [discriminate|].
    destruct (cset_mem cs c) eqn:E; [|discriminate].
    exists (String c EmptyString), s', caps.
    repeat split; auto using matches, grows_refl.
  - destruct HP as [HPa HPb]. simpl in H.
    apply (IHa HPa) in H as (u & s1 & c1 & -> & Hu & Hc1 & Hg1 & H); [|exact Hc].
    apply (IHb HPb) in H as (v & s2 & c2 & -> & Hv & Hc2 & Hg2 & H); [|exact Hc1].
    exists (u +:+ v), s2, c2. rewrite append_assoc.
    repeat split; auto using matches.
    simpl. eapply grows_trans; eauto.
  - destruct HP as [HPa HPb]. simpl in H.
    destruct (exec a s caps k) as [m'|] eqn:E.
    + injection H as ->.
      apply (IHa HPa) in E as (u & s1 & c1 & -> & Hu & Hc1 & Hg1 & H); [|exact Hc].
      exists u, s1, c1. repeat split; auto using matches.
      eapply grows_weaken; [exact Hg1|]. simpl. intros n Hn.
      apply list_elem_of_In, filter_In in Hn as [Hn _].
      apply list_elem_of_In, Hn.
    + apply (IHb HPb) in H as (u & s1 & c1 & -> & Hu & Hc1 & Hg1 & H); [|exact Hc].
      exists u, s1, c1. repeat split; auto using matches.
      eapply grows_weaken; [exact Hg1|]. simpl. intros n Hn.
      apply list_elem_of_In, filter_In in Hn as [_ Hn].
      apply bool_decide_eq_true in Hn. exact Hn.
  - simpl in HP. simpl in H.
    remember (String.length s) as n eqn:Hn. clear Hn.
    revert s caps Hc H. induction n as [|n IHn]; intros s caps Hc H.
    + exists EmptyString, s, caps.
      repeat split; auto using matches, grows_refl.
    + match type of H with
      | match ?e with _ => _ end = _ => destruct e as [m'|] eqn:E
      end.
      * injection H as ->.
        apply (IHa HP) in E as (u & s1 & c1 & -> & Hu & Hc1 & Hg1 & H); [|exact Hc].
        destruct (String.length s1 <? String.length (u +:+ s1))%nat; [|discriminate].
        apply IHn in H as (v & s2 & c2 & -> & Hv & Hc2 & Hg2 & H); [|exact Hc1].
        exists (u +:+ v), s2, c2. rewrite append_assoc.
        repeat split; auto using matches.
        intros n' [Hn'|Hn']; [|inversion Hn'].
        apply Hg2. left. apply Hg1. auto.
      * exists EmptyString, s, caps.
        repeat split; auto using matches, grows_refl.
  - simpl in H. destruct name as [n|]; simpl in HP.
    + destruct HP as [HPn HPa].
      apply (IHa HPa) in H as (u & s1 & c1 & -> & Hu & Hc1 & Hg1 & H); [|exact Hc].
      exists u, s1, (<[n := consumed (u +:+ s1) s1]> c1).
      repeat split; auto using matches.
      * rewrite consumed_append. intros n' v.
        destruct (decide (n = n')) as [<-|Hne].
        -- rewrite lookup_insert_eq. intros [= <-]. auto.
        -- rewrite lookup_insert_ne by auto. apply Hc1.
      * simpl. apply grows_insert, Hg1.
    + apply (IHa HP) in H as (u & s1 & c1 & -> & Hu & Hc1 & Hg1 & H); [|exact Hc].
      exists u, s1, c1. repeat split; auto using matches.
  - exists EmptyString, s, caps. simpl in H.
    destruct s as [|c [|c' s']]; try discriminate.
    + repeat split; auto using matches, grows_refl.
    + destruct (Ascii.eqb c newline); [|discriminate].
      repeat split; auto using matches, grows_refl.
Qed.

Lemma groupdict_lookup (names : list string) (caps : gmap string string)
    (n : string) (v : option string) :
  (list_to_map ((fun n => (n, caps !! n)) <$> names)
     : gmap string (option string)) !! n = Some v ->
  v = caps !! n /\ n ∈ names.
Proof.
  intros H. apply elem_of_list_to_map_2 in H.
  apply list_elem_of_fmap in H as (n' & [= -> ->] & Hin). auto.
Qed.

Lemma groupdict_is_Some (names : list string) (caps : gmap string string)
    (n : string) :
  n ∈ names ->
  (list_to_map ((fun n => (n, caps !! n)) <$> names)
     : gmap string (option string)) !! n = Some (caps !! n).
Proof.
  intros Hin.
  destruct ((list_to_map ((fun n => (n, caps !! n)) <$> names)
              : gmap string (option string)) !! n) as [v|] eqn:E.
  - apply groupdict_lookup in E as [-> _]. reflexivity.
  - apply not_elem_of_list_to_map_2 in E. exfalso. apply E.
    rewrite <- list_fmap_compose. simpl.
    apply list_elem_of_fmap. exists n. auto.
Qed.

(** What [fullmatch] answers with: the line is a word of the pattern, every
    named group of the pattern has an entry, and what a group holds is a
    word of that group. *)
Lemma fullmatch_sound (P : string -> string -> Prop) (r : regex)
    (line : string) (g : gmap string (option string)) :
  groups_sound P r ->
  fullmatch r line = Some g ->
  matches r line /\
  (forall n, n ∈ group_names r -> is_Some (g !! n)) /\
  (forall n v, g !! n = Some (Some v) -> P n v) /\
  (forall n, n ∈ must_capture r -> n ∈ group_names r ->
             exists v, g !! n = Some (Some v)).
Proof.
  intros HP. unfold fullmatch.
  destruct (exec r line ∅ _) as [caps|] eqn:E; [|discriminate].
  intros [= <-].
  apply (exec_sound P r HP) in E as (w & s' & caps' & -> & Hw & Hc & Hg & Hk).
  - destruct s'; [|discriminate]. injection Hk as ->.
    rewrite append_nil_r. split; [exact Hw|]. split; [|split].
    + intros n Hn. rewrite groupdict_is_Some by exact Hn. eauto.
    + intros n v Hv. apply groupdict_lookup in Hv as [Hv _].
      apply Hc. auto.
    + intros n Hm Hn. rewrite groupdict_is_Some by exact Hn.
      destruct (Hg n) as [v Hv]; [auto|]. rewrite Hv. eauto.
  - intros n v. rewrite lookup_empty. discriminate.
Qed.

Lemma matches_Chr (cs : cset) (w : string) :
  matches (Chr cs) w -> exists c, w = String c EmptyString /\ cset_mem cs c = true.
Proof. inversion 1; subst; eauto. Qed.

Lemma matches_Seq (a b : regex) (w : string) :
  matches (Seq a b) w -> exists u v, w = u +:+ v /\ matches a u /\ matches b v.
Proof. inversion 1; subst; eauto. Qed.

Lemma matches_Alt (a b : regex) (w : string) :
  matches (Alt a b) w -> matches a w \/ matches b w.
Proof. inversion 1; subst; auto. Qed.

Lemma matches_Group (n : option string) (a : regex) (w : string) :
  matches (Group n a) w -> matches a w.
Proof. inversion 1; subst; auto. Qed.

Lemma matches_Eps (w : string) : matches Eps w -> w = EmptyString.
Proof. inversion 1; subst; auto. Qed.

Lemma all_chars_append (p : ascii -> bool) (u v : string) :
  all_chars p (u +:+ v) = all_chars p u && all_chars p v.
Proof.
  induction u as [|c u IH]; [reflexivity|].
  rewrite append_cons. simpl. rewrite IH, andb_assoc. reflexivity.
Qed.

Lemma matches_Star_Chr (cs : cset) (w : string) :
  matches (Star (Chr cs)) w -> all_chars (cset_mem cs) w = true.
Proof.
  intros H. remember (Star (Chr cs)) as r eqn:Hr.
  induction H as [| | | | | |a u v Hu _ Hv IH| |]; try discriminate.
  - reflexivity.
  - injection Hr as ->. apply matches_Chr in Hu as (c & -> & Hc).
    rewrite append_cons, append_nil_l. simpl. rewrite Hc. auto.
Qed.

(** [a+] over a character set: a first character and more of them. *)
Lemma matches_Plus_Chr (cs : cset) (w : string) :
  matches (Plus (Chr cs)) w ->
  exists c w', w = String c w' /\ cset_mem cs c = true /\
               all_chars (cset_mem cs) w' = true.
Proof.
  intros (u & v & -> & Hu & Hv)%matches_Seq.
  apply matches_Chr in Hu as (c & -> & Hc).
  apply matches_Star_Chr in Hv. eauto.
Qed.

Lemma matches_Lit (s w : string) : matches (Lit s) w -> w = s.
Proof.
  revert w. induction s as [|c s IH]; intros w H.
  - apply matches_Eps in H. exact H.
  - destruct s as [|c' s'].
    + apply matches_Chr in H as (c0 & -> & Hc). simpl in Hc.
      apply Ascii.eqb_eq in Hc as ->. reflexivity.
    + change (Lit (String c (String c' s')))
        with (Seq (Chr (Single c)) (Lit (String c' s'))) in H.
      apply matches_Seq in H as (u & v & -> & Hu & Hv).
      apply matches_Chr in Hu as (c0 & -> & Hc). simpl in Hc.
      apply Ascii.eqb_eq in Hc as ->. apply IH in Hv as ->. reflexivity.
Qed.

Lemma all_chars_impl (p q : ascii -> bool) (s : string) :
  (forall c, p c = true -> q c = true) ->
  all_chars p s = true -> all_chars q s = true.
Proof.
  intros Hpq. induction s as [|c s IH]; simpl; [auto|].
  intros [Hc Hs]%andb_true_iff. rewrite (Hpq c Hc), (IH Hs). reflexivity.
Qed.

End ReProps.

(** ** The assembler *)

Module AsmProps.

Import Re ReProps Asm.

(** *** What [parse_line] delivers *)

(** Membership in a list of names that is known in full. *)
Ltac in_names :=
  apply list_elem_of_In; vm_compute;
  repeat (first [left; reflexivity | right]).

Lemma parse_line_inv (line : string) (f : Fields) :
  parse_line line = Ok f ->
  exists pattern,
    In (pattern, kind f) PATTERNS /\ fullmatch pattern line = Some (groups f).
Proof.
  unfold parse_line, PATTERNS, first_match.
  destruct (fullmatch ASM_FULL_PAT line) as [g|] eqn:E1.
  { intros [= <-]. exists ASM_FULL_PAT. simpl. tauto. }
  destruct (fullmatch ASM_DATA_PAT line) as [g|] eqn:E2.
  { intros [= <-]. exists ASM_DATA_PAT. simpl. tauto. }
  destruct (fullmatch ASM_COMMENT_PAT line) as [g|] eqn:E3.
  { intros [= <-]. exists ASM_COMMENT_PAT. simpl. tauto. }
  destruct (fullmatch ASM_SYMBOL_PAT line) as [g|] eqn:E4.
  { intros [= <-]. exists ASM_SYMBOL_PAT. simpl. tauto. }
  discriminate.
Qed.

Lemma parse_line_pattern (line : string) (f : Fields) :
  parse_line line = Ok f ->
  match kind f with
  | FULL => fullmatch ASM_FULL_PAT line = Some (groups f)
  | DATA => fullmatch ASM_DATA_PAT line = Some (groups f)
  | COMMENT => fullmatch ASM_COMMENT_PAT line = Some (groups f)
  | SYMBOL => fullmatch ASM_SYMBOL_PAT line = Some (groups f)
  end.
Proof.
  intros (pattern & Hin & Hm)%parse_line_inv.
  simpl in Hin.
  destruct Hin as [Hin|[Hin|[Hin|[Hin|[]]]]];
    injection Hin as Hp Hk; rewrite <- Hk; rewrite <- Hp in Hm; exact Hm.
Qed.

Lemma label_word_truthy (w : string) :
  matches (Seq (Chr letter) (Star (Chr WordChar))) w -> truthy (Some w) = true.
Proof.
  intros (u & v & -> & Hu & _)%matches_Seq.
  apply matches_Chr in Hu as (c & -> & _). reflexivity.
Qed.

Lemma plus_word_truthy (cs : cset) (w : string) :
  matches (Plus (Chr cs)) w -> truthy (Some w) = true.
Proof. intros (c & w' & -> & _)%matches_Plus_Chr. reflexivity. Qed.

(** Every pattern has a group [label] and a group [comment]. *)
Lemma parse_line_has_label (line : string) (f : Fields) :
  parse_line line = Ok f ->
  is_Some (groups f !! "label"%string) /\ is_Some (groups f !! "comment"%string).
Proof.
  intros H. apply parse_line_pattern in H.
  destruct (kind f);
    apply (fullmatch_sound (fun _ _ => True)) in H as (_ & Hn & _ & _);
    try (split; apply Hn; in_names);
    vm_compute; tauto.
Qed.

(** A label that is there is never the empty string. *)
Lemma parse_line_label_truthy (line : string) (f : Fields) (l : string) :
  parse_line line = Ok f ->
  groups f !! "label"%string = Some (Some l) ->
  truthy (Some l) = true.
Proof.
  intros H Hl. apply parse_line_pattern in H.
  assert (Hlab : forall w, matches (Seq (Chr letter) (Star (Chr WordChar))) w ->
                           "label"%string = "label"%string -> truthy (Some w) = true).
  { intros w Hw _. apply label_word_truthy, Hw. }
  destruct (kind f);
    apply (fullmatch_sound
             (fun n v => n = "label"%string -> truthy (Some v) = true))
      in H as (_ & _ & Hg & _);
    try (apply (Hg _ _ Hl); reflexivity);
    cbn; repeat split; try exact Hlab; intros w _ [=].
Qed.

(** The groups of the symbolic pattern, one by one. *)
Lemma groups_sound_SYMBOL (P : string -> string -> Prop) :
  (forall w, matches (Seq (Chr letter) (Star (Chr WordChar))) w -> P "label" w) ->
  (forall w, matches (Alt (Lit "LOAD") (Alt (Lit "STORE") (Lit "JUMP"))) w ->
             P "opcode" w) ->
  (forall w, matches (Plus (Chr letter)) w -> P "predicate" w) ->
  (forall w, matches register_name w -> P "target" w) ->
  (forall w, matches (Plus (Chr WordChar)) w -> P "symbol" w) ->
  (forall w, matches (Seq (Chr (Union (Single "#") (Single ";")))
                          (Star (Chr AnyChar))) w -> P "comment" w) ->
  groups_sound P ASM_SYMBOL_PAT.
Proof. intros. cbn. repeat split; assumption. Qed.

Lemma groups_sound_DATA (P : string -> string -> Prop) :
  (forall w, matches (Seq (Chr letter) (Star (Chr WordChar))) w -> P "label" w) ->
  (forall w, matches (Lit "DATA") w -> P "opcode" w) ->
  (forall w, matches (Alt (Paren (Seq (Lit "0x") (Plus (Chr hexdigit))))
                          (Paren (Plus (Chr digit)))) w -> P "value" w) ->
  (forall w, matches (Seq (Chr (Union (Single "#") (Single ";")))
                          (Star (Chr AnyChar))) w -> P "comment" w) ->
  groups_sound P ASM_DATA_PAT.
Proof. intros. cbn. repeat split; assumption. Qed.

Lemma no_slash_register_name (w : string) :
  matches register_name w -> no_slash w = true.
Proof.
  intros (u & v & -> & Hu & Hv)%matches_Seq.
  apply matches_Chr in Hu as (c & -> & Hc).
  apply matches_Plus_Chr in Hv as (d & v' & -> & Hd & Hv').
  cbn [cset_mem] in Hc. apply Ascii.eqb_eq in Hc as <-.
  change (no_slash (String "r" (String d v')) = true).
  unfold no_slash. cbn [all_chars].
  assert (Hdig : forall c, cset_mem digit c = true -> negb (Ascii.eqb c "/") = true).
  { intros c. destruct c as [[] [] [] [] [] [] [] []]; try discriminate; reflexivity. }
  rewrite (Hdig d Hd), (all_chars_impl _ _ v' Hdig Hv'). reflexivity.
Qed.

(** *** Texts of numbers *)

Lemma no_slash_append (u v : string) :
  no_slash (u +:+ v) = no_slash u && no_slash v.
Proof. apply all_chars_append. Qed.

Lemma no_slash_uint (d : Decimal.uint) :
  no_slash (DecimalString.NilEmpty.string_of_uint d) = true.
Proof. induction d; simpl; auto. Qed.

Lemma no_slash_str_of_Z (n : Z) : no_slash (str_of_Z n) = true.
Proof.
  unfold str_of_Z, DecimalString.NilZero.string_of_int,
    DecimalString.NilZero.string_of_uint.
  destruct (Z.to_int n) as [d|d]; destruct d; simpl;
    try reflexivity; apply no_slash_uint.
Qed.

Lemma digit_value_digit (c : ascii) :
  cset_mem digit c = true ->
  exists d, digit_value c = Some d /\ (0 <= d < 10)%Z /\ c <> "x"%char.
Proof.
  destruct c as [[] [] [] [] [] [] [] []]; try discriminate; intros _;
    eexists; (split; [vm_compute; reflexivity | split; [lia | discriminate]]).
Qed.

Lemma digit_value_hexdigit (c : ascii) :
  cset_mem hexdigit c = true ->
  exists d, digit_value c = Some d /\ (0 <= d < 16)%Z.
Proof.
  destruct c as [[] [] [] [] [] [] [] []]; try discriminate; intros _;
    eexists; (split; [vm_compute; reflexivity | lia]).
Qed.

Lemma digits_value_total (base : Z) (p : ascii -> bool) (s : string) :
  (forall c, p c = true -> exists d, digit_value c = Some d /\ (d < base)%Z) ->
  all_chars p s = true ->
  forall acc, exists v, digits_value base s acc = Some v.
Proof.
  intros Hp. induction s as [|c s IH]; simpl; intros Hs acc; [eauto|].
  apply andb_true_iff in Hs as [Hc Hs].
  destruct (Hp c Hc) as (d & -> & Hd).
  destruct (Z.ltb_spec d base); [|lia]. apply IH, Hs.
Qed.

Lemma substring_all (s : string) : String.substring 0 (String.length s) s = s.
Proof.
  rewrite <- (append_nil_r s) at 2. apply substring_append_prefix.
Qed.

Lemma leading_digits_all (base : Z) (p : ascii -> bool) (s : string) :
  (forall c, p c = true -> exists d, digit_value c = Some d /\ (d < base)%Z) ->
  all_chars p s = true ->
  leading_digits base s = String.length s.
Proof.
  intros Hp. induction s as [|c s IH]; simpl; intros Hs; [reflexivity|].
  apply andb_true_iff in Hs as [Hc Hs].
  destruct (Hp c Hc) as (d & -> & Hd).
  destruct (Z.ltb_spec d base); [|lia]. rewrite (IH Hs). reflexivity.
Qed.

(** What the group [value] of the DATA pattern holds, [value_parse] turns
    into a number, unless it is a decimal literal beyond the limit of the
    interpreter, which is a ValueError. *)
Lemma value_parse_total (v : string) :
  matches (Alt (Paren (Seq (Lit "0x") (Plus (Chr hexdigit))))
               (Paren (Plus (Chr digit)))) v ->
  if too_long_decimal v
  then exists msg, value_parse (Some v) = Raise (ValueError msg)
  else exists word, value_parse (Some v) = Ok word.
Proof.
  intros [H|H]%matches_Alt; apply matches_Group in H.
  - apply matches_Seq in H as (u & h & -> & Hu & Hh).
    apply matches_Lit in Hu as ->.
    apply matches_Plus_Chr in Hh as (c & h' & -> & Hc & Hh').
    change ("0x" +:+ String c h')
      with (String "0" (String "x" (String c h'))).
    unfold too_long_decimal, value_parse, py_int. cbn [String.prefix].
    destruct (ascii_dec "0" "0") as [_|?]; [|congruence].
    destruct (ascii_dec "x" "x") as [_|?]; [|congruence].
    cbn [Z.eqb Pos.eqb andb negb String.length Nat.sub String.substring].
    change (String.substring 0 (S (String.length h')) (String c h'))
      with (String c (String.substring 0 (String.length h') h')).
    rewrite substring_all.
    destruct (digits_value_total 16 (cset_mem hexdigit) (String c h')) with (acc := 0%Z)
      as [word Hword].
    + intros c' Hc'. destruct (digit_value_hexdigit c' Hc') as (d & Hd & Hr).
      exists d. split; [exact Hd | lia].
    + cbn [all_chars]. rewrite Hc, Hh'. reflexivity.
    + rewrite Hword. eauto.
  - apply matches_Plus_Chr in H as (c & w & -> & Hc & Hw).
    assert (Hpre : String.prefix "0x" (String c w) = false).
    { cbn [String.prefix]. destruct (ascii_dec "0" c) as [<-|?]; [|reflexivity].
      destruct w as [|c' w']; [reflexivity|].
      cbn [all_chars] in Hw. apply andb_true_iff in Hw as [Hc' _].
      destruct (digit_value_digit c' Hc') as (_ & _ & _ & Hx).
      cbn [String.prefix].
      destruct (ascii_dec "x" c'); [congruence|reflexivity]. }
    assert (Hdig : forall c', cset_mem digit c' = true ->
                     exists d, digit_value c' = Some d /\ (d < 10)%Z).
    { intros c' Hc'. destruct (digit_value_digit c' Hc') as (d & Hd & Hr & _).
      exists d. split; [exact Hd | lia]. }
    assert (Hall : all_chars (cset_mem digit) (String c w) = true).
    { cbn [all_chars]. rewrite Hc, Hw. reflexivity. }
    unfold too_long_decimal, value_parse. rewrite Hpre. unfold py_int.
    rewrite Hpre. cbn [Z.eqb Pos.eqb andb negb].
    rewrite (leading_digits_all 10 _ _ Hdig Hall).
    destruct (int_max_str_digits <? Z.of_nat (String.length (String c w)))%Z;
      [eauto|].
    destruct (digits_value_total 10 (cset_mem digit) (String c w) Hdig Hall 0%Z)
      as [word Hword].
    rewrite Hword. eauto.
Qed.

(** What a symbolic line holds: an opcode out of LOAD, STORE and JUMP, a
    symbol, a predicate that is absent or not empty, and a target that is
    absent or a register name. *)
Lemma symbol_line_fields (line : string) (f : Fields) :
  parse_line line = Ok f -> kind f = SYMBOL ->
  exists op sym pred target,
    groups f !! "opcode"%string = Some (Some op) /\
    (op = "JUMP" \/ op = "LOAD" \/ op = "STORE")%string /\
    groups f !! "symbol"%string = Some (Some sym) /\
    groups f !! "predicate"%string = Some pred /\
    (forall p, pred = Some p -> truthy pred = true) /\
    groups f !! "target"%string = Some target /\
    (forall t, target = Some t -> no_slash t = true).
Proof.
  intros H Hk. apply parse_line_pattern in H. rewrite Hk in H.
  apply (fullmatch_sound
           (fun n v =>
              (n = "opcode" -> v = "JUMP" \/ v = "LOAD" \/ v = "STORE") /\
              (n = "predicate" -> truthy (Some v) = true) /\
              (n = "target" -> no_slash v = true))%string)
    in H as (_ & Hn & Hg & Hm).
  - destruct (Hm "opcode"%string) as [op Hop]; [in_names ..|].
    destruct (Hm "symbol"%string) as [sym Hsym]; [in_names ..|].
    destruct (Hn "predicate"%string) as [pred Hpred]; [in_names|].
    destruct (Hn "target"%string) as [target Htarget]; [in_names|].
    exists op, sym, pred, target. repeat split; auto.
    + apply (Hg _ _ Hop). reflexivity.
    + intros p ->. apply (Hg _ _ Hpred). reflexivity.
    + intros t ->. apply (Hg _ _ Htarget). reflexivity.
  - apply groups_sound_SYMBOL; intros w Hw; repeat split; try discriminate.
    + intros _. apply matches_Alt in Hw as [Hw|Hw];
        [|apply matches_Alt in Hw as [Hw|Hw]]; apply matches_Lit in Hw; auto.
    + intros _. eapply plus_word_truthy, Hw.
    + intros _. apply no_slash_register_name, Hw.
Qed.

(** What a DATA line holds: a label or none, and a value that, when it is
    there, [value_parse] turns into a number unless it is a decimal literal
    beyond the limit. *)
Lemma data_line_fields (line : string) (f : Fields) :
  parse_line line = Ok f -> kind f = DATA ->
  exists label value,
    groups f !! "label"%string = Some label /\
    groups f !! "value"%string = Some value /\
    (forall v, value = Some v ->
       if too_long_decimal v
       then exists msg, value_parse value = Raise (ValueError msg)
       else exists word, value_parse value = Ok word).
Proof.
  intros H Hk. apply parse_line_pattern in H. rewrite Hk in H.
  apply (fullmatch_sound
           (fun n v => n = "value"%string ->
                       if too_long_decimal v
                       then exists msg, value_parse (Some v) = Raise (ValueError msg)
                       else exists word, value_parse (Some v) = Ok word))
    in H as (_ & Hn & Hg & _).
  - destruct (Hn "label"%string) as [label Hlabel]; [in_names|].
    destruct (Hn "value"%string) as [value Hvalue]; [in_names|].
    exists label, value. repeat split; auto.
    intros v ->. apply (Hg _ _ Hvalue). reflexivity.
  - apply groups_sound_DATA; intros w Hw; try discriminate.
    intros _. apply value_parse_total, Hw.
Qed.

(** *** Pass 1 *)

Lemma build_table_line_spec (lnum : nat) (line : string) (st : Pass1) :
  address1 (build_table_line lnum line st)
    = (address1 st + (if occupies_word line then 1 else 0))%Z /\
  datadict (build_table_line lnum line st)
    = match line_label line with
      | Some l => <[l := address1 st]> (datadict st)
      | None => datadict st
      end.
Proof.
  unfold build_table_line, build_table_try, occupies_word, line_label.
  destruct (parse_line line) as [f|e] eqn:E; simpl.
  2: { split; [lia | reflexivity]. }
  destruct (parse_line_has_label _ _ E) as [[lab Hlab] _].
  unfold getitem. rewrite Hlab. simpl.
  destruct lab as [l|].
  - rewrite (parse_line_label_truthy _ _ _ E Hlab).
    destruct (kind f); simpl; split; solve [lia | reflexivity].
  - simpl. destruct (kind f); simpl; split; solve [lia | reflexivity].
Qed.

Lemma words_of_cons (line : string) (lines : list string) :
  words_of (line :: lines)
    = ((if occupies_word line then 1 else 0) + words_of lines)%Z.
Proof.
  unfold words_of. simpl. destruct (occupies_word line); simpl length; lia.
Qed.

Lemma words_of_app (pre post : list string) :
  words_of (pre ++ post) = (words_of pre + words_of post)%Z.
Proof.
  induction pre as [|line pre IH]; [reflexivity|].
  change ((line :: pre) ++ post) with (line :: (pre ++ post)).
  rewrite !words_of_cons, IH. lia.
Qed.

Lemma build_table_from_address (lines : list string) :
  forall lnum st,
    address1 (build_table_from lnum lines st) = (address1 st + words_of lines)%Z.
Proof.
  induction lines as [|line lines IH]; intros lnum st.
  - unfold words_of. simpl. lia.
  - simpl. rewrite IH, words_of_cons.
    destruct (build_table_line_spec lnum line st) as [-> _]. lia.
Qed.

Lemma build_table_from_other (l : string) (lines : list string) :
  forallb (fun x => negb (has_label l x)) lines = true ->
  forall lnum st,
    datadict (build_table_from lnum lines st) !! l = datadict st !! l.
Proof.
  induction lines as [|line lines IH]; intros Hall lnum st; [reflexivity|].
  simpl in Hall. apply andb_true_iff in Hall as [Hline Hall].
  simpl. rewrite (IH Hall).
  destruct (build_table_line_spec lnum line st) as [_ ->].
  unfold has_label in Hline. apply negb_true_iff, bool_decide_eq_false in Hline.
  destruct (line_label line) as [l'|]; [|reflexivity].
  apply lookup_insert_ne. congruence.
Qed.

Lemma build_table_from_app (pre post : list string) :
  forall lnum st,
    build_table_from lnum (pre ++ post) st
      = build_table_from (lnum + length pre) post (build_table_from lnum pre st).
Proof.
  induction pre as [|line pre IH]; intros lnum st; simpl.
  - rewrite Nat.add_0_r. reflexivity.
  - rewrite IH. f_equal. lia.
Qed.

(** C6: the pass-1 address starts at 0 and counts the lines that parse and
    are not comment-only; a label is mapped to the address current when its
    line is processed, which is the number of such lines before it, and the
    address moves past a labelled line only if that line is not comment-only.
    The entry is the one of the last line that carries the label. *)
Theorem build_table_addresses (pre post : list string) (line l : string) :
  line_label line = Some l ->
  forallb (fun x => negb (has_label l x)) post = true ->
  address1 (build_table_run []) = 0%Z /\
  address1 (build_table_run pre) = words_of pre /\
  build_table (pre ++ line :: post) !! l = Some (address1 (build_table_run pre)) /\
  address1 (build_table_run (pre ++ [line]))
    = (address1 (build_table_run pre) + (if occupies_word line then 1 else 0))%Z.
Proof.
  intros Hl Hpost. unfold build_table, build_table_run.
  split; [reflexivity|]. split; [|split].
  - rewrite build_table_from_address. simpl. lia.
  - rewrite build_table_from_app. simpl.
    rewrite (build_table_from_other l post Hpost).
    destruct (build_table_line_spec (length pre) line
                (build_table_from 0 pre (MkPass1 ∅ 0 []))) as [_ ->].
    rewrite Hl. apply lookup_insert_eq.
  - rewrite !build_table_from_address, words_of_app, words_of_cons.
    unfold words_of at 2. simpl. lia.
Qed.

Lemma build_table_addresses_witness :
  let pre := ["ADD r1,r2,r3"; "# only a comment"; "what is this"]%string in
  let line := "here: ; a label on a comment line"%string in
  let post := ["there: DATA 7"]%string in
  address1 (build_table_run []) = 0%Z /\
  address1 (build_table_run pre) = words_of pre /\
  build_table (pre ++ line :: post) !! "here"%string
    = Some (address1 (build_table_run pre)) /\
  address1 (build_table_run (pre ++ [line]))
    = (address1 (build_table_run pre) + (if occupies_word line then 1 else 0))%Z.
Proof.
  apply (build_table_addresses
           ["ADD r1,r2,r3"; "# only a comment"; "what is this"]%string
           ["there: DATA 7"]%string
           "here: ; a label on a comment line"%string "here"%string);
    vm_compute; reflexivity.
Defined.

Example build_table_example :
  build_table ["ADD r1,r2,r3"; "# only a comment"; "what is this";
               "here: ; a label on a comment line"; "there: DATA 7";
               "end: HALT r0,r0,r0"]%string
  = <["here"%string := 1%Z]> (<["there"%string := 1%Z]> (<["end"%string := 2%Z]> ∅)).
Proof. vm_compute. reflexivity. Qed.

(** *** Symbolic lines *)

Lemma getitem_lookup (f : Fields) (key : string) (v : option string) :
  groups f !! key = Some v -> getitem f key = Ok v.
Proof. intros H. unfold getitem. rewrite H. reflexivity. Qed.

Lemma getitem_setitem_ne (f : Fields) (key key' : string) (v : option string) :
  key <> key' -> getitem (setitem f key v) key' = getitem f key'.
Proof.
  intros Hne. unfold getitem, setitem. simpl.
  rewrite lookup_insert_ne by exact Hne. reflexivity.
Qed.

Lemma getitem_setitem_eq (f : Fields) (key : string) (v : option string) :
  getitem (setitem f key v) key = Ok v.
Proof. unfold getitem, setitem. simpl. rewrite lookup_insert_eq. reflexivity. Qed.

(** [resolve_line] on fields that have the four entries it reads. *)
Lemma resolve_line_eval (f : Fields) (sym_table : gmap string Z)
    (s op : string) (pred target : option string) (a addr : Z) :
  getitem f "symbol" = Ok (Some s) ->
  sym_table !! s = Some a ->
  getitem f "opcode" = Ok (Some op) ->
  getitem f "predicate" = Ok pred ->
  getitem f "target" = Ok target ->
  resolve_line addr f sym_table =
    Ok (if bool_decide (Some op = Some "JUMP"%string)
        then if truthy pred
             then "ADD" +:+ "/" +:+ str_of_opt pred +:+ "  r15,r0,r15["
                    +:+ str_of_Z (a - addr) +:+ "]"
             else "ADD" +:+ " r15,r0,r15[" +:+ str_of_Z (a - addr) +:+ "]"
        else op +:+ "   " +:+ str_of_opt target +:+ ",r0,r15["
               +:+ str_of_Z (a - addr) +:+ "]").
Proof.
  intros Hs Ha Ho Hp Ht. unfold resolve_line.
  rewrite Hs. cbn [mbind Result_bind sym_lookup]. rewrite Ha, Ho.
  cbn [mbind Result_bind]. rewrite Hp. cbn [mbind Result_bind].
  destruct (bool_decide (Some op = Some "JUMP"%string)).
  - destruct (truthy pred); reflexivity.
  - rewrite Ht. reflexivity.
Qed.

(** What [resolve_line] returns for a symbolic line whose symbol is in the
    symbol table: the new offset is the symbol's address minus the current
    pass-2 address; a JUMP becomes the text of an ADD with target r15,
    sources r0 and r15 and that offset (with the predicate of the line, if
    it has one); a LOAD or STORE keeps its opcode and gets the text of its
    target field, which is [None] when the line names no register. *)
Lemma resolve_line_text (line : string) (f : Fields)
    (sym_table : gmap string Z) (s : string) (a addr : Z) :
  parse_line line = Ok f -> kind f = SYMBOL ->
  groups f !! "symbol"%string = Some (Some s) ->
  sym_table !! s = Some a ->
  exists op pred target,
    groups f !! "opcode"%string = Some (Some op) /\
    groups f !! "predicate"%string = Some pred /\
    groups f !! "target"%string = Some target /\
    ((op = "JUMP"%string /\
      resolve_line addr f sym_table =
        Ok match pred with
           | Some p => "ADD/" +:+ p +:+ "  r15,r0,r15[" +:+ str_of_Z (a - addr) +:+ "]"
           | None => "ADD r15,r0,r15[" +:+ str_of_Z (a - addr) +:+ "]"
           end)
     \/
     ((op = "LOAD" \/ op = "STORE")%string /\
      resolve_line addr f sym_table =
        Ok (op +:+ "   " +:+ str_of_opt target +:+ ",r0,r15["
              +:+ str_of_Z (a - addr) +:+ "]"))).
Proof.
  intros Hp Hk Hs Ha.
  destruct (symbol_line_fields line f Hp Hk)
    as (op & sym & pred & target & Hop & Hcases & _ & Hpred & Htruthy & Htarget & _).
  exists op, pred, target. repeat split; try assumption.
  rewrite (resolve_line_eval f sym_table s op pred target a addr)
    by auto using getitem_lookup.
  destruct Hcases as [-> | [-> | ->]].
  - left. split; [reflexivity|].
    rewrite bool_decide_eq_true_2 by reflexivity.
    destruct pred as [p|].
    + rewrite (Htruthy p eq_refl). reflexivity.
    + reflexivity.
  - right. split; [auto|].
    rewrite bool_decide_eq_false_2 by discriminate. reflexivity.
  - right. split; [auto|].
    rewrite bool_decide_eq_false_2 by discriminate. reflexivity.
Qed.

Lemma resolve_line_text_at_load :
  exists op pred target,
    groups Sample.load_fields !! "opcode"%string = Some (Some op) /\
    groups Sample.load_fields !! "predicate"%string = Some pred /\
    groups Sample.load_fields !! "target"%string = Some target /\
    ((op = "JUMP"%string /\
      resolve_line 3 Sample.load_fields (<["x"%string := 1%Z]> ∅) =
        Ok match pred with
           | Some p => "ADD/" +:+ p +:+ "  r15,r0,r15[" +:+ str_of_Z (1 - 3) +:+ "]"
           | None => "ADD r15,r0,r15[" +:+ str_of_Z (1 - 3) +:+ "]"
           end)
     \/
     ((op = "LOAD" \/ op = "STORE")%string /\
      resolve_line 3 Sample.load_fields (<["x"%string := 1%Z]> ∅) =
        Ok (op +:+ "   " +:+ str_of_opt target +:+ ",r0,r15["
              +:+ str_of_Z (1 - 3) +:+ "]"))).
Proof.
  apply (resolve_line_text Sample.load_line Sample.load_fields
           (<["x"%string := 1%Z]> ∅) "x" 1 3);
    vm_compute; reflexivity.
Qed.

(** The two texts read back by [parse_line]: fully specified instructions
    with the registers and the offset that were asked for. *)
Example resolve_line_examples :
  resolve_line 3 Sample.load_fields (<["x"%string := 1%Z]> ∅)
    = Ok "LOAD   r1,r0,r15[-2]"%string /\
  resolve_line 4 Sample.jump_fields (<["again"%string := 4%Z]> ∅)
    = Ok "ADD/P  r15,r0,r15[0]"%string /\
  parse_line "LOAD   r1,r0,r15[-2]"
    = Ok (MkFields FULL
            (list_to_map [("label", None); ("opcode", Some "LOAD");
                          ("predicate", None); ("target", Some "r1");
                          ("src1", Some "r0"); ("src2", Some "r15");
                          ("offset", Some "-2"); ("comment", None)]%string)) /\
  parse_line "ADD/P  r15,r0,r15[0]"
    = Ok (MkFields FULL
            (list_to_map [("label", None); ("opcode", Some "ADD");
                          ("predicate", Some "P"); ("target", Some "r15");
                          ("src1", Some "r0"); ("src2", Some "r15");
                          ("offset", Some "0"); ("comment", None)]%string)).
Proof. repeat split; vm_compute; reflexivity. Qed.

(** C9: on a symbolic LOAD or STORE line with a predicate, the text
    [resolve_line] builds is the one it builds for the same line without
    the predicate, and it holds no [/]; on a symbolic JUMP line the
    predicate is kept, after [ADD/]. *)
Theorem resolve_line_drops_predicate (line : string) (f : Fields)
    (sym_table : gmap string Z) (s p : string) (a addr : Z) :
  parse_line line = Ok f -> kind f = SYMBOL ->
  groups f !! "symbol"%string = Some (Some s) ->
  sym_table !! s = Some a ->
  groups f !! "predicate"%string = Some (Some p) ->
  exists op text,
    groups f !! "opcode"%string = Some (Some op) /\
    resolve_line addr f sym_table = Ok text /\
    ((op = "LOAD" \/ op = "STORE")%string ->
       no_slash text = true /\
       resolve_line addr (setitem f "predicate" None) sym_table = Ok text) /\
    (op = "JUMP"%string ->
       text = "ADD/" +:+ p +:+ "  r15,r0,r15[" +:+ str_of_Z (a - addr) +:+ "]").
Proof.
  intros Hp Hk Hs Ha Hpred.
  destruct (symbol_line_fields line f Hp Hk)
    as (op & sym & pred & target & Hop & Hcases & _ & Hpred' & Htruthy
        & Htarget & Hslash).
  rewrite Hpred in Hpred'. injection Hpred' as <-.
  exists op. eexists. split; [exact Hop|]. split; [|split].
  - apply (resolve_line_eval f sym_table s op (Some p) target a addr);
      auto using getitem_lookup.
  - intros Hls.
    assert (Hop' : bool_decide (Some op = Some "JUMP"%string) = false).
    { apply bool_decide_eq_false_2. destruct Hls as [-> | ->]; discriminate. }
    rewrite Hop'. split.
    + rewrite !no_slash_append, no_slash_str_of_Z.
      replace (no_slash op) with true
        by (destruct Hls as [-> | ->]; reflexivity).
      destruct target as [t|]; simpl str_of_opt.
      * rewrite (Hslash t eq_refl). reflexivity.
      * reflexivity.
    + rewrite (resolve_line_eval (setitem f "predicate" None) sym_table
                 s op None target a addr).
      * rewrite Hop'. reflexivity.
      * rewrite getitem_setitem_ne by discriminate. auto using getitem_lookup.
      * exact Ha.
      * rewrite getitem_setitem_ne by discriminate. auto using getitem_lookup.
      * apply getitem_setitem_eq.
      * rewrite getitem_setitem_ne by discriminate. auto using getitem_lookup.
  - intros ->. rewrite bool_decide_eq_true_2 by reflexivity.
    rewrite (Htruthy p eq_refl). reflexivity.
Qed.

Lemma resolve_line_drops_predicate_witness :
  exists op text,
    groups Sample.load_fields !! "opcode"%string = Some (Some op) /\
    resolve_line 3 Sample.load_fields (<["x"%string := 1%Z]> ∅) = Ok text /\
    ((op = "LOAD" \/ op = "STORE")%string ->
       no_slash text = true /\
       resolve_line 3 (setitem Sample.load_fields "predicate" None)
         (<["x"%string := 1%Z]> ∅) = Ok text) /\
    (op = "JUMP"%string ->
       text = "ADD/" +:+ "Z" +:+ "  r15,r0,r15[" +:+ str_of_Z (1 - 3) +:+ "]").
Proof.
  apply (resolve_line_drops_predicate Sample.load_line Sample.load_fields
           (<["x"%string := 1%Z]> ∅) "x" "Z" 1 3);
    vm_compute; reflexivity.
Defined.

(** *** Pass 2 *)

Section Pass2Props.

Context {Instr : Type}.
Variable instruction_from_dict : Fields -> Result Instr.
Variable Instruction_str : Instr -> string.
Variable symb_table : gmap string Z.

Lemma transform_line_from_app (pre post : list string) :
  forall lnum st,
    transform_line_from instruction_from_dict Instruction_str symb_table
      lnum (pre ++ post) st
    = transform_line_from instruction_from_dict Instruction_str symb_table
        (lnum + length pre) post
        (transform_line_from instruction_from_dict Instruction_str symb_table
           lnum pre st).
Proof.
  induction pre as [|line pre IH]; intros lnum st; simpl.
  - rewrite Nat.add_0_r. reflexivity.
  - rewrite IH. f_equal. lia.
Qed.

(** A line whose only possible failure is the syntax error moves the
    pass-2 address exactly as pass 1 moves its own. *)
Lemma transform_line_step_address (lnum : nat) (line : string) (st : Pass2) :
  (forall e,
     snd (transform_try instruction_from_dict Instruction_str symb_table
            line st) = Raise e ->
     exists e', parse_line line = Raise e') ->
  address2 (transform_line_step instruction_from_dict Instruction_str
              symb_table lnum line st)
    = (address2 st + (if occupies_word line then 1 else 0))%Z.
Proof.
  unfold transform_line_step, transform_try, occupies_word.
  destruct (parse_line line) as [f|e] eqn:E; simpl.
  2: { intros _. lia. }
  intros Hlate.
  assert (Hno : forall (out : list Printed) (r : Result Pass2) (x : Z),
            (forall e, snd (out, r) = Raise e ->
                       exists e', Ok f = Raise e' :> Result Fields) ->
            (forall st', r = Ok st' -> address2 st' = x) ->
            address2 (match (out, r) with
                      | (out, Ok st') =>
                          MkPass2 (instructions st') (address2 st')
                                  (printed2 st ++ out)
                      | (out, Raise e) =>
                          MkPass2 (instructions st) (address2 st)
                                  (printed2 st ++ out ++ [PrintStr (report lnum line e)])
                      end) = x).
  { intros out [st'|e] x Hr Hx; simpl.
    - apply Hx. reflexivity.
    - destruct (Hr e eq_refl) as [e' He']. discriminate. }
  destruct (kind f); simpl in *.
  - apply Hno; [exact Hlate|].
    intros st'. destruct (getitem f "label") as [lab|]; simpl; [|discriminate].
    destruct (getitem f "comment") as [com|]; simpl; [|discriminate].
    intros [= <-]. simpl. lia.
  - apply Hno; [exact Hlate|].
    intros st'. destruct (fill_defaults f) as [filled|]; simpl; [|discriminate].
    destruct (instruction_from_dict filled) as [i|]; simpl; [|discriminate].
    intros [= <-]. reflexivity.
  - destruct (getitem f "value" ≫= value_parse) as [word|e] eqn:Ev.
    + destruct (getitem f "label") as [lab|e] eqn:El.
      * destruct (format_int word) as [text|e] eqn:Ef.
        -- reflexivity.
        -- destruct (Hlate e eq_refl) as [e' He']. discriminate.
      * destruct (Hlate e eq_refl) as [e' He']. discriminate.
    + destruct (Hlate e eq_refl) as [e' He']. discriminate.
  - apply Hno; [exact Hlate|].
    intros st'.
    destruct (resolve_line (address2 st) f symb_table) as [i|]; simpl;
      [|discriminate].
    intros [= <-]. reflexivity.
Qed.

(** Without failures after parsing, pass 2 ends at the address pass 1
    ends at: the number of lines that occupy a word. *)
Lemma transform_line_from_address (lines : list string) :
  Forall (fun line => forall st e,
            snd (transform_try instruction_from_dict Instruction_str
                   symb_table line st) = Raise e ->
            exists e', parse_line line = Raise e') lines ->
  forall lnum st,
    address2 (transform_line_from instruction_from_dict Instruction_str
                symb_table lnum lines st)
      = (address2 st + words_of lines)%Z.
Proof.
  induction 1 as [|line lines Hline _ IH]; intros lnum st.
  - unfold words_of. simpl. lia.
  - simpl. rewrite IH, words_of_cons, transform_line_step_address; [lia|].
    intros e. apply Hline.
Qed.

Lemma lock_step_without_late_errors (lines : list string) :
  Forall (fun line => forall st e,
            snd (transform_try instruction_from_dict Instruction_str
                   symb_table line st) = Raise e ->
            exists e', parse_line line = Raise e') lines ->
  address2 (transform_line_run instruction_from_dict Instruction_str
              symb_table lines)
    = address1 (build_table_run lines).
Proof.
  intros H. unfold transform_line_run, build_table_run.
  rewrite (transform_line_from_address lines H), build_table_from_address.
  reflexivity.
Qed.

(** C2, at the failing input: the symbol of [JUMP nowhere] is in no
    table, so pass 2 skips the line without counting it, while pass 1 has
    counted it.  After this one line pass 1 stands at address 1 and pass 2
    at address 0, and the LOAD two lines later is resolved from the wrong
    address: its offset is 0 where the table and either count of the
    lines before it ask for -1. *)
Theorem pass2_address_falls_behind :
  address1 (build_table_run ["JUMP nowhere"]%string) = 1%Z /\
  address2 (transform_line_run instruction_from_dict Instruction_str
              (build_table ["JUMP nowhere"]%string)
              ["JUMP nowhere"]%string) = 0%Z /\
  build_table ["JUMP nowhere"; "x: DATA 5"; "LOAD r1,x"]%string
    = <["x"%string := 1%Z]> ∅ /\
  transform_line instruction_from_dict Instruction_str
    (build_table ["JUMP nowhere"; "x: DATA 5"; "LOAD r1,x"]%string)
    ["JUMP nowhere"; "x: DATA 5"; "LOAD r1,x"]%string
    = ["x:  DATA 5"; "LOAD   r1,r0,r15[0]"]%string.
Proof. repeat split; vm_compute; reflexivity. Qed.

(** C5, at the failing input: [LOAD x] names no target register and is
    accepted as a symbolic line all the same, its [target] being [None].
    [resolve_line] formats that [None] into the place of the register, and
    pass 2 emits [LOAD   None,r0,r15[1]], which is no instruction: the
    assembler's own [parse_line] answers it with a syntax error. *)
Theorem load_without_target_emits_None :
  parse_line Sample.bare_load_line = Ok Sample.bare_load_fields /\
  resolve_line 0 Sample.bare_load_fields (<["x"%string := 1%Z]> ∅)
    = Ok "LOAD   None,r0,r15[1]"%string /\
  main instruction_from_dict Instruction_str
    [Sample.bare_load_line; "x: DATA 7"]%string
    = ["LOAD   None,r0,r15[1]"; "x:  DATA 7"]%string /\
  parse_line "LOAD   None,r0,r15[1]"
    = Raise (SyntaxError "Assembler syntax error in LOAD   None,r0,r15[1]").
Proof. repeat split; vm_compute; reflexivity. Qed.

(** C10, at the failing input: [x: DATA] has no literal and parses as a
    DATA line whose [value] is [None].  Pass 1 enters the label and counts
    the line.  Pass 2 calls [value_parse] on [None], the AttributeError is
    caught by the last handler, nothing is emitted and the address stays
    at 0.  A DATA line with a literal and no label is emitted with [None]
    in front, as the claim says. *)
Theorem valueless_data_line_dropped :
  parse_line Sample.valueless_data_line = Ok Sample.valueless_data_fields /\
  build_table_run [Sample.valueless_data_line]
    = MkPass1 (<["x"%string := 0%Z]> ∅) 1 [] /\
  transform_line_run instruction_from_dict Instruction_str symb_table
    [Sample.valueless_data_line]
    = MkPass2 [] 0
        [PrintFields Sample.valueless_data_fields;
         PrintStr "Exception encountered in line 0: 'NoneType' object has no attribute 'startswith'"] /\
  parse_line Sample.data_line = Ok Sample.data_fields /\
  transform_line instruction_from_dict Instruction_str symb_table
    [Sample.data_line] = ["None:  DATA 5"%string].
Proof. repeat split; vm_compute; reflexivity. Qed.

End Pass2Props.



(** The loop of the spec's scenario: the JUMP on line 1 goes back by one. *)
Example loop_example :
  Sample.transform_line (build_table ["loop: ADD r1,r1,r1"; "JUMP loop"]%string)
    ["loop: ADD r1,r1,r1"; "JUMP loop"]%string
  = ["ADD/ALWAYS   r1,r1,r1[0]"; "ADD r15,r0,r15[-1]"]%string.
Proof. vm_compute. reflexivity. Qed.

End AsmProps.

(** ** More on bit fields *)

Module BitFieldMore.

Import BitFieldPy BitFieldProps.

(** Bit [i] of [insert v w]: a bit of [v] inside the field, a bit of [w]
    outside. *)
Lemma insert_bit (f t v w i : Z) (bf : BitField) :
  0 <= f -> f <= t -> init f t = Ok bf -> 0 <= i ->
  Z.testbit (insert bf v w) i
    = if (f <=? i) && (i <=? t) then Z.testbit v (i - f) else Z.testbit w i.
Proof.
  intros Hf Hft Hinit Hi. rewrite init_ok in Hinit by lia.
  injection Hinit as <-.
  unfold insert; cbn [shifted_mask from_bit mask_inverse].
  rewrite Z.lor_spec, !Z.land_spec, Z.lnot_spec by assumption.
  rewrite shifted_ones_bit by lia.
  rewrite Z.shiftl_spec by assumption.
  replace (i <? f + (t - f + 1)) with (i <=? t)
    by (destruct (Z.leb_spec i t), (Z.ltb_spec i (f + (t - f + 1))); lia).
  destruct ((f <=? i) && (i <=? t)); simpl.
  - rewrite andb_false_r, orb_false_r. reflexivity.
  - rewrite andb_true_r. reflexivity.
Qed.

(** Bit [i] of [extract w]: bit [i + from_bit] of [w] below the width. *)
Lemma extract_bit (f t w i : Z) (bf : BitField) :
  0 <= f -> f <= t -> init f t = Ok bf -> 0 <= i ->
  Z.testbit (extract bf w) i = (i <? t - f + 1) && Z.testbit w (i + f).
Proof.
  intros Hf Hft Hinit Hi. rewrite init_ok in Hinit by lia.
  injection Hinit as <-.
  unfold extract; cbn [shifted_mask from_bit].
  rewrite Z.shiftr_spec, Z.land_spec, shifted_ones_bit by lia.
  destruct (Z.leb_spec f (i + f)); [|lia]. simpl.
  destruct (Z.ltb_spec (i + f) (f + (t - f + 1))), (Z.ltb_spec i (t - f + 1));
    try lia; reflexivity.
Qed.

Lemma bits_inj_all (a b : Z) :
  (forall i, 0 <= i -> Z.testbit a i = Z.testbit b i) -> a = b.
Proof. apply Z.bits_inj'. Qed.

(** [sign_extend] on a field that fits: the value on the signed side. *)
Lemma sign_extend_value (u n : Z) :
  2 <= n -> 0 <= u < 2 ^ n ->
  sign_extend u n = Ok (if u <? 2 ^ (n - 1) then u else u - 2 ^ n).
Proof.
  intros Hn Hu. unfold sign_extend.
  destruct (Z.gtb_spec n 1) as [_|?]; [|lia]. cbn [negb].
  assert (Hp : 0 < 2 ^ (n - 1)) by (apply Z.pow_pos_nonneg; lia).
  assert (H2 : 2 ^ n = 2 * 2 ^ (n - 1)).
  { rewrite <- Z.pow_succ_r by lia. f_equal. lia. }
  assert (H3 : Z.shiftl 1 (n + 1) = 2 * 2 ^ n).
  { rewrite Z.shiftl_1_l. replace (n + 1) with (Z.succ n) by lia.
    apply Z.pow_succ_r. lia. }
  destruct (Z.geb_spec u 0) as [_|?]; [|lia].
  destruct (Z.ltb_spec u (Z.shiftl 1 (n + 1))) as [_|?]; [|lia].
  cbn [andb negb].
  rewrite Z.shiftl_1_l, land_pow2_testbit by lia.
  destruct (top_bit_split u (n - 1)) as [[Hb Hlt]|[Hb Hge]];
    [lia | replace (n - 1 + 1) with n by lia; lia | |]; rewrite Hb.
  - rewrite Z.eqb_refl. cbn [negb].
    destruct (Z.ltb_spec u (2 ^ (n - 1))); [reflexivity | lia].
  - destruct (Z.eqb_spec (2 ^ (n - 1)) 0) as [?|_]; [lia|]. cbn [negb].
    destruct (Z.ltb_spec u (2 ^ (n - 1))); [lia|]. f_equal.
    replace (2 ^ (n - 1) - 1) with (Z.ones (n - 1))
      by (rewrite Z.ones_equiv; lia).
    rewrite Z.land_ones by lia.
    assert (Hmod : u mod 2 ^ (n - 1) = u - 2 ^ (n - 1)).
    { symmetry. apply Z.mod_unique_pos with (q := 1); lia. }
    lia.
Qed.

Lemma extract_insert_mod (f t v w : Z) (bf : BitField) :
  0 <= f -> f <= t -> init f t = Ok bf ->
  extract bf (insert bf v w) = v mod 2 ^ (t - f + 1).
Proof.
  intros Hf Hft Hinit. apply bits_inj_all. intros i Hi.
  rewrite (extract_bit f t _ i _ Hf Hft Hinit Hi).
  rewrite (insert_bit f t v w (i + f) _ Hf Hft Hinit) by lia.
  rewrite Z.testbit_mod_pow2 by lia.
  destruct (Z.ltb_spec i (t - f + 1)); [|reflexivity]. simpl.
  destruct (Z.leb_spec f (i + f)), (Z.leb_spec (i + f) t); try lia.
  simpl. f_equal. lia.
Qed.

(** X1: what [insert] stores is the value cut to the width of the field:
    extracting after inserting any integer [v] into any integer [w] gives
    [v mod 2^width]. *)
Theorem extract_insert_truncates (f t v w : Z) :
  0 <= f -> f <= t ->
  exists bf,
    init f t = Ok bf /\
    extract bf (insert bf v w) = v mod 2 ^ (t - f + 1).
Proof.
  intros Hf Hft. eexists. split; [apply init_ok; lia|].
  apply extract_insert_mod; [lia | lia | apply init_ok; lia].
Qed.

Lemma extract_insert_truncates_witness :
  exists bf,
    init 0 9 = Ok bf /\
    extract bf (insert bf (-1) 0) = -1 mod 2 ^ (9 - 0 + 1).
Proof. apply (extract_insert_truncates 0 9 (-1) 0); lia. Defined.

(** X2: [extract] reads the field as an unsigned number: it is
    [floor (w / 2^from_bit) mod 2^width], between 0 and [2^width - 1], for
    any integer [w]. *)
Theorem extract_unsigned_value (f t w : Z) :
  0 <= f -> f <= t ->
  exists bf,
    init f t = Ok bf /\
    extract bf w = (w / 2 ^ f) mod 2 ^ (t - f + 1) /\
    0 <= extract bf w < 2 ^ (t - f + 1).
Proof.
  intros Hf Hft. eexists. split; [apply init_ok; lia|].
  assert (Hinit := init_ok f t ltac:(lia)).
  assert (Heq : extract
            {| from_bit := f; to_bit := t; width := t - f + 1;
               mask := Z.ones (t - f + 1);
               shifted_mask := Z.shiftl (Z.ones (t - f + 1)) f;
               mask_inverse := Z.lnot (Z.shiftl (Z.ones (t - f + 1)) f) |} w
          = (w / 2 ^ f) mod 2 ^ (t - f + 1)).
  { apply bits_inj_all. intros i Hi.
    rewrite (extract_bit f t _ i _ Hf Hft Hinit Hi).
    rewrite Z.testbit_mod_pow2, <- Z.shiftr_div_pow2, Z.shiftr_spec by lia.
    reflexivity. }
  split; [exact Heq|]. rewrite Heq. apply Z.mod_pos_bound.
  apply Z.pow_pos_nonneg; lia.
Qed.

Lemma extract_unsigned_value_witness :
  exists bf,
    init 4 7 = Ok bf /\
    extract bf (-1) = (-1 / 2 ^ 4) mod 2 ^ (7 - 4 + 1) /\
    0 <= extract bf (-1) < 2 ^ (7 - 4 + 1).
Proof. apply (extract_unsigned_value 4 7 (-1)); lia. Defined.

(** X3: a second [insert] into the same field replaces the first, and
    inserting what [extract] has read gives the word back. *)
Theorem insert_overwrites (f t v1 v2 w : Z) :
  0 <= f -> f <= t ->
  exists bf,
    init f t = Ok bf /\
    insert bf v2 (insert bf v1 w) = insert bf v2 w /\
    insert bf (extract bf w) w = w.
Proof.
  intros Hf Hft. eexists. split; [apply init_ok; lia|].
  assert (Hinit := init_ok f t ltac:(lia)).
  split; apply bits_inj_all; intros i Hi.
  - rewrite !(insert_bit f t _ _ i _ Hf Hft Hinit Hi).
    destruct ((f <=? i) && (i <=? t)); reflexivity.
  - rewrite (insert_bit f t _ _ i _ Hf Hft Hinit Hi).
    destruct (Z.leb_spec f i), (Z.leb_spec i t); simpl; try reflexivity.
    rewrite (extract_bit f t _ (i - f) _ Hf Hft Hinit) by lia.
    destruct (Z.ltb_spec (i - f) (t - f + 1)); [|lia]. simpl.
    f_equal. lia.
Qed.

Lemma insert_overwrites_witness :
  exists bf,
    init 10 13 = Ok bf /\
    insert bf 3 (insert bf 9 (-7)) = insert bf 3 (-7) /\
    insert bf (extract bf (-7)) (-7) = -7.
Proof. apply (insert_overwrites 10 13 9 3 (-7)); lia. Defined.

(** X4: fields whose bit ranges do not meet do not disturb each other:
    inserting into one leaves what the other extracts, and the two inserts
    can be done in either order. *)
Theorem disjoint_fields_independent (f1 t1 f2 t2 v1 v2 w : Z) :
  0 <= f1 -> f1 <= t1 -> 0 <= f2 -> f2 <= t2 ->
  t1 < f2 \/ t2 < f1 ->
  exists bf1 bf2,
    init f1 t1 = Ok bf1 /\ init f2 t2 = Ok bf2 /\
    extract bf2 (insert bf1 v1 w) = extract bf2 w /\
    insert bf1 v1 (insert bf2 v2 w) = insert bf2 v2 (insert bf1 v1 w).
Proof.
  intros Hf1 Hft1 Hf2 Hft2 Hdis. do 2 eexists.
  split; [apply init_ok; lia|]. split; [apply init_ok; lia|].
  assert (Hi1 := init_ok f1 t1 ltac:(lia)).
  assert (Hi2 := init_ok f2 t2 ltac:(lia)).
  split; apply bits_inj_all; intros i Hi.
  - rewrite !(extract_bit f2 t2 _ i _ Hf2 Hft2 Hi2 Hi).
    destruct (Z.ltb_spec i (t2 - f2 + 1)); [|reflexivity]. simpl.
    rewrite (insert_bit f1 t1 _ _ (i + f2) _ Hf1 Hft1 Hi1) by lia.
    destruct (Z.leb_spec f1 (i + f2)), (Z.leb_spec (i + f2) t1);
      simpl; try reflexivity; lia.
  - rewrite (insert_bit f1 t1 _ _ i _ Hf1 Hft1 Hi1 Hi).
    rewrite !(insert_bit f2 t2 _ _ i _ Hf2 Hft2 Hi2 Hi).
    rewrite (insert_bit f1 t1 _ _ i _ Hf1 Hft1 Hi1 Hi).
    destruct (Z.leb_spec f1 i), (Z.leb_spec i t1), (Z.leb_spec f2 i),
      (Z.leb_spec i t2); simpl; try reflexivity; lia.
Qed.

Lemma disjoint_fields_independent_witness :
  exists bf1 bf2,
    init 0 9 = Ok bf1 /\ init 10 13 = Ok bf2 /\
    extract bf2 (insert bf1 (-3) 12345678) = extract bf2 12345678 /\
    insert bf1 (-3) (insert bf2 15 12345678)
      = insert bf2 15 (insert bf1 (-3) 12345678).
Proof.
  apply (disjoint_fields_independent 0 9 10 13 (-3) 15 12345678); lia.
Defined.

(** X5: the signed round trip: in a field of at least two bits, a value
    [v] with [-2^(width-1) <= v < 2^(width-1)] that has been inserted is
    what [extract_signed] returns. *)
Theorem extract_signed_insert (f t v w : Z) :
  0 <= f -> f < t ->
  - 2 ^ (t - f) <= v < 2 ^ (t - f) ->
  exists bf,
    init f t = Ok bf /\
    extract_signed bf (insert bf v w) = Ok v.
Proof.
  intros Hf Hft Hv.
  eexists. split; [apply init_ok; lia|].
  assert (Hinit := init_ok f t ltac:(lia)).
  unfold extract_signed.
  rewrite (extract_insert_mod f t v w _ Hf ltac:(lia) Hinit).
  set (bf := MkBitField _ _ _ _ _ _) in *.
  assert (Hw : width bf = t - f + 1) by reflexivity.
  rewrite Hw.
  assert (Hp : 0 < 2 ^ (t - f)) by (apply Z.pow_pos_nonneg; lia).
  assert (H2 : 2 ^ (t - f + 1) = 2 * 2 ^ (t - f)).
  { replace (t - f + 1) with (Z.succ (t - f)) by lia.
    apply Z.pow_succ_r. lia. }
  rewrite sign_extend_value; [|lia|apply Z.mod_pos_bound; lia].
  replace (t - f + 1 - 1) with (t - f) by lia. f_equal.
  destruct (Z.neg_nonneg_cases v) as [Hneg|Hnn].
  - assert (Hm : v mod 2 ^ (t - f + 1) = v + 2 ^ (t - f + 1)).
    { symmetry. apply Z.mod_unique_pos with (q := -1); lia. }
    rewrite Hm. destruct (Z.ltb_spec (v + 2 ^ (t - f + 1)) (2 ^ (t - f))); lia.
  - rewrite Z.mod_small by lia.
    destruct (Z.ltb_spec v (2 ^ (t - f))); lia.
Qed.

Lemma extract_signed_insert_witness :
  exists bf,
    init 0 9 = Ok bf /\
    extract_signed bf (insert bf (-7) 268188672) = Ok (-7).
Proof.
  apply (extract_signed_insert 0 9 (-7) 268188672); lia.
Defined.

(** X6: in a field of at least two bits [extract_signed] never raises; its
    result lies in [-2^(width-1) .. 2^(width-1) - 1] and is the unsigned
    field content modulo [2^width]. *)
Theorem extract_signed_range (f t w : Z) :
  0 <= f -> f < t ->
  exists bf r,
    init f t = Ok bf /\
    extract_signed bf w = Ok r /\
    - 2 ^ (t - f) <= r < 2 ^ (t - f) /\
    r mod 2 ^ (t - f + 1) = extract bf w.
Proof.
  intros Hf Hft.
  assert (Hinit := init_ok f t ltac:(lia)).
  set (bf := MkBitField _ _ _ _ _ _) in *.
  assert (Hbits : forall i, 0 <= i ->
            Z.testbit (extract bf w) i
              = (i <? t - f + 1) && Z.testbit w (i + f)).
  { intros i Hi. apply (extract_bit f t w i bf); [lia | lia | exact Hinit | lia]. }
  assert (Hp : 0 < 2 ^ (t - f)) by (apply Z.pow_pos_nonneg; lia).
  assert (H2 : 2 ^ (t - f + 1) = 2 * 2 ^ (t - f)).
  { replace (t - f + 1) with (Z.succ (t - f)) by lia.
    apply Z.pow_succ_r. lia. }
  assert (Hu : 0 <= extract bf w < 2 ^ (t - f + 1)).
  { assert (Hnn : 0 <= extract bf w).
    { apply Z.bits_iff_nonneg_ex. exists (t - f + 1). intros m Hm.
      rewrite Hbits by lia. destruct (Z.ltb_spec m (t - f + 1)); [lia|].
      reflexivity. }
    split; [exact Hnn|].
    destruct (Z.eq_dec (extract bf w) 0) as [->|Hne]; [lia|].
    apply Z.log2_lt_pow2; [lia|]. apply Z.nle_gt. intros Hle.
    pose proof (Z.bit_log2 (extract bf w) ltac:(lia)) as Hb.
    rewrite Hbits in Hb by apply Z.log2_nonneg.
    destruct (Z.ltb_spec (Z.log2 (extract bf w)) (t - f + 1)); [lia|].
    discriminate. }
  exists bf. eexists. split; [exact Hinit|]. split.
  - unfold extract_signed. change (width bf) with (t - f + 1).
    apply sign_extend_value; lia.
  - replace (t - f + 1 - 1) with (t - f) by lia.
    destruct (Z.ltb_spec (extract bf w) (2 ^ (t - f))).
    + split; [lia|]. apply Z.mod_small. lia.
    + split; [lia|]. symmetry.
      apply Z.mod_unique_pos with (q := -1); lia.
Qed.

Lemma extract_signed_range_witness :
  exists bf r,
    init 0 9 = Ok bf /\
    extract_signed bf 1023 = Ok r /\
    - 2 ^ (9 - 0) <= r < 2 ^ (9 - 0) /\
    r mod 2 ^ (9 - 0 + 1) = extract bf 1023.
Proof. apply (extract_signed_range 0 9 1023); lia. Defined.

Lemma init_empty (f t : Z) :
  0 <= f -> t < f ->
  init f t = Ok (MkBitField f t (t - f + 1) 0 0 (-1)).
Proof.
  intros Hf Htf. unfold init.
  destruct (Z.ltb_spec f 0) as [?|_]; [lia|].
  assert (Hiter : Z.iter (t + 1 - f) mask_round 0 = 0).
  { destruct (t + 1 - f) eqn:E; try reflexivity. lia. }
  rewrite Hiter, Z.shiftl_0_l. reflexivity.
Qed.

(** X7: a field of one bit, or an empty one, cannot be read signed:
    [extract_signed] fails the assertion [width > 1] on every word. *)
Theorem extract_signed_narrow (f t w : Z) :
  0 <= f -> t <= f ->
  exists bf,
    init f t = Ok bf /\
    extract_signed bf w = Raise AssertionError.
Proof.
  intros Hf Htf.
  assert (Hse : forall u n, n <= 1 -> sign_extend u n = Raise AssertionError).
  { intros u n Hn. unfold sign_extend.
    destruct (Z.gtb_spec n 1); [lia | reflexivity]. }
  destruct (Z.eq_dec t f) as [->|Hne].
  - eexists. split; [apply init_ok; lia|].
    unfold extract_signed. cbn [width]. apply Hse. lia.
  - eexists. split; [apply init_empty; lia|].
    unfold extract_signed. cbn [width]. apply Hse. lia.
Qed.

Lemma extract_signed_narrow_witness :
  exists bf,
    init 5 5 = Ok bf /\
    extract_signed bf 4294967295 = Raise AssertionError.
Proof. apply (extract_signed_narrow 5 5 4294967295); lia. Defined.

(** X9: a field one bit too wide is let through: for [2^width <= u <
    2^(width+1)] with bit [width - 1] clear, [sign_extend] returns [u]
    itself, which no signed number of [width] bits can be. *)
Theorem sign_extend_wide_field (u n : Z) :
  2 <= n -> 2 ^ n <= u < 2 ^ (n + 1) ->
  Z.testbit u (n - 1) = false ->
  sign_extend u n = Ok u /\ 2 ^ (n - 1) <= u.
Proof.
  intros Hn Hu Hb. unfold sign_extend.
  destruct (Z.gtb_spec n 1) as [_|?]; [|lia]. cbn [negb].
  assert (Hp : 0 < 2 ^ n) by (apply Z.pow_pos_nonneg; lia).
  rewrite !Z.shiftl_1_l.
  destruct (Z.geb_spec u 0) as [_|?]; [|lia].
  destruct (Z.ltb_spec u (2 ^ (n + 1))) as [_|?]; [|lia].
  cbn [andb negb]. rewrite land_pow2_testbit, Hb by lia.
  rewrite Z.eqb_refl. cbn [negb]. split; [reflexivity|].
  assert (2 ^ (n - 1) <= 2 ^ n) by (apply Z.pow_le_mono_r; lia). lia.
Qed.

Lemma sign_extend_wide_field_witness :
  sign_extend 16 4 = Ok 16 /\ 2 ^ (4 - 1) <= 16.
Proof.
  apply (sign_extend_wide_field 16 4); [lia | lia | reflexivity].
Defined.

(** X10: with [to_bit < from_bit] the loop of the constructor does not
    run, the mask is 0 and the field is empty: [insert] returns the word
    unchanged and [extract] returns 0. *)
Theorem empty_field (f t v w : Z) :
  0 <= f -> t < f ->
  exists bf,
    init f t = Ok bf /\ mask bf = 0 /\
    insert bf v w = w /\ extract bf w = 0.
Proof.
  intros Hf Htf. eexists. split; [apply init_empty; lia|].
  split; [reflexivity|]. unfold insert, extract.
  cbn [shifted_mask mask_inverse from_bit].
  rewrite !Z.land_0_l, Z.lor_0_l, Z.land_m1_r, Z.shiftr_0_l. auto.
Qed.

Lemma empty_field_witness :
  exists bf,
    init 3 1 = Ok bf /\ mask bf = 0 /\
    insert bf 7 12345 = 12345 /\ extract bf 12345 = 0.
Proof. apply (empty_field 3 1 7 12345); lia. Defined.

End BitFieldMore.

(** ** More on the CPU *)

Module CPUMore.

Import CPUPy CPUProps.

Lemma regs_get_zero (regs : list Register) :
  regs_wf regs = true -> regs_get regs 0 = Ok 0.
Proof. destruct regs as [|[v|] rest]; try discriminate. reflexivity. Qed.

Lemma regs_wf_insert (regs : list Register) (n : nat) (v : Z) :
  regs_wf regs = true -> (1 <= n < 16)%nat ->
  regs_wf (<[n := Reg v]> regs) = true /\
  <[n := Reg v]> regs = alter (fun r => Register_put r v) n regs.
Proof.
  intros Hwf Hn.
  destruct (regs_wf_ordinary regs n Hwf Hn) as [x Hx].
  assert (Heq : <[n := Reg v]> regs = alter (fun r => Register_put r v) n regs).
  { apply list_eq. intros j. destruct (decide (j = n)) as [->|Hne].
    - rewrite list_lookup_alter_eq, Hx. simpl.
      apply list_lookup_insert_eq. rewrite (regs_wf_length _ Hwf). lia.
    - rewrite list_lookup_alter_ne, list_lookup_insert_ne by auto. reflexivity. }
  split; [|exact Heq]. rewrite Heq. apply regs_wf_alter, Hwf.
Qed.

(** Writing an ordinary register: the entry is replaced. *)
Lemma regs_put_insert (regs : list Register) (t v : Z) :
  regs_wf regs = true -> 1 <= t <= 15 ->
  regs_put regs t v = Ok (<[Z.to_nat t := Reg v]> regs).
Proof.
  intros Hwf Ht.
  assert (Hlen := regs_wf_length _ Hwf).
  rewrite <- (Z2Nat.id t) at 1 by lia.
  rewrite regs_put_ordinary by lia.
  destruct (regs_wf_insert regs (Z.to_nat t) v Hwf) as [_ ->]; [lia|].
  reflexivity.
Qed.

(** Writing the zero register: nothing changes. *)
Lemma regs_put_zero (regs : list Register) (v : Z) :
  regs_wf regs = true -> regs_put regs 0 v = Ok regs.
Proof. destruct regs as [|[x|] rest]; try discriminate. reflexivity. Qed.

Lemma regs_get_insert_eq (regs : list Register) (t v : Z) :
  regs_wf regs = true -> 1 <= t <= 15 ->
  regs_get (<[Z.to_nat t := Reg v]> regs) t = Ok v.
Proof.
  intros Hwf Ht. assert (Hlen := regs_wf_length _ Hwf).
  rewrite <- (Z2Nat.id t) at 2 by lia.
  apply regs_get_ordinary, list_lookup_insert_eq. lia.
Qed.

Section MachineMore.

Context {Memory : Type}.
Variable Memory_get : Memory -> Z -> Result Z.
Variable Memory_put : Memory -> Z -> Z -> Result Memory.
Variable decode : Z -> Result Instruction.
Variable ALU_exec : OpCode -> Z -> Z -> Result (Z * Z).

(** A step whose predicate passes, up to the write-back. *)
Lemma step_executes (c : CPU Memory) (pc word r1 r2 result cc : Z)
    (i : Instruction) :
  regs_wf (registers c) = true ->
  pc_get c = Ok pc ->
  Memory_get (memory c) pc = Ok word ->
  decode word = Ok i ->
  Z.land (condition c) (cond i) <> 0 ->
  regs_get (registers c) (reg_src1 i) = Ok r1 ->
  regs_get (registers c) (reg_src2 i) = Ok r2 ->
  ALU_exec (op i) r1 (r2 + offset i) = Ok (result, cc) ->
  step Memory_get Memory_put decode ALU_exec c =
    (c2 ← writeback Memory_get Memory_put (advanced c pc cc) i result;
     Ok (MkCPUStep pc word i, c2)).
Proof.
  intros Hwf Hpc Hget Hdec Hmask H1 H2 Halu.
  unfold step. rewrite Hpc. simpl. rewrite Hget. simpl. rewrite Hdec. simpl.
  destruct (Z.eqb_spec (Z.land (condition c) (cond i)) 0) as [?|_];
    [contradiction|]. simpl.
  unfold alu_operands. rewrite H1, H2. simpl.
  rewrite (pc_advance_wf c pc Hwf Hpc). simpl. rewrite Halu. reflexivity.
Qed.

Lemma advanced_wf (c : CPU Memory) (pc cc : Z) :
  regs_wf (registers c) = true ->
  regs_wf (registers (advanced c pc cc)) = true.
Proof. intros Hwf. simpl. apply regs_wf_insert; [exact Hwf | lia]. Qed.

Lemma regs_get_advanced_ne (c : CPU Memory) (pc cc t : Z) :
  regs_wf (registers c) = true -> 0 <= t <= 14 ->
  regs_get (registers (advanced c pc cc)) t = regs_get (registers c) t.
Proof.
  intros Hwf Ht. assert (Hlen := regs_wf_length _ Hwf). simpl.
  unfold regs_get, py_index.
  rewrite !py_pos_in_range by (rewrite ?length_insert; lia). simpl.
  rewrite list_lookup_insert_ne by lia. reflexivity.
Qed.

Lemma pc_get_advanced (c : CPU Memory) (pc cc : Z) :
  regs_wf (registers c) = true ->
  pc_get (advanced c pc cc) = Ok (pc + 1).
Proof.
  intros Hwf. assert (Hlen := regs_wf_length _ Hwf).
  unfold pc_get. simpl. apply (regs_get_ordinary _ 15).
  apply list_lookup_insert_eq. lia.
Qed.

(** X11: an instruction that is not LOAD, STORE or HALT and passes the
    predicate puts the ALU's result into its target register r1 .. r15 and
    the ALU's flags into the condition; the program counter is one past the
    fetch address unless the target is r15, every other register, the memory
    and the halted flag are as before. *)
Theorem step_alu_writes_target (c : CPU Memory)
    (pc word r1 r2 result cc t : Z) (i : Instruction) :
  regs_wf (registers c) = true ->
  pc_get c = Ok pc ->
  Memory_get (memory c) pc = Ok word ->
  decode word = Ok i ->
  Z.land (condition c) (cond i) <> 0 ->
  regs_get (registers c) (reg_src1 i) = Ok r1 ->
  regs_get (registers c) (reg_src2 i) = Ok r2 ->
  ALU_exec (op i) r1 (r2 + offset i) = Ok (result, cc) ->
  op i <> LOAD -> op i <> STORE -> op i <> HALT ->
  reg_target i = t -> 1 <= t <= 15 ->
  exists c',
    step Memory_get Memory_put decode ALU_exec c = Ok (MkCPUStep pc word i, c') /\
    registers c'
      = <[Z.to_nat t := Reg result]> (<[15%nat := Reg (pc + 1)]> (registers c)) /\
    regs_get (registers c') t = Ok result /\
    (t <> 15 -> pc_get c' = Ok (pc + 1)) /\
    memory c' = memory c /\ condition c' = cc /\ halted c' = halted c.
Proof.
  intros Hwf Hpc Hget Hdec Hmask H1 H2 Halu HnL HnS HnH Ht Hrange.
  rewrite (step_executes c pc word r1 r2 result cc i) by assumption.
  assert (Hwf' := advanced_wf c pc cc Hwf).
  assert (Hlen := regs_wf_length _ Hwf).
  assert (Hwb : writeback Memory_get Memory_put (advanced c pc cc) i result
            = Ok (set_registers (advanced c pc cc)
                    (<[Z.to_nat t := Reg result]>
                       (registers (advanced c pc cc))))).
  { unfold writeback. destruct (op i); try contradiction;
      rewrite Ht, (regs_put_insert _ t result Hwf' Hrange); reflexivity. }
  rewrite Hwb. eexists. split; [reflexivity|].
  split; [reflexivity|]. split; [|split; [|auto]].
  - cbn [registers set_registers]. apply regs_get_insert_eq; assumption.
  - intros Hne. unfold pc_get. cbn [registers set_registers advanced set_condition].
    apply (regs_get_ordinary _ 15).
    rewrite list_lookup_insert_ne by lia.
    apply list_lookup_insert_eq. lia.
Qed.

(** X12: the same instruction with target r0: the result is discarded.
    Only the program counter and the condition flags change. *)
Theorem step_write_r0_discarded (c : CPU Memory)
    (pc word r1 r2 result cc : Z) (i : Instruction) :
  regs_wf (registers c) = true ->
  pc_get c = Ok pc ->
  Memory_get (memory c) pc = Ok word ->
  decode word = Ok i ->
  Z.land (condition c) (cond i) <> 0 ->
  regs_get (registers c) (reg_src1 i) = Ok r1 ->
  regs_get (registers c) (reg_src2 i) = Ok r2 ->
  ALU_exec (op i) r1 (r2 + offset i) = Ok (result, cc) ->
  op i <> LOAD -> op i <> STORE -> op i <> HALT ->
  reg_target i = 0 ->
  exists c',
    step Memory_get Memory_put decode ALU_exec c = Ok (MkCPUStep pc word i, c') /\
    registers c' = <[15%nat := Reg (pc + 1)]> (registers c) /\
    regs_get (registers c') 0 = Ok 0 /\
    memory c' = memory c /\ condition c' = cc /\ halted c' = halted c.
Proof.
  intros Hwf Hpc Hget Hdec Hmask H1 H2 Halu HnL HnS HnH Ht.
  rewrite (step_executes c pc word r1 r2 result cc i) by assumption.
  assert (Hwf' := advanced_wf c pc cc Hwf).
  assert (Hwb : writeback Memory_get Memory_put (advanced c pc cc) i result
            = Ok (set_registers (advanced c pc cc)
                    (registers (advanced c pc cc)))).
  { unfold writeback. destruct (op i); try contradiction;
      rewrite Ht, (regs_put_zero _ result Hwf'); reflexivity. }
  rewrite Hwb. eexists. split; [reflexivity|].
  split; [reflexivity|]. split; [|auto].
  cbn [registers set_registers]. apply regs_get_zero, Hwf'.
Qed.

(** X13: STORE reads its target register after the program counter has
    been advanced: the word put into memory at the ALU's result is the
    register as it was before the step, except for r15, which is stored as
    the fetch address plus one.  No register but the program counter
    changes. *)
Theorem step_store (c : CPU Memory)
    (pc word r1 r2 result cc t rt : Z) (m' : Memory) (i : Instruction) :
  regs_wf (registers c) = true ->
  pc_get c = Ok pc ->
  Memory_get (memory c) pc = Ok word ->
  decode word = Ok i ->
  Z.land (condition c) (cond i) <> 0 ->
  regs_get (registers c) (reg_src1 i) = Ok r1 ->
  regs_get (registers c) (reg_src2 i) = Ok r2 ->
  ALU_exec (op i) r1 (r2 + offset i) = Ok (result, cc) ->
  op i = STORE ->
  reg_target i = t -> 0 <= t <= 15 ->
  regs_get (registers c) t = Ok rt ->
  Memory_put (memory c) result (if t =? 15 then pc + 1 else rt) = Ok m' ->
  exists c',
    step Memory_get Memory_put decode ALU_exec c = Ok (MkCPUStep pc word i, c') /\
    memory c' = m' /\
    registers c' = <[15%nat := Reg (pc + 1)]> (registers c) /\
    condition c' = cc /\ halted c' = halted c.
Proof.
  intros Hwf Hpc Hget Hdec Hmask H1 H2 Halu Hop Ht Hrange Hrt Hput.
  rewrite (step_executes c pc word r1 r2 result cc i) by assumption.
  assert (Hv : regs_get (registers (advanced c pc cc)) t
                 = Ok (if t =? 15 then pc + 1 else rt)).
  { destruct (Z.eqb_spec t 15) as [->|Hne].
    - apply (pc_get_advanced c pc cc Hwf).
    - rewrite regs_get_advanced_ne by (auto; lia). exact Hrt. }
  unfold writeback. rewrite Hop, Ht, Hv. cbn [mbind Result_bind].
  change (memory (advanced c pc cc)) with (memory c). rewrite Hput.
  cbn [mbind Result_bind].
  eexists. split; [reflexivity|]. auto.
Qed.

(** X14: LOAD puts the memory word at the ALU's result into its target
    register r1 .. r15; the memory is as before. *)
Theorem step_load (c : CPU Memory)
    (pc word r1 r2 result cc t v : Z) (i : Instruction) :
  regs_wf (registers c) = true ->
  pc_get c = Ok pc ->
  Memory_get (memory c) pc = Ok word ->
  decode word = Ok i ->
  Z.land (condition c) (cond i) <> 0 ->
  regs_get (registers c) (reg_src1 i) = Ok r1 ->
  regs_get (registers c) (reg_src2 i) = Ok r2 ->
  ALU_exec (op i) r1 (r2 + offset i) = Ok (result, cc) ->
  op i = LOAD ->
  reg_target i = t -> 1 <= t <= 15 ->
  Memory_get (memory c) result = Ok v ->
  exists c',
    step Memory_get Memory_put decode ALU_exec c = Ok (MkCPUStep pc word i, c') /\
    registers c'
      = <[Z.to_nat t := Reg v]> (<[15%nat := Reg (pc + 1)]> (registers c)) /\
    regs_get (registers c') t = Ok v /\
    (t <> 15 -> pc_get c' = Ok (pc + 1)) /\
    memory c' = memory c /\ condition c' = cc /\ halted c' = halted c.
Proof.
  intros Hwf Hpc Hget Hdec Hmask H1 H2 Halu Hop Ht Hrange Hv.
  rewrite (step_executes c pc word r1 r2 result cc i) by assumption.
  assert (Hwf' := advanced_wf c pc cc Hwf).
  assert (Hlen := regs_wf_length _ Hwf).
  unfold writeback. rewrite Hop, Ht.
  rewrite py_pos_in_range by (rewrite (regs_wf_length _ Hwf'); lia).
  cbn [mbind Result_bind].
  change (memory (advanced c pc cc)) with (memory c). rewrite Hv.
  cbn [mbind Result_bind].
  rewrite (regs_put_insert _ t v Hwf' Hrange). cbn [mbind Result_bind].
  eexists. split; [reflexivity|]. split; [reflexivity|].
  split; [|split; [|auto]].
  - apply regs_get_insert_eq; assumption.
  - intros Hne. unfold pc_get. simpl. apply (regs_get_ordinary _ 15).
    rewrite list_lookup_insert_ne by lia.
    apply list_lookup_insert_eq. lia.
Qed.

(** X15: HALT still goes through the ALU: a HALT that passes the predicate
    sets the halted flag, takes the ALU's flags and advances the program
    counter; registers r0 .. r14 and the memory are as before. *)
Theorem step_halt (c : CPU Memory)
    (pc word r1 r2 result cc : Z) (i : Instruction) :
  regs_wf (registers c) = true ->
  pc_get c = Ok pc ->
  Memory_get (memory c) pc = Ok word ->
  decode word = Ok i ->
  Z.land (condition c) (cond i) <> 0 ->
  regs_get (registers c) (reg_src1 i) = Ok r1 ->
  regs_get (registers c) (reg_src2 i) = Ok r2 ->
  ALU_exec (op i) r1 (r2 + offset i) = Ok (result, cc) ->
  op i = HALT ->
  exists c',
    step Memory_get Memory_put decode ALU_exec c = Ok (MkCPUStep pc word i, c') /\
    halted c' = true /\
    registers c' = <[15%nat := Reg (pc + 1)]> (registers c) /\
    memory c' = memory c /\ condition c' = cc.
Proof.
  intros Hwf Hpc Hget Hdec Hmask H1 H2 Halu Hop.
  rewrite (step_executes c pc word r1 r2 result cc i) by assumption.
  unfold writeback. rewrite Hop. simpl.
  eexists. split; [reflexivity|]. auto.
Qed.

(** X16: the shape of the register file is kept by every step that does
    not raise: sixteen registers, the first of them the zero register, which
    reads 0 after the step whatever the instruction was. *)
Theorem step_keeps_shape (c c' : CPU Memory) (ev : CPUStep) :
  regs_wf (registers c) = true ->
  step Memory_get Memory_put decode ALU_exec c = Ok (ev, c') ->
  regs_wf (registers c') = true /\
  length (registers c') = 16%nat /\
  regs_get (registers c') 0 = Ok 0.
Proof.
  intros Hwf Hstep.
  assert (Hwf' := step_wf Memory_get Memory_put decode ALU_exec c c' ev Hwf Hstep).
  split; [exact Hwf'|]. split; [apply regs_wf_length, Hwf'|].
  apply regs_get_zero, Hwf'.
Qed.

Lemma run_loop_halted (fuel : nat) :
  forall (c c' : CPU Memory),
    regs_wf (registers c) = true ->
    run_loop Memory_get Memory_put decode ALU_exec fuel c = Some (Ok c') ->
    halted c' = true /\ regs_wf (registers c') = true.
Proof.
  induction fuel as [|fuel IH]; intros c c' Hwf; simpl.
  - destruct (halted c) eqn:Hh; [|discriminate].
    intros [= <-]. auto.
  - destruct (halted c) eqn:Hh.
    + intros [= <-]. auto.
    + destruct (step Memory_get Memory_put decode ALU_exec c)
        as [[ev c1]|e] eqn:Hstep; [|discriminate].
      apply IH. eapply step_wf; eauto.
Qed.

(** X17: [run] comes back without an exception only from a halted CPU, and
    the register file then still has its shape. *)
Theorem run_ends_halted (fuel : nat) (c c' : CPU Memory) (from_addr : Z) :
  regs_wf (registers c) = true ->
  run Memory_get Memory_put decode ALU_exec fuel c from_addr = Some (Ok c') ->
  halted c' = true /\ regs_wf (registers c') = true.
Proof.
  intros Hwf. unfold run.
  destruct (pc_put c from_addr) as [c0|e] eqn:Hput; [|discriminate].
  apply run_loop_halted.
  unfold pc_put in Hput.
  destruct (regs_put (registers c) 15 from_addr) as [regs|] eqn:E;
    [|discriminate].
  injection Hput as <-. simpl. eapply regs_put_wf; eauto.
Qed.

(** X18: [run] never clears the halted flag: on a CPU that has halted
    before, it sets the program counter to the start address and executes
    nothing, whatever the memory holds. *)
Theorem run_when_halted (fuel : nat) (c : CPU Memory) (from_addr : Z) :
  regs_wf (registers c) = true ->
  halted c = true ->
  run Memory_get Memory_put decode ALU_exec fuel c from_addr
    = Some (Ok (set_registers c (<[15%nat := Reg from_addr]> (registers c)))).
Proof.
  intros Hwf Hh. unfold run, pc_put.
  rewrite (regs_put_insert _ 15 from_addr Hwf) by lia. simpl.
  destruct fuel; simpl; rewrite Hh; reflexivity.
Qed.

End MachineMore.

Lemma step_alu_writes_target_witness :
  exists c',
    Sample.step (Sample.cpu_with [Sample.add_word])
      = Ok (MkCPUStep 0 Sample.add_word Sample.add_instr, c') /\
    registers c'
      = <[Z.to_nat 3 := Reg 34]>
          (<[15%nat := Reg (0 + 1)]> (registers (Sample.cpu_with [Sample.add_word]))) /\
    regs_get (registers c') 3 = Ok 34 /\
    (3 <> 15 -> pc_get c' = Ok (0 + 1)) /\
    memory c' = memory (Sample.cpu_with [Sample.add_word]) /\
    condition c' = Sample.CondFlag_P /\
    halted c' = halted (Sample.cpu_with [Sample.add_word]).
Proof.
  apply (step_alu_writes_target Sample.Memory_get Sample.Memory_put
           Sample.decode Sample.ALU_exec (Sample.cpu_with [Sample.add_word])
           0 Sample.add_word 10 20 34 Sample.CondFlag_P 3 Sample.add_instr);
    try (vm_compute; solve [reflexivity | discriminate]); lia.
Defined.

Lemma step_write_r0_discarded_witness :
  exists c',
    Sample.step (Sample.cpu_with [Sample.add_r0_word])
      = Ok (MkCPUStep 0 Sample.add_r0_word Sample.add_r0_instr, c') /\
    registers c'
      = <[15%nat := Reg (0 + 1)]> (registers (Sample.cpu_with [Sample.add_r0_word])) /\
    regs_get (registers c') 0 = Ok 0 /\
    memory c' = memory (Sample.cpu_with [Sample.add_r0_word]) /\
    condition c' = Sample.CondFlag_P /\
    halted c' = halted (Sample.cpu_with [Sample.add_r0_word]).
Proof.
  apply (step_write_r0_discarded Sample.Memory_get Sample.Memory_put
           Sample.decode Sample.ALU_exec (Sample.cpu_with [Sample.add_r0_word])
           0 Sample.add_r0_word 10 20 34 Sample.CondFlag_P Sample.add_r0_instr);
    vm_compute; solve [reflexivity | discriminate].
Defined.

Lemma step_store_witness :
  exists c',
    Sample.step (Sample.cpu_with [Sample.store_pc_word; 0; 0])
      = Ok (MkCPUStep 0 Sample.store_pc_word Sample.store_pc_instr, c') /\
    memory c' = [Sample.store_pc_word; 0; 1] /\
    registers c'
      = <[15%nat := Reg (0 + 1)]>
          (registers (Sample.cpu_with [Sample.store_pc_word; 0; 0])) /\
    condition c' = Sample.CondFlag_P /\
    halted c' = halted (Sample.cpu_with [Sample.store_pc_word; 0; 0]).
Proof.
  apply (step_store Sample.Memory_get Sample.Memory_put
           Sample.decode Sample.ALU_exec
           (Sample.cpu_with [Sample.store_pc_word; 0; 0])
           0 Sample.store_pc_word 0 0 2 Sample.CondFlag_P 15 0
           [Sample.store_pc_word; 0; 1] Sample.store_pc_instr);
    try (vm_compute; solve [reflexivity | discriminate]); lia.
Defined.

Lemma step_load_witness :
  exists c',
    Sample.step (MkCPU [77; Sample.load_back_word] (Sample.regs_with_pc 1)
                   CondFlag_ALWAYS false)
      = Ok (MkCPUStep 1 Sample.load_back_word Sample.load_back_instr, c') /\
    registers c'
      = <[Z.to_nat 1 := Reg 77]>
          (<[15%nat := Reg (1 + 1)]> (Sample.regs_with_pc 1)) /\
    regs_get (registers c') 1 = Ok 77 /\
    (1 <> 15 -> pc_get c' = Ok (1 + 1)) /\
    memory c' = [77; Sample.load_back_word] /\
    condition c' = Sample.CondFlag_Z /\
    halted c' = false.
Proof.
  apply (step_load Sample.Memory_get Sample.Memory_put
           Sample.decode Sample.ALU_exec
           (MkCPU [77; Sample.load_back_word] (Sample.regs_with_pc 1)
              CondFlag_ALWAYS false)
           1 Sample.load_back_word 0 1 0 Sample.CondFlag_Z 1 77
           Sample.load_back_instr);
    try (vm_compute; solve [reflexivity | discriminate]); lia.
Defined.

Lemma step_halt_witness :
  exists c',
    Sample.step (Sample.cpu_with [Sample.halt_word])
      = Ok (MkCPUStep 0 Sample.halt_word Sample.halt_instr, c') /\
    halted c' = true /\
    registers c'
      = <[15%nat := Reg (0 + 1)]> (registers (Sample.cpu_with [Sample.halt_word])) /\
    memory c' = memory (Sample.cpu_with [Sample.halt_word]) /\
    condition c' = Sample.CondFlag_Z.
Proof.
  apply (step_halt Sample.Memory_get Sample.Memory_put
           Sample.decode Sample.ALU_exec (Sample.cpu_with [Sample.halt_word])
           0 Sample.halt_word 0 0 0 Sample.CondFlag_Z Sample.halt_instr);
    vm_compute; solve [reflexivity | discriminate].
Defined.

Lemma step_keeps_shape_witness :
  regs_wf (registers (MkCPU [0; 0; 0; 0; 0; Sample.jump_self_word; 0]
                        (Sample.regs_with_pc 5) Sample.CondFlag_P false)) = true /\
  length (registers (MkCPU [0; 0; 0; 0; 0; Sample.jump_self_word; 0]
                       (Sample.regs_with_pc 5) Sample.CondFlag_P false)) = 16%nat /\
  regs_get (registers (MkCPU [0; 0; 0; 0; 0; Sample.jump_self_word; 0]
                         (Sample.regs_with_pc 5) Sample.CondFlag_P false)) 0 = Ok 0.
Proof.
  apply (step_keeps_shape Sample.Memory_get Sample.Memory_put
           Sample.decode Sample.ALU_exec
           (Sample.cpu_at_5 Sample.jump_self_word CondFlag_ALWAYS)
           (MkCPU [0; 0; 0; 0; 0; Sample.jump_self_word; 0]
              (Sample.regs_with_pc 5) Sample.CondFlag_P false)
           (MkCPUStep 5 Sample.jump_self_word Sample.jump_self));
    vm_compute; reflexivity.
Defined.

Lemma run_ends_halted_witness :
  halted (MkCPU [5; Sample.load_back_word; Sample.halt_word]
            (ZeroRegister :: Reg 5 :: replicate 13 (Reg 0) ++ [Reg 3])
            Sample.CondFlag_Z true) = true /\
  regs_wf (registers
             (MkCPU [5; Sample.load_back_word; Sample.halt_word]
                (ZeroRegister :: Reg 5 :: replicate 13 (Reg 0) ++ [Reg 3])
                Sample.CondFlag_Z true)) = true.
Proof.
  apply (run_ends_halted Sample.Memory_get Sample.Memory_put
           Sample.decode Sample.ALU_exec 10
           (CPU_init [5; Sample.load_back_word; Sample.halt_word])
           (MkCPU [5; Sample.load_back_word; Sample.halt_word]
              (ZeroRegister :: Reg 5 :: replicate 13 (Reg 0) ++ [Reg 3])
              Sample.CondFlag_Z true) 0);
    vm_compute; reflexivity.
Defined.

(** X19: the assembler and the CPU agree on jumps: the ADD into r15 that
    [resolve_line] makes of a JUMP, with offset [target - addr] and placed at
    [addr], sends the program counter to [target] when the ALU adds. *)
Theorem resolved_jump_reaches_target {Memory : Type}
    (Memory_get : Memory -> Z -> Result Z)
    (Memory_put : Memory -> Z -> Z -> Result Memory)
    (decode : Z -> Result Instruction)
    (ALU_exec : OpCode -> Z -> Z -> Result (Z * Z))
    (c : CPU Memory) (addr target word cc : Z) (i : Instruction) :
  regs_wf (registers c) = true ->
  pc_get c = Ok addr ->
  Memory_get (memory c) addr = Ok word ->
  decode word = Ok i ->
  Z.land (condition c) (cond i) <> 0 ->
  op i = ADD -> reg_target i = 15 -> reg_src1 i = 0 -> reg_src2 i = 15 ->
  offset i = target - addr ->
  ALU_exec ADD 0 target = Ok (target, cc) ->
  exists c',
    step Memory_get Memory_put decode ALU_exec c = Ok (MkCPUStep addr word i, c') /\
    pc_get c' = Ok target /\
    (forall n : nat, n <> 15%nat -> registers c' !! n = registers c !! n) /\
    memory c' = memory c.
Proof.
  intros Hwf Hpc Hget Hdec Hmask Hop Ht Hs1 Hs2 Hoff Halu.
  assert (Hlen := regs_wf_length _ Hwf).
  assert (H2 : regs_get (registers c) (reg_src2 i) = Ok addr)
    by (rewrite Hs2; exact Hpc).
  assert (H1 : regs_get (registers c) (reg_src1 i) = Ok 0)
    by (rewrite Hs1; apply regs_get_zero, Hwf).
  assert (Halu' : ALU_exec (op i) 0 (addr + offset i) = Ok (target, cc)).
  { rewrite Hop, Hoff. replace (addr + (target - addr)) with target by lia.
    exact Halu. }
  rewrite (step_executes Memory_get Memory_put decode ALU_exec
             c addr word 0 addr target cc i) by assumption.
  assert (Hwf' := advanced_wf c addr cc Hwf).
  unfold writeback. rewrite Hop, Ht.
  rewrite (regs_put_insert _ 15 target Hwf') by lia. cbn [mbind Result_bind].
  eexists. split; [reflexivity|]. split; [|split; [|reflexivity]].
  - unfold pc_get. cbn [registers set_registers].
    apply (regs_get_insert_eq _ 15 target Hwf'). lia.
  - intros n Hn. cbn [registers set_registers advanced set_condition].
    rewrite !list_lookup_insert_ne by (simpl; lia). reflexivity.
Qed.

Lemma resolved_jump_reaches_target_witness :
  exists c',
    Sample.step (Sample.cpu_at_5 Sample.jump_self_word CondFlag_ALWAYS)
      = Ok (MkCPUStep 5 Sample.jump_self_word Sample.jump_self, c') /\
    pc_get c' = Ok 5 /\
    (forall n : nat, n <> 15%nat ->
       registers c' !! n
         = registers (Sample.cpu_at_5 Sample.jump_self_word CondFlag_ALWAYS) !! n) /\
    memory c' = memory (Sample.cpu_at_5 Sample.jump_self_word CondFlag_ALWAYS).
Proof.
  apply (resolved_jump_reaches_target Sample.Memory_get Sample.Memory_put
           Sample.decode Sample.ALU_exec
           (Sample.cpu_at_5 Sample.jump_self_word CondFlag_ALWAYS)
           5 5 Sample.jump_self_word Sample.CondFlag_P Sample.jump_self);
    vm_compute; solve [reflexivity | discriminate].
Defined.

Lemma run_when_halted_witness :
  run Sample.Memory_get Sample.Memory_put Sample.decode Sample.ALU_exec 10
    (MkCPU [Sample.halt_word] (Sample.regs_with_pc 1) Sample.CondFlag_Z true) 0
  = Some (Ok (set_registers
                (MkCPU [Sample.halt_word] (Sample.regs_with_pc 1)
                   Sample.CondFlag_Z true)
                (<[15%nat := Reg 0]> (Sample.regs_with_pc 1)))).
Proof.
  apply (run_when_halted Sample.Memory_get Sample.Memory_put
           Sample.decode Sample.ALU_exec 10
           (MkCPU [Sample.halt_word] (Sample.regs_with_pc 1)
              Sample.CondFlag_Z true) 0);
    reflexivity.
Defined.

End CPUMore.

(** ** More on the assembler *)

Module AsmMore.

Import Re ReProps Asm AsmProps.

(** *** The dict of a parsed line *)

Lemma fullmatch_dom (r : regex) (line key : string)
    (g : gmap string (option string)) :
  fullmatch r line = Some g ->
  (is_Some (g !! key) <-> key ∈ group_names r).
Proof.
  unfold fullmatch.
  destruct (exec r line ∅ _) as [caps|]; [|discriminate].
  intros [= <-]. split.
  - intros [v Hv]. apply groupdict_lookup in Hv as [_ Hin]. exact Hin.
  - intros Hin. rewrite groupdict_is_Some by exact Hin. eauto.
Qed.

(** X20: the keys of the dict depend on the kind of the line only: a key
    other than [kind] can be read exactly when it is a group of the pattern
    that matched, and reading any other is a KeyError. *)
Theorem parse_line_keys (line key : string) (f : Fields) :
  parse_line line = Ok f -> key <> "kind"%string ->
  ((exists v, getitem f key = Ok v) <-> key ∈ keys_of (kind f)) /\
  (getitem f key = Raise (KeyError key) <-> key ∉ keys_of (kind f)).
Proof.
  intros Hp _. apply parse_line_pattern in Hp.
  assert (Hdom : is_Some (groups f !! key) <-> key ∈ keys_of (kind f)).
  { destruct (kind f); apply (fullmatch_dom _ line key) in Hp; exact Hp. }
  unfold getitem. rewrite <- Hdom.
  destruct (groups f !! key) as [v|] eqn:E; split; split.
  - eauto.
  - eauto.
  - discriminate.
  - intros Hn. exfalso. apply Hn. eauto.
  - intros [v Hv]. discriminate.
  - intros [v Hv]. discriminate.
  - intros _ [v Hv]. discriminate.
  - reflexivity.
Qed.

Lemma parse_line_keys_witness :
  ((exists v, getitem Sample.bogus_fields "symbol" = Ok v)
   <-> "symbol"%string ∈ keys_of (kind Sample.bogus_fields)) /\
  (getitem Sample.bogus_fields "symbol" = Raise (KeyError "symbol")
   <-> "symbol"%string ∉ keys_of (kind Sample.bogus_fields)).
Proof.
  apply (parse_line_keys Sample.bogus_line "symbol" Sample.bogus_fields).
  - vm_compute; reflexivity.
  - discriminate.
Defined.

(** *** Defaults *)

(** [fill_defaults] on a dict that has the two keys. *)
Lemma fill_defaults_eval (f : Fields) (p o : option string) :
  groups f !! "predicate"%string = Some p ->
  groups f !! "offset"%string = Some o ->
  fill_defaults f
    = Ok (MkFields (kind f)
            (<["offset"%string := Some (default "0"%string o)]>
               (<["predicate"%string := Some (default "ALWAYS"%string p)]>
                  (groups f)))).
Proof.
  intros Hp Ho. unfold fill_defaults, INSTR_DEFAULTS.
  cbn [fill_defaults_from]. rewrite (getitem_lookup f _ _ Hp).
  cbn [mbind Result_bind].
  destruct f as [k g]; cbn [groups kind] in *.
  destruct p as [p|]; cbn [default].
  - rewrite (getitem_lookup (MkFields k g) _ _ Ho). cbn [mbind Result_bind].
    rewrite (insert_id g "predicate"%string) by exact Hp.
    destruct o as [o|]; cbn [default]; [|reflexivity].
    rewrite insert_id by exact Ho. reflexivity.
  - rewrite getitem_setitem_ne by discriminate.
    rewrite (getitem_lookup (MkFields k g) _ _ Ho). cbn [mbind Result_bind].
    destruct o as [o|]; cbn [default]; [|reflexivity].
    unfold setitem; cbn [groups kind]. rewrite (insert_id _ "offset"%string);
      [reflexivity|].
    rewrite lookup_insert_ne by discriminate. exact Ho.
Qed.

(** X21: [fill_defaults] on a dict with the keys [predicate] and [offset]:
    a value that is there is kept, [None] becomes [ALWAYS] and [0], no
    other key is touched, and a second pass changes nothing. *)
Theorem fill_defaults_spec (f : Fields) (p o : option string) :
  groups f !! "predicate"%string = Some p ->
  groups f !! "offset"%string = Some o ->
  exists filled,
    fill_defaults f = Ok filled /\
    kind filled = kind f /\
    groups filled !! "predicate"%string = Some (Some (default "ALWAYS"%string p)) /\
    groups filled !! "offset"%string = Some (Some (default "0"%string o)) /\
    (forall key, key <> "predicate"%string -> key <> "offset"%string ->
                 groups filled !! key = groups f !! key) /\
    fill_defaults filled = Ok filled.
Proof.
  intros Hp Ho. eexists. split; [apply (fill_defaults_eval f p o Hp Ho)|].
  cbn [kind groups]. split; [reflexivity|]. split; [|split; [|split]].
  - rewrite lookup_insert_ne by discriminate. apply lookup_insert_eq.
  - apply lookup_insert_eq.
  - intros key H1 H2. rewrite !lookup_insert_ne by congruence. reflexivity.
  - rewrite (fill_defaults_eval _ (Some (default "ALWAYS"%string p))
               (Some (default "0"%string o))).
    + cbn [kind groups default]. f_equal. f_equal.
      apply map_eq. intros key.
      destruct (decide (key = "offset"%string)) as [->|H2];
        [rewrite !lookup_insert_eq; reflexivity|].
      destruct (decide (key = "predicate"%string)) as [->|H1].
      * rewrite !(lookup_insert_ne _ "offset"%string "predicate"%string)
          by discriminate.
        rewrite !lookup_insert_eq. reflexivity.
      * rewrite !lookup_insert_ne by congruence. reflexivity.
    + cbn [groups]. rewrite lookup_insert_ne by discriminate.
      apply lookup_insert_eq.
    + cbn [groups]. apply lookup_insert_eq.
Qed.

Lemma fill_defaults_spec_witness :
  exists filled,
    fill_defaults Sample.bogus_fields = Ok filled /\
    kind filled = kind Sample.bogus_fields /\
    groups filled !! "predicate"%string
      = Some (Some (default "ALWAYS"%string None)) /\
    groups filled !! "offset"%string = Some (Some (default "0"%string None)) /\
    (forall key, key <> "predicate"%string -> key <> "offset"%string ->
                 groups filled !! key = groups Sample.bogus_fields !! key) /\
    fill_defaults filled = Ok filled.
Proof.
  apply (fill_defaults_spec Sample.bogus_fields None None);
    vm_compute; reflexivity.
Defined.

(** The groups of the pattern of fully specified lines, one by one. *)
Lemma groups_sound_FULL (P : string -> string -> Prop) :
  (forall w, matches (Seq (Chr letter) (Star (Chr WordChar))) w -> P "label" w) ->
  (forall w, matches (Plus (Chr letter)) w -> P "opcode" w) ->
  (forall w, matches (Plus (Chr letter)) w -> P "predicate" w) ->
  (forall w, matches register_name w -> P "target" w) ->
  (forall w, matches register_name w -> P "src1" w) ->
  (forall w, matches register_name w -> P "src2" w) ->
  (forall w, matches (Seq (Opt (Chr (Single "-"))) (Plus (Chr digit))) w ->
             P "offset" w) ->
  (forall w, matches (Seq (Chr (Union (Single "#") (Single ";")))
                          (Star (Chr AnyChar))) w -> P "comment" w) ->
  groups_sound P ASM_FULL_PAT.
Proof. intros. cbn. repeat split; assumption. Qed.

Lemma is_letters_plus (w : string) :
  matches (Plus (Chr letter)) w -> is_letters w = true.
Proof.
  intros (c & w' & -> & Hc & Hw)%matches_Plus_Chr.
  unfold is_letters. cbn [all_chars]. rewrite Hc, Hw. reflexivity.
Qed.

Lemma is_digits_plus (w : string) :
  matches (Plus (Chr digit)) w -> is_digits w = true.
Proof.
  intros (c & w' & -> & Hc & Hw)%matches_Plus_Chr.
  unfold is_digits. cbn [all_chars]. rewrite Hc, Hw. reflexivity.
Qed.

Lemma is_register_name (w : string) :
  matches register_name w -> is_register w = true.
Proof.
  intros (u & v & -> & Hu & Hv)%matches_Seq.
  apply matches_Chr in Hu as (c & -> & Hc).
  cbn [cset_mem] in Hc. apply Ascii.eqb_eq in Hc as <-.
  apply is_digits_plus in Hv.
  change (is_register (String "r" v) = true).
  unfold is_register. rewrite Hv. reflexivity.
Qed.

Lemma is_integer_offset (w : string) :
  matches (Seq (Opt (Chr (Single "-"))) (Plus (Chr digit))) w ->
  is_integer w = true.
Proof.
  intros (u & v & -> & Hu & Hv)%matches_Seq.
  pose proof (is_digits_plus v Hv) as Hd.
  apply matches_Alt in Hu as [Hu|Hu].
  - apply matches_Chr in Hu as (c & -> & Hc).
    cbn [cset_mem] in Hc. apply Ascii.eqb_eq in Hc as <-.
    change (is_integer (String "-" v) = true).
    unfold is_integer. rewrite Hd. reflexivity.
  - apply matches_Eps in Hu as ->. rewrite append_nil_l.
    apply matches_Plus_Chr in Hv as (c & w' & -> & Hc & Hw).
    unfold is_integer.
    destruct (Ascii.eqb_spec c "-") as [->|_]; [discriminate Hc | exact Hd].
Qed.

(** X22: what [instruction_from_dict] is given for a fully specified line:
    [fill_defaults] succeeds, and in the dict it returns none of the six
    instruction fields is [None]: opcode and predicate are words of
    letters, the three registers are [r] and digits, the offset is digits
    with an optional minus sign. *)
Theorem full_line_filled (line : string) (f : Fields) :
  parse_line line = Ok f -> kind f = FULL ->
  exists filled o p t s1 s2 off,
    fill_defaults f = Ok filled /\
    getitem filled "opcode" = Ok (Some o) /\ is_letters o = true /\
    getitem filled "predicate" = Ok (Some p) /\ is_letters p = true /\
    getitem filled "target" = Ok (Some t) /\ is_register t = true /\
    getitem filled "src1" = Ok (Some s1) /\ is_register s1 = true /\
    getitem filled "src2" = Ok (Some s2) /\ is_register s2 = true /\
    getitem filled "offset" = Ok (Some off) /\ is_integer off = true.
Proof.
  intros Hp Hk. apply parse_line_pattern in Hp. rewrite Hk in Hp.
  apply (fullmatch_sound
           (fun n v =>
              (n = "opcode" -> is_letters v = true) /\
              (n = "predicate" -> is_letters v = true) /\
              (n = "target" -> is_register v = true) /\
              (n = "src1" -> is_register v = true) /\
              (n = "src2" -> is_register v = true) /\
              (n = "offset" -> is_integer v = true))%string)
    in Hp as (_ & Hn & Hg & Hm).
  2: { apply groups_sound_FULL; intros w Hw; repeat split; try discriminate;
         intros _; auto using is_letters_plus, is_register_name,
                     is_integer_offset. }
  destruct (Hm "opcode"%string) as [o Ho]; [in_names ..|].
  destruct (Hm "target"%string) as [t Ht]; [in_names ..|].
  destruct (Hm "src1"%string) as [s1 Hs1]; [in_names ..|].
  destruct (Hm "src2"%string) as [s2 Hs2]; [in_names ..|].
  destruct (Hn "predicate"%string) as [p Hpr]; [in_names|].
  destruct (Hn "offset"%string) as [off Hoff]; [in_names|].
  eexists. exists o, (default "ALWAYS"%string p), t, s1, s2,
    (default "0"%string off).
  split; [apply (fill_defaults_eval f p off Hpr Hoff)|].
  assert (Hother : forall key v,
            key <> "predicate"%string -> key <> "offset"%string ->
            groups f !! key = Some v ->
            getitem (MkFields (kind f)
                       (<["offset"%string := Some (default "0"%string off)]>
                          (<["predicate"%string :=
                               Some (default "ALWAYS"%string p)]> (groups f))))
              key = Ok v).
  { intros key v H1 H2 Hv. unfold getitem; cbn [groups].
    rewrite !lookup_insert_ne by congruence. rewrite Hv. reflexivity. }
  assert (Hpred : getitem (MkFields (kind f)
                       (<["offset"%string := Some (default "0"%string off)]>
                          (<["predicate"%string :=
                               Some (default "ALWAYS"%string p)]> (groups f))))
              "predicate" = Ok (Some (default "ALWAYS"%string p))).
  { unfold getitem; cbn [groups].
    rewrite lookup_insert_ne by discriminate.
    rewrite lookup_insert_eq. reflexivity. }
  assert (Hoffs : getitem (MkFields (kind f)
                       (<["offset"%string := Some (default "0"%string off)]>
                          (<["predicate"%string :=
                               Some (default "ALWAYS"%string p)]> (groups f))))
              "offset" = Ok (Some (default "0"%string off))).
  { unfold getitem; cbn [groups]. rewrite lookup_insert_eq. reflexivity. }
  split; [apply Hother; [discriminate | discriminate | exact Ho]|].
  split; [apply (proj1 (Hg _ _ Ho)); reflexivity|].
  split; [exact Hpred|].
  split; [destruct p as [p|];
          [apply (proj1 (proj2 (Hg _ _ Hpr)))|]; reflexivity|].
  split; [apply Hother; [discriminate | discriminate | exact Ht]|].
  split; [apply (proj1 (proj2 (proj2 (Hg _ _ Ht)))); reflexivity|].
  split; [apply Hother; [discriminate | discriminate | exact Hs1]|].
  split; [apply (proj1 (proj2 (proj2 (proj2 (Hg _ _ Hs1))))); reflexivity|].
  split; [apply Hother; [discriminate | discriminate | exact Hs2]|].
  split; [apply (proj1 (proj2 (proj2 (proj2 (proj2 (Hg _ _ Hs2))))));
          reflexivity|].
  split; [exact Hoffs|].
  destruct off as [off|];
    [apply (proj2 (proj2 (proj2 (proj2 (proj2 (Hg _ _ Hoff))))))|];
    reflexivity.
Qed.

Lemma full_line_filled_witness :
  exists filled o p t s1 s2 off,
    fill_defaults Sample.bogus_fields = Ok filled /\
    getitem filled "opcode" = Ok (Some o) /\ is_letters o = true /\
    getitem filled "predicate" = Ok (Some p) /\ is_letters p = true /\
    getitem filled "target" = Ok (Some t) /\ is_register t = true /\
    getitem filled "src1" = Ok (Some s1) /\ is_register s1 = true /\
    getitem filled "src2" = Ok (Some s2) /\ is_register s2 = true /\
    getitem filled "offset" = Ok (Some off) /\ is_integer off = true.
Proof.
  apply (full_line_filled Sample.bogus_line Sample.bogus_fields);
    vm_compute; reflexivity.
Defined.

(** *** Numbers *)

Lemma digits_value_uint_acc (d : Decimal.uint) :
  forall acc : positive,
    digits_value 10 (DecimalString.NilEmpty.string_of_uint d) (Z.pos acc)
      = Some (Z.pos (Pos.of_uint_acc d acc)).
Proof.
  induction d; intros acc; cbn [DecimalString.NilEmpty.string_of_uint
    Pos.of_uint_acc]; try reflexivity;
    match goal with
    | |- _ = Some (Z.pos (Pos.of_uint_acc _ ?a)) => rewrite <- (IHd a)
    end; cbn [digits_value];
    match goal with
    | |- context [digit_value ?c] =>
        let v := eval vm_compute in (digit_value c) in
        change (digit_value c) with v
    end; cbv beta iota;
    match goal with
    | |- context [(?a <? 10)%Z] => change (a <? 10)%Z with true
    end; cbv iota; f_equal; lia.
Qed.

Lemma digits_value_uint (d : Decimal.uint) :
  digits_value 10 (DecimalString.NilEmpty.string_of_uint d) 0
    = Some (Z.of_N (Pos.of_uint d)).
Proof.
  induction d; cbn [DecimalString.NilEmpty.string_of_uint Pos.of_uint];
    try reflexivity; try exact IHd;
    cbn [Z.of_N]; rewrite <- digits_value_uint_acc; reflexivity.
Qed.

Lemma prefix_0x_uint (d : Decimal.uint) :
  String.prefix "0x" (DecimalString.NilEmpty.string_of_uint d) = false.
Proof. destruct d; try reflexivity. destruct d; reflexivity. Qed.

Lemma length_string_of_uint (d : Decimal.uint) :
  String.length (DecimalString.NilEmpty.string_of_uint d) = Decimal.nb_digits d.
Proof.
  induction d; cbn [DecimalString.NilEmpty.string_of_uint String.length
    Decimal.nb_digits]; congruence.
Qed.

Lemma leading_digits_uint (d : Decimal.uint) :
  leading_digits 10 (DecimalString.NilEmpty.string_of_uint d)
    = Decimal.nb_digits d.
Proof.
  induction d; cbn [DecimalString.NilEmpty.string_of_uint Decimal.nb_digits];
    try reflexivity; cbn [leading_digits];
    match goal with
    | |- context [digit_value ?c] =>
        let v := eval vm_compute in (digit_value c) in
        change (digit_value c) with v
    end; cbv beta iota;
    match goal with
    | |- context [(?a <? 10)%Z] => change (a <? 10)%Z with true
    end; cbv iota; rewrite IHd; reflexivity.
Qed.

(** A text of decimal digits is the text of a decimal numeral. *)
Lemma digit_string_uint (s : string) :
  all_chars (cset_mem digit) s = true ->
  exists d, s = DecimalString.NilEmpty.string_of_uint d.
Proof.
  induction s as [|c s IH]; [exists Decimal.Nil; reflexivity|].
  cbn [all_chars]. intros [Hc Hs]%andb_true_iff.
  destruct (IH Hs) as [d ->].
  destruct c as [[] [] [] [] [] [] [] []]; try discriminate Hc;
    first [ exists (Decimal.D0 d); reflexivity
          | exists (Decimal.D1 d); reflexivity
          | exists (Decimal.D2 d); reflexivity
          | exists (Decimal.D3 d); reflexivity
          | exists (Decimal.D4 d); reflexivity
          | exists (Decimal.D5 d); reflexivity
          | exists (Decimal.D6 d); reflexivity
          | exists (Decimal.D7 d); reflexivity
          | exists (Decimal.D8 d); reflexivity
          | exists (Decimal.D9 d); reflexivity ].
Qed.

Lemma str_of_Z_of_N (n : N) :
  str_of_Z (Z.of_N n) = DecimalString.NilZero.string_of_uint (N.to_uint n).
Proof. destruct n; reflexivity. Qed.

Lemma string_of_uint_nonnil (d : Decimal.uint) :
  d <> Decimal.Nil ->
  DecimalString.NilZero.string_of_uint d
    = DecimalString.NilEmpty.string_of_uint d.
Proof. destruct d; [congruence | reflexivity ..]. Qed.

(** The decimal text of the value of a decimal literal is not longer than
    the literal. *)
Lemma str_of_Z_length_le (s : string) (word : Z) :
  all_chars (cset_mem digit) s = true -> s <> EmptyString ->
  digits_value 10 s 0 = Some word ->
  (0 <= word)%Z /\ (String.length (str_of_Z word) <= String.length s)%nat.
Proof.
  intros Hs Hne Hv. destruct (digit_string_uint s Hs) as [d ->].
  rewrite digits_value_uint in Hv. injection Hv as <-.
  split; [lia|].
  assert (Hd : d <> Decimal.Nil) by (intros ->; apply Hne; reflexivity).
  rewrite str_of_Z_of_N, DecimalPos.Unsigned.to_of.
  rewrite string_of_uint_nonnil by apply DecimalFacts.unorm_nonnil.
  rewrite !length_string_of_uint.
  apply DecimalFacts.nb_digits_unorm, Hd.
Qed.

Lemma value_parse_str_of_Z (n : Z) :
  (0 <= n)%Z ->
  (Z.of_nat (String.length (str_of_Z n)) <= int_max_str_digits)%Z ->
  value_parse (Some (str_of_Z n)) = Ok n.
Proof.
  intros Hn Hlen. destruct n as [|p|p]; [reflexivity| |lia].
  revert Hlen.
  unfold str_of_Z. cbn [Z.to_int DecimalString.NilZero.string_of_int].
  pose proof (DecimalPos.Unsigned.to_uint_nonnil p) as Hnil.
  pose proof (DecimalPos.Unsigned.of_to p) as Hof.
  rewrite (string_of_uint_nonnil _ Hnil). intros Hlen.
  unfold value_parse. rewrite prefix_0x_uint.
  unfold py_int. rewrite prefix_0x_uint. cbn [Z.eqb Pos.eqb andb].
  rewrite leading_digits_uint, <- length_string_of_uint.
  destruct (Z.ltb_spec int_max_str_digits
              (Z.of_nat (String.length
                 (DecimalString.NilEmpty.string_of_uint (Pos.to_uint p)))));
    [lia|].
  rewrite digits_value_uint, Hof.
  destruct (DecimalString.NilEmpty.string_of_uint (Pos.to_uint p)) eqn:E;
    [|reflexivity].
  destruct (Pos.to_uint p); try discriminate E. congruence.
Qed.

Lemma digit_value_nonneg (c : ascii) (d : Z) :
  digit_value c = Some d -> (0 <= d)%Z.
Proof.
  destruct c as [[] [] [] [] [] [] [] []]; vm_compute;
    intros H; try discriminate H; injection H as <-; discriminate.
Qed.

Lemma digits_value_nonneg (base : Z) (s : string) :
  forall acc v, (0 <= base)%Z -> (0 <= acc)%Z ->
    digits_value base s acc = Some v -> (0 <= v)%Z.
Proof.
  induction s as [|c s IH]; intros acc v Hb Ha; simpl.
  - intros [= <-]. exact Ha.
  - destruct (digit_value c) as [d|] eqn:E; [|discriminate].
    destruct (d <? base)%Z; [|discriminate].
    apply IH; [exact Hb|]. apply digit_value_nonneg in E. nia.
Qed.

Lemma value_parse_nonneg (v : option string) (word : Z) :
  value_parse v = Ok word -> (0 <= word)%Z.
Proof.
  intros Hv. unfold value_parse in Hv. destruct v as [s|]; [|discriminate].
  assert (Hint : forall base, (0 <= base)%Z ->
            py_int s base = Ok word -> (0 <= word)%Z).
  { intros base Hb. unfold py_int.
    destruct ((base =? 10)%Z && _); [discriminate|].
    destruct (if (base =? 16)%Z && String.prefix "0x" s
              then String.substring 2 (String.length s - 2) s else s)
      as [|c body] eqn:E; [discriminate|].
    destruct (digits_value base (String c body) 0) as [w|] eqn:Ed;
      [|discriminate].
    intros [= <-]. eapply digits_value_nonneg; [| |exact Ed]; lia. }
  destruct (String.prefix "0x" s); eapply Hint; try exact Hv; lia.
Qed.

(** What [format_int] returns when it returns. *)
Lemma format_int_Ok (n : Z) (text : string) :
  format_int n = Ok text ->
  text = str_of_Z n /\
  (Z.of_nat (String.length (str_of_Z (Z.abs n))) <= int_max_str_digits)%Z.
Proof.
  unfold format_int.
  destruct (Z.ltb_spec int_max_str_digits
              (Z.of_nat (String.length (str_of_Z (Z.abs n)))));
    [discriminate|].
  intros [= <-]. auto.
Qed.

(** The value of a decimal literal within the limit is written without an
    exception. *)
Lemma decimal_literal_formats (s : string) (word : Z) :
  matches (Paren (Plus (Chr digit))) s ->
  too_long_decimal s = false ->
  value_parse (Some s) = Ok word ->
  format_int word = Ok (str_of_Z word).
Proof.
  intros Hm Hlong Hv. apply matches_Group in Hm.
  apply matches_Plus_Chr in Hm as (c & w & -> & Hc & Hw).
  assert (Hall : all_chars (cset_mem digit) (String c w) = true).
  { cbn [all_chars]. rewrite Hc, Hw. reflexivity. }
  assert (Hpre : String.prefix "0x" (String c w) = false).
  { cbn [String.prefix]. destruct (ascii_dec "0" c) as [<-|?]; [|reflexivity].
    destruct w as [|c' w']; [reflexivity|].
    cbn [all_chars] in Hw. apply andb_true_iff in Hw as [Hc' _].
    destruct (digit_value_digit c' Hc') as (_ & _ & _ & Hx).
    cbn [String.prefix].
    destruct (ascii_dec "x" c'); [congruence|reflexivity]. }
  unfold too_long_decimal in Hlong. rewrite Hpre in Hlong.
  cbn [negb andb] in Hlong. apply Z.ltb_ge in Hlong.
  unfold value_parse in Hv. rewrite Hpre in Hv. unfold py_int in Hv.
  rewrite Hpre in Hv. cbn [Z.eqb Pos.eqb andb] in Hv.
  destruct (int_max_str_digits <? _)%Z in Hv; [discriminate|].
  destruct (digits_value 10 (String c w) 0) as [v|] eqn:Ed; [|discriminate].
  injection Hv as ->.
  destruct (str_of_Z_length_le (String c w) word Hall) as [Hnn Hlen];
    [discriminate | exact Ed |].
  unfold format_int. rewrite Z.abs_eq by exact Hnn.
  destruct (Z.ltb_spec int_max_str_digits
              (Z.of_nat (String.length (str_of_Z word)))); [lia|reflexivity].
Qed.

(** The [value] of a DATA line, when it is there, is a hexadecimal or a
    decimal literal. *)
Lemma data_line_value (line : string) (f : Fields) (s : string) :
  parse_line line = Ok f -> kind f = DATA ->
  groups f !! "value"%string = Some (Some s) ->
  matches (Alt (Paren (Seq (Lit "0x") (Plus (Chr hexdigit))))
               (Paren (Plus (Chr digit)))) s.
Proof.
  intros H Hk Hs. apply parse_line_pattern in H. rewrite Hk in H.
  apply (fullmatch_sound
           (fun n v => n = "value"%string ->
              matches (Alt (Paren (Seq (Lit "0x") (Plus (Chr hexdigit))))
                           (Paren (Plus (Chr digit)))) v))
    in H as (_ & _ & Hg & _).
  - apply (Hg _ _ Hs). reflexivity.
  - apply groups_sound_DATA; intros w Hw; try discriminate.
    intros _. exact Hw.
Qed.

Lemma hex_literal_prefix (s : string) :
  matches (Paren (Seq (Lit "0x") (Plus (Chr hexdigit)))) s ->
  String.prefix "0x" s = true.
Proof.
  intros H. apply matches_Group in H.
  apply matches_Seq in H as (u & h & -> & Hu & _).
  apply matches_Lit in Hu as ->.
  change ("0x" +:+ h) with (String "0" (String "x" h)).
  cbn [String.prefix].
  destruct (ascii_dec "0" "0") as [_|?]; [|congruence].
  destruct (ascii_dec "x" "x") as [_|?]; [|congruence].
  destruct h; reflexivity.
Qed.

(** X23: the literal of a parsed DATA line.  A decimal literal of more
    than 4300 digits is refused by [value_parse] with a ValueError.  Any
    other literal has a value, which is not negative.  The text pass 2
    writes for the value, when the value is not too long to be written,
    parses back to it, and the value of a decimal literal is never too long
    to be written. *)
Theorem data_value_round_trip (line : string) (f : Fields) (s : string) :
  parse_line line = Ok f -> kind f = DATA ->
  getitem f "value" = Ok (Some s) ->
  if too_long_decimal s
  then exists msg, value_parse (Some s) = Raise (ValueError msg)
  else exists word,
         value_parse (Some s) = Ok word /\ (0 <= word)%Z /\
         (forall text, format_int word = Ok text ->
                       value_parse (Some text) = Ok word) /\
         (String.prefix "0x" s = false -> format_int word = Ok (str_of_Z word)).
Proof.
  intros Hp Hk Hs.
  destruct (data_line_fields line f Hp Hk) as (label & value & _ & Hv & Htot).
  rewrite (getitem_lookup _ _ _ Hv) in Hs. injection Hs as ->.
  specialize (Htot s eq_refl).
  pose proof (data_line_value line f s Hp Hk Hv) as Hm.
  destruct (too_long_decimal s) eqn:Hlong; [exact Htot|].
  destruct Htot as [word Hw].
  pose proof (value_parse_nonneg _ _ Hw) as Hnn.
  exists word. split; [exact Hw|]. split; [exact Hnn|]. split.
  - intros text [-> Hlen]%format_int_Ok.
    rewrite Z.abs_eq in Hlen by exact Hnn.
    apply value_parse_str_of_Z; assumption.
  - intros Hpre. apply matches_Alt in Hm as [Hm|Hm].
    + apply hex_literal_prefix in Hm. congruence.
    + apply (decimal_literal_formats s word Hm Hlong Hw).
Qed.

Lemma data_value_round_trip_witness :
  if too_long_decimal "0x1F"
  then exists msg, value_parse (Some "0x1F"%string) = Raise (ValueError msg)
  else exists word,
         value_parse (Some "0x1F"%string) = Ok word /\ (0 <= word)%Z /\
         (forall text, format_int word = Ok text ->
                       value_parse (Some text) = Ok word) /\
         (String.prefix "0x" "0x1F" = false ->
          format_int word = Ok (str_of_Z word)).
Proof.
  apply (data_value_round_trip "x: DATA 0x1F"
           (MkFields DATA
              (list_to_map [("label", Some "x"); ("opcode", Some "DATA");
                            ("value", Some "0x1F"); ("comment", None)]%string))
           "0x1F");
    vm_compute; reflexivity.
Defined.

(** *** Pass 1, once more *)

Lemma words_of_bounds (lines : list string) :
  (0 <= words_of lines <= Z.of_nat (length lines))%Z.
Proof.
  unfold words_of. pose proof (List.filter_length_le occupies_word lines). lia.
Qed.

Lemma line_label_raise (line : string) (e : Exception) :
  parse_line line = Raise e ->
  line_label line = None /\ occupies_word line = false.
Proof. intros H. unfold line_label, occupies_word. rewrite H. auto. Qed.

(** What pass 1 computes does not depend on the line numbers or on what has
    been printed. *)
Lemma build_table_from_core (lines : list string) :
  forall lnum lnum' st st',
    datadict st = datadict st' -> address1 st = address1 st' ->
    datadict (build_table_from lnum lines st)
      = datadict (build_table_from lnum' lines st') /\
    address1 (build_table_from lnum lines st)
      = address1 (build_table_from lnum' lines st').
Proof.
  induction lines as [|line lines IH]; intros lnum lnum' st st' Hd Ha.
  - auto.
  - simpl. apply IH.
    + destruct (build_table_line_spec lnum line st) as [_ ->].
      destruct (build_table_line_spec lnum' line st') as [_ ->].
      rewrite Hd, Ha. reflexivity.
    + destruct (build_table_line_spec lnum line st) as [-> _].
      destruct (build_table_line_spec lnum' line st') as [-> _].
      rewrite Ha. reflexivity.
Qed.

Lemma build_table_from_entry (l : string) (a : Z) (lines : list string) :
  forall lnum st,
    datadict (build_table_from lnum lines st) !! l = Some a ->
    (datadict st !! l = Some a /\
     forallb (fun x => negb (has_label l x)) lines = true) \/
    (exists pre line post,
       lines = pre ++ line :: post /\ line_label line = Some l /\
       forallb (fun x => negb (has_label l x)) post = true /\
       a = (address1 st + words_of pre)%Z).
Proof.
  induction lines as [|line lines IH]; intros lnum st H.
  - left. auto.
  - simpl in H. apply IH in H as [[H Hnone]|(pre & x & post & -> & Hx & Hpost & ->)].
    + destruct (build_table_line_spec lnum line st) as [_ Hd].
      rewrite Hd in H. cbn [forallb]. rewrite Hnone, andb_true_r.
      unfold has_label.
      destruct (line_label line) as [l'|] eqn:El.
      * destruct (decide (l' = l)) as [->|Hne].
        -- rewrite lookup_insert_eq in H. injection H as <-.
           right. exists [], line, lines. repeat split; auto.
           unfold words_of. simpl. lia.
        -- rewrite lookup_insert_ne in H by exact Hne. left.
           split; [exact H|].
           apply negb_true_iff, bool_decide_eq_false. congruence.
      * left. split; [exact H|].
        apply negb_true_iff, bool_decide_eq_false. congruence.
    + right. exists (line :: pre), x, post. repeat split; auto.
      destruct (build_table_line_spec lnum line st) as [-> _].
      rewrite words_of_cons. lia.
Qed.

(** X24: every entry of the symbol table comes from a line: if [build_table]
    maps [l] to [a], then some line carries the label [l], no later line
    does, and [a] is the number of lines before it that occupy a word; so
    [a] lies between 0 and the number of lines. *)
Theorem build_table_entry (lines : list string) (l : string) (a : Z) :
  build_table lines !! l = Some a ->
  (exists pre line post,
     lines = pre ++ line :: post /\ line_label line = Some l /\
     forallb (fun x => negb (has_label l x)) post = true /\
     a = words_of pre) /\
  (0 <= a <= Z.of_nat (length lines))%Z.
Proof.
  unfold build_table, build_table_run. intros H.
  apply build_table_from_entry in H
    as [[H _]|(pre & line & post & -> & Hl & Hpost & ->)].
  - simpl in H. rewrite lookup_empty in H. discriminate.
  - simpl. split; [exists pre, line, post; auto|].
    pose proof (words_of_bounds pre). rewrite length_app. simpl. lia.
Qed.

Lemma build_table_entry_witness :
  (exists pre line post,
     ["loop: ADD r1,r1,r1"; "# note"; "x: DATA 5"]%string
       = pre ++ line :: post /\ line_label line = Some "x"%string /\
     forallb (fun x => negb (has_label "x" x)) post = true /\
     1%Z = words_of pre) /\
  (0 <= 1 <= Z.of_nat (length ["loop: ADD r1,r1,r1"; "# note"; "x: DATA 5"]%string))%Z.
Proof.
  apply (build_table_entry ["loop: ADD r1,r1,r1"; "# note"; "x: DATA 5"]%string
           "x" 1).
  vm_compute; reflexivity.
Defined.

Lemma build_table_skips (pre post : list string) (bad : string) (e : Exception) :
  parse_line bad = Raise e ->
  build_table (pre ++ bad :: post) = build_table (pre ++ post).
Proof.
  intros Hbad. unfold build_table, build_table_run.
  rewrite !build_table_from_app. cbn [build_table_from].
  destruct (line_label_raise bad e Hbad) as [Hl Ho].
  apply build_table_from_core.
  - destruct (build_table_line_spec (0 + length pre) bad
                (build_table_from 0 pre (MkPass1 ∅ 0 []))) as [_ ->].
    rewrite Hl. reflexivity.
  - destruct (build_table_line_spec (0 + length pre) bad
                (build_table_from 0 pre (MkPass1 ∅ 0 []))) as [-> _].
    rewrite Ho. lia.
Qed.

(** A comment that is there is never the empty string. *)
Lemma parse_line_comment_truthy (line : string) (f : Fields) (c : string) :
  parse_line line = Ok f ->
  groups f !! "comment"%string = Some (Some c) ->
  truthy (Some c) = true.
Proof.
  intros H Hl. apply parse_line_pattern in H.
  assert (Hcom : forall w, matches (Seq (Chr (Union (Single "#") (Single ";")))
                                        (Star (Chr AnyChar))) w ->
                           "comment"%string = "comment"%string ->
                           truthy (Some w) = true).
  { intros w (u & v & -> & Hu & _)%matches_Seq _.
    apply matches_Chr in Hu as (c0 & -> & _). reflexivity. }
  destruct (kind f);
    apply (fullmatch_sound
             (fun n v => n = "comment"%string -> truthy (Some v) = true))
      in H as (_ & _ & Hg & _);
    try (apply (Hg _ _ Hl); reflexivity);
    cbn; repeat split; try exact Hcom; intros w _ [=].
Qed.

(** *** Pass 2, once more *)

Section Pass2More.

Context {Instr : Type}.
Variable instruction_from_dict : Fields -> Result Instr.
Variable Instruction_str : Instr -> string.


(** When the body of the [try] ends, it has appended one text and has moved
    the address as pass 1 does for the line. *)
Lemma transform_try_shape (tbl : gmap string Z) (line : string) (st st' : Pass2) :
  snd (transform_try instruction_from_dict Instruction_str tbl line st) = Ok st' ->
  exists text,
    st' = MkPass2 (instructions st ++ [text])
            (address2 st + (if occupies_word line then 1 else 0)) (printed2 st).
Proof.
  unfold transform_try, occupies_word.
  destruct (parse_line line) as [f|e]; [|discriminate].
  destruct (kind f); cbn [snd bool_decide negb].
  - destruct (getitem f "label") as [lab|]; [|discriminate].
    destruct (getitem f "comment") as [com|]; [|discriminate].
    cbn. intros [= <-]. rewrite Z.add_0_r. eauto.
  - destruct (fill_defaults f) as [filled|]; [|discriminate].
    cbn. destruct (instruction_from_dict filled) as [i|]; [|discriminate].
    cbn. intros [= <-]. eauto.
  - destruct (getitem f "value" ≫= value_parse) as [word|]; [|discriminate].
    destruct (getitem f "label") as [lab|]; [|discriminate].
    destruct (format_int word) as [text|]; [|discriminate].
    cbn. intros [= <-]. eauto.
  - destruct (resolve_line (address2 st) f tbl) as [i|]; [|discriminate].
    cbn. intros [= <-]. eauto.
Qed.

Lemma transform_line_step_cases (tbl : gmap string Z) (lnum : nat)
    (line : string) (st : Pass2) :
  (exists text,
     instructions (transform_line_step instruction_from_dict Instruction_str tbl lnum line st) = instructions st ++ [text] /\
     address2 (transform_line_step instruction_from_dict Instruction_str tbl lnum line st)
       = (address2 st + (if occupies_word line then 1 else 0))%Z) \/
  (instructions (transform_line_step instruction_from_dict Instruction_str tbl lnum line st) = instructions st /\
   address2 (transform_line_step instruction_from_dict Instruction_str tbl lnum line st) = address2 st).
Proof.
  unfold transform_line_step.
  destruct (transform_try instruction_from_dict Instruction_str tbl line st) as [out [st'|e]] eqn:E.
  - left. apply (f_equal snd) in E. cbn [snd] in E.
    apply transform_try_shape in E as [text ->]. exists text. auto.
  - right. auto.
Qed.

(** Whether the body of the [try] raises, and what it appends, depends on
    the lines emitted so far and on the address only. *)
Lemma resolve_line_status (a a' : Z) (f : Fields) (tbl : gmap string Z) :
  match resolve_line a f tbl, resolve_line a' f tbl with
  | Ok _, Ok _ => True
  | Raise e, Raise e' => e = e'
  | _, _ => False
  end.
Proof.
  unfold resolve_line.
  destruct (getitem f "symbol") as [sym|]; cbn; [|reflexivity].
  destruct (sym_lookup tbl sym) as [t|]; cbn; [|reflexivity].
  destruct (getitem f "opcode") as [op|]; cbn; [|reflexivity].
  destruct (getitem f "predicate") as [pr|]; cbn; [|reflexivity].
  destruct (bool_decide (op = Some "JUMP"%string)).
  - destruct (truthy pr); exact I.
  - destruct (getitem f "target") as [tg|]; cbn; [exact I|reflexivity].
Qed.

Lemma transform_try_status (tbl : gmap string Z) (line : string) (st st' : Pass2) :
  match snd (transform_try instruction_from_dict Instruction_str tbl line st), snd (transform_try instruction_from_dict Instruction_str tbl line st') with
  | Ok _, Ok _ => True
  | Raise e, Raise e' => e = e'
  | _, _ => False
  end.
Proof.
  unfold transform_try.
  destruct (parse_line line) as [f|e]; [|reflexivity].
  destruct (kind f); cbn [snd].
  - destruct (getitem f "label") as [lab|]; [|reflexivity].
    destruct (getitem f "comment") as [com|]; [|reflexivity].
    exact I.
  - destruct (fill_defaults f) as [filled|]; [|reflexivity].
    cbn. destruct (instruction_from_dict filled) as [i|]; [|reflexivity].
    exact I.
  - destruct (getitem f "value" ≫= value_parse) as [word|]; [|reflexivity].
    destruct (getitem f "label") as [lab|]; [|reflexivity].
    destruct (format_int word) as [text|]; [exact I|reflexivity].
  - pose proof (resolve_line_status (address2 st) (address2 st') f tbl) as H.
    destruct (resolve_line (address2 st) f tbl),
             (resolve_line (address2 st') f tbl); cbn; exact H.
Qed.

Lemma transform_line_step_core (tbl : gmap string Z) (line : string) :
  forall lnum lnum' st st',
    instructions st = instructions st' -> address2 st = address2 st' ->
    instructions (transform_line_step instruction_from_dict Instruction_str tbl lnum line st) = instructions (transform_line_step instruction_from_dict Instruction_str tbl lnum' line st') /\
    address2 (transform_line_step instruction_from_dict Instruction_str tbl lnum line st) = address2 (transform_line_step instruction_from_dict Instruction_str tbl lnum' line st').
Proof.
  intros lnum lnum' [ins a pr] [ins' a' pr']. cbn. intros <- <-.
  unfold transform_line_step, transform_try.
  destruct (parse_line line) as [f|e]; [|auto].
  destruct (kind f); cbn [instructions address2 printed2].
  - destruct (getitem f "label") as [lab|]; [|auto].
    destruct (getitem f "comment") as [com|]; cbn; auto.
  - destruct (fill_defaults f) as [filled|]; [|auto].
    cbn [mbind Result_bind].
    destruct (instruction_from_dict filled) as [i|]; cbn; auto.
  - destruct (getitem f "value" ≫= value_parse) as [word|]; [|auto].
    destruct (getitem f "label") as [lab|]; [|auto].
    destruct (format_int word) as [text|]; cbn; auto.
  - destruct (resolve_line a f tbl) as [i|]; cbn; auto.
Qed.

Lemma transform_line_from_core (tbl : gmap string Z) (lines : list string) :
  forall lnum lnum' st st',
    instructions st = instructions st' -> address2 st = address2 st' ->
    instructions (transform_line_from instruction_from_dict Instruction_str tbl lnum lines st) = instructions (transform_line_from instruction_from_dict Instruction_str tbl lnum' lines st') /\
    address2 (transform_line_from instruction_from_dict Instruction_str tbl lnum lines st) = address2 (transform_line_from instruction_from_dict Instruction_str tbl lnum' lines st').
Proof.
  induction lines as [|line lines IH]; intros lnum lnum' st st' Hi Ha.
  - auto.
  - cbn [transform_line_from]. apply IH;
      apply (transform_line_step_core tbl line lnum lnum' st st' Hi Ha).
Qed.

Lemma transform_line_step_raise (tbl : gmap string Z) (lnum : nat)
    (line : string) (st : Pass2) (e : Exception) :
  parse_line line = Raise e ->
  (transform_line_step instruction_from_dict Instruction_str tbl lnum line st)
    = MkPass2 (instructions st) (address2 st)
        (printed2 st ++ [PrintStr (report lnum line e)]).
Proof.
  intros H. unfold transform_line_step, transform_try. rewrite H. reflexivity.
Qed.

(** Later lines only append to the lines emitted so far. *)
Lemma transform_line_from_extends (tbl : gmap string Z) (lines : list string) :
  forall lnum st,
    exists more,
      instructions (transform_line_from instruction_from_dict Instruction_str tbl lnum lines st) = instructions st ++ more /\
      (length more <= length lines)%nat /\
      (address2 st <= address2 (transform_line_from instruction_from_dict Instruction_str tbl lnum lines st)
         <= address2 st + Z.of_nat (length more))%Z /\
      (address2 (transform_line_from instruction_from_dict Instruction_str tbl lnum lines st) <= address2 st + words_of lines)%Z.
Proof.
  induction lines as [|line lines IH]; intros lnum st.
  - exists []. cbn. rewrite app_nil_r. unfold words_of. cbn. repeat split; lia.
  - cbn [transform_line_from].
    destruct (IH (S lnum) (transform_line_step instruction_from_dict Instruction_str tbl lnum line st)) as (more & Hi & Hl & Ha & Hw).
    rewrite words_of_cons.
    destruct (transform_line_step_cases tbl lnum line st)
      as [(text & Ei & Ea)|[Ei Ea]]; rewrite Ei in Hi; rewrite Ea in Ha, Hw.
    + exists (text :: more). rewrite Hi, <- app_assoc. cbn [length].
      destruct (occupies_word line); repeat split; auto; lia.
    + exists more. rewrite Hi. cbn [length].
      destruct (occupies_word line); repeat split; auto; lia.
Qed.

(** A line fails late or not whatever the state pass 2 is in. *)
Lemma fails_late_false (tbl : gmap string Z) (line : string) :
  fails_late instruction_from_dict Instruction_str tbl line = false ->
  forall st e, snd (transform_try instruction_from_dict Instruction_str tbl line st) = Raise e ->
               exists e', parse_line line = Raise e'.
Proof.
  unfold fails_late. intros H st e Hr.
  destruct (parse_line line) as [f|e'] eqn:E; [|eauto].
  pose proof (transform_try_status tbl line (MkPass2 [] 0 []) st) as Hs.
  rewrite Hr in Hs.
  destruct (snd (transform_try instruction_from_dict Instruction_str tbl line (MkPass2 [] 0 []))); [destruct Hs|discriminate].
Qed.

Lemma fails_late_Forall (tbl : gmap string Z) (lines : list string) :
  forallb (fun x => negb (fails_late instruction_from_dict Instruction_str tbl x))
    lines = true ->
  Forall (fun line => forall st e, snd (transform_try instruction_from_dict Instruction_str tbl line st) = Raise e ->
                                   exists e', parse_line line = Raise e') lines.
Proof.
  intros H. apply Forall_forall. intros line Hin.
  apply fails_late_false.
  rewrite forallb_forall in H. apply negb_true_iff, H.
  apply list_elem_of_In, Hin.
Qed.

Lemma transform_line_step_emits (tbl : gmap string Z) (lnum : nat)
    (line : string) (st : Pass2) :
  (forall st e, snd (transform_try instruction_from_dict Instruction_str tbl line st) = Raise e ->
                exists e', parse_line line = Raise e') ->
  length (instructions (transform_line_step instruction_from_dict Instruction_str tbl lnum line st))
    = (length (instructions st)
       + (if parses line then 1 else 0))%nat.
Proof.
  intros Hlate. unfold transform_line_step.
  destruct (transform_try instruction_from_dict Instruction_str tbl line st) as [out [st'|e]] eqn:E;
    apply (f_equal snd) in E; cbn [snd] in E.
  - destruct (transform_try_shape _ _ _ _ E) as [text ->].
    cbn [instructions]. rewrite length_app. cbn [length].
    unfold parses. destruct (parse_line line) as [f|e] eqn:Ep; [reflexivity|].
    unfold transform_try in E. rewrite Ep in E. discriminate.
  - destruct (Hlate st e E) as [e' He']. unfold parses. rewrite He'. cbn. lia.
Qed.

(** X25: a line with a syntax error leaves no trace in the result: the
    symbol table and the lines [main] writes to the object file are those
    of the program without the line. *)
Theorem main_skips_syntax_errors (pre post : list string) (bad : string)
    (e : Exception) :
  parse_line bad = Raise e ->
  build_table (pre ++ bad :: post) = build_table (pre ++ post) /\
  main instruction_from_dict Instruction_str (pre ++ bad :: post)
    = main instruction_from_dict Instruction_str (pre ++ post).
Proof.
  intros Hbad. split; [exact (build_table_skips pre post bad e Hbad)|].
  unfold main, transform_line, transform_line_run.
  rewrite (build_table_skips pre post bad e Hbad).
  rewrite !transform_line_from_app. cbn [transform_line_from].
  apply transform_line_from_core;
    rewrite (transform_line_step_raise _ _ _ _ e Hbad); reflexivity.
Qed.

(** X26: pass 2 emits at most one text per line, its address never exceeds
    the number of texts it has emitted, and it never runs ahead of the
    address of pass 1, whatever the symbol table and the instruction
    format are. *)
Theorem transform_line_bounds (tbl : gmap string Z) (lines : list string) :
  (0 <= address2 (transform_line_run instruction_from_dict Instruction_str tbl lines)
     <= Z.of_nat (length (instructions (transform_line_run instruction_from_dict Instruction_str tbl lines))))%Z /\
  (length (instructions (transform_line_run instruction_from_dict Instruction_str tbl lines)) <= length lines)%nat /\
  (address2 (transform_line_run instruction_from_dict Instruction_str tbl lines) <= address1 (build_table_run lines))%Z.
Proof.
  unfold transform_line_run, build_table_run.
  destruct (transform_line_from_extends tbl lines 0 (MkPass2 [] 0 []))
    as (more & -> & Hl & Ha & Hw).
  rewrite build_table_from_address. cbn in *. repeat split; lia.
Qed.

(** X27: a symbolic line whose symbol is not in the table emits nothing and
    leaves the address of pass 2 where it is, although pass 1 has counted
    the line; what is printed is the dict of fields and
    [Unknown word in line n: 'symbol']. *)
Theorem unknown_symbol_reported (tbl : gmap string Z) (lnum : nat)
    (line : string) (st : Pass2) (f : Fields) (s : string) :
  parse_line line = Ok f -> kind f = SYMBOL ->
  getitem f "symbol" = Ok (Some s) -> tbl !! s = None ->
  (transform_line_step instruction_from_dict Instruction_str tbl lnum line st)
    = MkPass2 (instructions st) (address2 st)
        (printed2 st ++
         [PrintFields f;
          PrintStr ("Unknown word in line " +:+ str_of_Z (Z.of_nat lnum)
                      +:+ ": " +:+ "'" +:+ s +:+ "'")]) /\
  occupies_word line = true.
Proof.
  intros Hp Hk Hs Ht. unfold transform_line_step, transform_try, occupies_word.
  rewrite Hp, Hk. unfold resolve_line. rewrite Hs.
  cbn [mbind Result_bind sym_lookup]. rewrite Ht. split; reflexivity.
Qed.

(** X28: the two passes agree on a symbolic line. In a program in which no
    earlier line fails after parsing, a line [OP target,sym] or [JUMP sym]
    whose symbol the table maps to [a] is emitted right after the texts of
    the earlier lines, with the offset [a] minus the number of earlier lines
    that occupy a word. *)
Theorem main_resolves_symbol (before after : list string) (line : string)
    (f : Fields) (s : string) (a : Z) :
  parse_line line = Ok f -> kind f = SYMBOL ->
  getitem f "symbol" = Ok (Some s) ->
  build_table (before ++ line :: after) !! s = Some a ->
  forallb (fun x => negb (fails_late instruction_from_dict Instruction_str
                            (build_table (before ++ line :: after)) x))
    before = true ->
  exists op pred target rest,
    getitem f "opcode" = Ok (Some op) /\
    getitem f "predicate" = Ok pred /\
    getitem f "target" = Ok target /\
    main instruction_from_dict Instruction_str (before ++ line :: after)
      = transform_line instruction_from_dict Instruction_str
          (build_table (before ++ line :: after)) before
        ++ (if bool_decide (Some op = Some "JUMP"%string)
            then if truthy pred
                 then "ADD" +:+ "/" +:+ str_of_opt pred +:+ "  r15,r0,r15["
                        +:+ str_of_Z (a - words_of before) +:+ "]"
                 else "ADD" +:+ " r15,r0,r15["
                        +:+ str_of_Z (a - words_of before) +:+ "]"
            else op +:+ "   " +:+ str_of_opt target +:+ ",r0,r15["
                   +:+ str_of_Z (a - words_of before) +:+ "]")
           :: rest.
Proof.
  intros Hp Hk Hs Ha Hb.
  destruct (symbol_line_fields line f Hp Hk)
    as (op & sym & pred & target & Ho & _ & _ & Hpr & _ & Htg & _).
  apply getitem_lookup in Ho, Hpr, Htg.
  unfold main, transform_line, transform_line_run.
  set (tbl := build_table (before ++ line :: after)) in *.
  rewrite transform_line_from_app. cbn [transform_line_from].
  pose proof (transform_line_from_address instruction_from_dict Instruction_str
                tbl before (fails_late_Forall tbl before Hb) 0%nat
                (MkPass2 [] 0 [])) as Haddr.
  cbn [address2] in Haddr. rewrite Z.add_0_l in Haddr.
  set (st1 := transform_line_from instruction_from_dict Instruction_str tbl
                0 before (MkPass2 [] 0 [])) in *.
  destruct (transform_line_from_extends tbl after (S (0 + length before))
              (transform_line_step instruction_from_dict Instruction_str tbl (0 + length before)%nat line st1))
    as (rest & -> & _).
  exists op, pred, target, rest. repeat split; try assumption.
  unfold transform_line_step, transform_try. rewrite Hp, Hk.
  rewrite (resolve_line_eval f tbl s op pred target a (address2 st1)
             Hs Ha Ho Hpr Htg).
  cbn [mbind Result_bind instructions]. rewrite Haddr, <- app_assoc.
  reflexivity.
Qed.

(** X29: when no line fails after parsing, pass 2 ends at the address pass 1
    ends at, and it has emitted exactly one text for every line that
    parses. *)
Theorem no_late_failure_lock_step (tbl : gmap string Z) (lines : list string) :
  forallb (fun x => negb (fails_late instruction_from_dict Instruction_str tbl x))
    lines = true ->
  address2 (transform_line_run instruction_from_dict Instruction_str tbl lines) = address1 (build_table_run lines) /\
  length (instructions (transform_line_run instruction_from_dict Instruction_str tbl lines))
    = length (List.filter parses lines).
Proof.
  intros H. apply fails_late_Forall in H. split.
  - unfold transform_line_run, build_table_run.
    rewrite (transform_line_from_address _ _ _ _ H), build_table_from_address.
    reflexivity.
  - unfold transform_line_run.
    enough (Hgen : forall lnum st,
              length (instructions (transform_line_from instruction_from_dict Instruction_str tbl lnum lines st))
              = (length (instructions st)
                 + length (List.filter
                             parses
                             lines))%nat)
      by (rewrite Hgen; reflexivity).
    induction H as [|line lines Hline Hrest IH]; intros lnum st.
    + cbn. lia.
    + cbn [transform_line_from List.filter]. rewrite IH.
      rewrite (transform_line_step_emits tbl lnum line st Hline).
      destruct (parses line); cbn [length]; lia.
Qed.

(** X30: a line of kind COMMENT is passed on as one text and moves neither
    address: [label:   comment], [label:] or the comment alone, and the
    text [None] for a line that has neither, such as a blank line. *)
Theorem comment_line_passes_through (tbl : gmap string Z) (lnum : nat)
    (line : string) (st : Pass2) (f : Fields) :
  parse_line line = Ok f -> kind f = COMMENT ->
  exists label comment,
    getitem f "label" = Ok label /\ getitem f "comment" = Ok comment /\
    (transform_line_step instruction_from_dict Instruction_str tbl lnum line st)
      = MkPass2 (instructions st ++
                   [match label, comment with
                    | Some l, Some c => l +:+ ":   " +:+ c
                    | Some l, None => l +:+ ":"
                    | None, Some c => c
                    | None, None => "None"
                    end])
          (address2 st) (printed2 st) /\
    occupies_word line = false.
Proof.
  intros Hp Hk.
  destruct (parse_line_has_label line f Hp) as [[label Hl] [comment Hc]].
  exists label, comment.
  pose proof (getitem_lookup _ _ _ Hl) as Gl.
  pose proof (getitem_lookup _ _ _ Hc) as Gc.
  repeat split; try assumption.
  - unfold transform_line_step, transform_try. rewrite Hp, Hk, Gl, Gc.
    cbn [mbind Result_bind instructions address2 printed2].
    rewrite app_nil_r.
    destruct label as [l|], comment as [c|];
      try rewrite (parse_line_label_truthy line f l Hp Hl);
      try rewrite (parse_line_comment_truthy line f c Hp Hc);
      reflexivity.
  - unfold occupies_word. rewrite Hp, Hk. reflexivity.
Qed.

End Pass2More.

Lemma main_skips_syntax_errors_witness :
  build_table (["a: DATA 1"%string] ++ "what is this"%string
                 :: ["LOAD r1,a"%string])
    = build_table (["a: DATA 1"%string] ++ ["LOAD r1,a"%string]) /\
  main Sample.instruction_from_dict Sample.Instruction_str
    (["a: DATA 1"%string] ++ "what is this"%string :: ["LOAD r1,a"%string])
    = main Sample.instruction_from_dict Sample.Instruction_str
        (["a: DATA 1"%string] ++ ["LOAD r1,a"%string]).
Proof.
  apply (main_skips_syntax_errors Sample.instruction_from_dict
           Sample.Instruction_str ["a: DATA 1"%string] ["LOAD r1,a"%string]
           "what is this" (SyntaxError "Assembler syntax error in what is this")).
  vm_compute; reflexivity.
Defined.

Lemma unknown_symbol_reported_witness :
  Sample.transform_line_step ∅ 3 Sample.load_line (MkPass2 [] 0 [])
    = MkPass2 [] 0
        [PrintFields Sample.load_fields;
         PrintStr ("Unknown word in line " +:+ str_of_Z (Z.of_nat 3)
                     +:+ ": " +:+ "'" +:+ "x" +:+ "'")] /\
  occupies_word Sample.load_line = true.
Proof.
  apply (unknown_symbol_reported Sample.instruction_from_dict
           Sample.Instruction_str ∅ 3 Sample.load_line (MkPass2 [] 0 [])
           Sample.load_fields "x");
    vm_compute; reflexivity.
Defined.

Lemma main_resolves_symbol_witness :
  exists op pred target rest,
    getitem Sample.load_fields "opcode" = Ok (Some op) /\
    getitem Sample.load_fields "predicate" = Ok pred /\
    getitem Sample.load_fields "target" = Ok target /\
    main Sample.instruction_from_dict Sample.Instruction_str
      (["ADD r1,r0,r0[1]"; "# note"]%string ++ Sample.load_line
         :: ["HALT r0,r0,r0"; "x: DATA 5"]%string)
      = transform_line Sample.instruction_from_dict Sample.Instruction_str
          (build_table (["ADD r1,r0,r0[1]"; "# note"]%string ++ Sample.load_line
                          :: ["HALT r0,r0,r0"; "x: DATA 5"]%string))
          ["ADD r1,r0,r0[1]"; "# note"]%string
        ++ (if bool_decide (Some op = Some "JUMP"%string)
            then if truthy pred
                 then "ADD" +:+ "/" +:+ str_of_opt pred +:+ "  r15,r0,r15["
                        +:+ str_of_Z (3 - words_of ["ADD r1,r0,r0[1]"; "# note"]%string)
                        +:+ "]"
                 else "ADD" +:+ " r15,r0,r15["
                        +:+ str_of_Z (3 - words_of ["ADD r1,r0,r0[1]"; "# note"]%string)
                        +:+ "]"
            else op +:+ "   " +:+ str_of_opt target +:+ ",r0,r15["
                   +:+ str_of_Z (3 - words_of ["ADD r1,r0,r0[1]"; "# note"]%string)
                   +:+ "]")
           :: rest.
Proof.
  apply (main_resolves_symbol Sample.instruction_from_dict
           Sample.Instruction_str ["ADD r1,r0,r0[1]"; "# note"]%string
           ["HALT r0,r0,r0"; "x: DATA 5"]%string Sample.load_line
           Sample.load_fields "x" 3);
    vm_compute; reflexivity.
Defined.

Lemma no_late_failure_lock_step_witness :
  address2 (Sample.transform_line_run ∅
              ["x: DATA 5"; "what is this"; "# note"; "HALT r0,r0,r0"]%string)
    = address1 (build_table_run
                  ["x: DATA 5"; "what is this"; "# note"; "HALT r0,r0,r0"]%string) /\
  length (instructions
            (Sample.transform_line_run ∅
               ["x: DATA 5"; "what is this"; "# note"; "HALT r0,r0,r0"]%string))
    = length (List.filter parses
                ["x: DATA 5"; "what is this"; "# note"; "HALT r0,r0,r0"]%string).
Proof.
  apply (no_late_failure_lock_step Sample.instruction_from_dict
           Sample.Instruction_str ∅
           ["x: DATA 5"; "what is this"; "# note"; "HALT r0,r0,r0"]%string).
  vm_compute; reflexivity.
Defined.

Lemma comment_line_passes_through_witness :
  exists label comment,
    getitem (MkFields COMMENT
               (list_to_map [("label", None); ("comment", None)]%string))
      "label" = Ok label /\
    getitem (MkFields COMMENT
               (list_to_map [("label", None); ("comment", None)]%string))
      "comment" = Ok comment /\
    Sample.transform_line_step ∅ 0 "   " (MkPass2 [] 0 [])
      = MkPass2 ([] ++
                   [match label, comment with
                    | Some l, Some c => l +:+ ":   " +:+ c
                    | Some l, None => l +:+ ":"
                    | None, Some c => c
                    | None, None => "None"
                    end])
          0 [] /\
    occupies_word "   " = false.
Proof.
  apply (comment_line_passes_through Sample.instruction_from_dict
           Sample.Instruction_str ∅ 0 "   " (MkPass2 [] 0 [])
           (MkFields COMMENT
              (list_to_map [("label", None); ("comment", None)]%string)));
    vm_compute; reflexivity.
Defined.

End AsmMore.
